(** * keyboard2thejoystick: a shallow embedding in Rocq

    Embeds the parts of [keyboard2thejoystick.c] that decide the
    translation engine (the inner poll loop of [normal_run]), the remap
    session of the outer loop, [parse_args], [guimap_save_script], the key
    name table and the clipped drawing primitives.  C [int]s are modelled
    as [Z]; every sum below stays far from the 32-bit limits. *)

From Stdlib Require Import String Ascii.
From Stdlib Require Import ZArith List Bool Permutation Lia.
Import ListNotations.
Open Scope string_scope.
Open Scope list_scope.
Open Scope Z_scope.

(** ** Linux input constants (from linux/input-event-codes.h) *)

Definition KEY_ESC : Z := 1.
Definition KEY_1 : Z := 2.
Definition KEY_2 : Z := 3.
Definition KEY_3 : Z := 4.
Definition KEY_4 : Z := 5.
Definition KEY_5 : Z := 6.
Definition KEY_6 : Z := 7.
Definition KEY_7 : Z := 8.
Definition KEY_8 : Z := 9.
Definition KEY_9 : Z := 10.
Definition KEY_0 : Z := 11.
Definition KEY_MINUS : Z := 12.
Definition KEY_EQUAL : Z := 13.
Definition KEY_BACKSPACE : Z := 14.
Definition KEY_TAB : Z := 15.
Definition KEY_Q : Z := 16.
Definition KEY_W : Z := 17.
Definition KEY_E : Z := 18.
Definition KEY_R : Z := 19.
Definition KEY_T : Z := 20.
Definition KEY_Y : Z := 21.
Definition KEY_U : Z := 22.
Definition KEY_I : Z := 23.
Definition KEY_O : Z := 24.
Definition KEY_P : Z := 25.
Definition KEY_LEFTBRACE : Z := 26.
Definition KEY_RIGHTBRACE : Z := 27.
Definition KEY_ENTER : Z := 28.
Definition KEY_LEFTCTRL : Z := 29.
Definition KEY_A : Z := 30.
Definition KEY_S : Z := 31.
Definition KEY_D : Z := 32.
Definition KEY_F : Z := 33.
Definition KEY_G : Z := 34.
Definition KEY_H : Z := 35.
Definition KEY_J : Z := 36.
Definition KEY_K : Z := 37.
Definition KEY_L : Z := 38.
Definition KEY_SEMICOLON : Z := 39.
Definition KEY_APOSTROPHE : Z := 40.
Definition KEY_GRAVE : Z := 41.
Definition KEY_LEFTSHIFT : Z := 42.
Definition KEY_BACKSLASH : Z := 43.
Definition KEY_Z : Z := 44.
Definition KEY_X : Z := 45.
Definition KEY_C : Z := 46.
Definition KEY_V : Z := 47.
Definition KEY_B : Z := 48.
Definition KEY_N : Z := 49.
Definition KEY_M : Z := 50.
Definition KEY_COMMA : Z := 51.
Definition KEY_DOT : Z := 52.
Definition KEY_SLASH : Z := 53.
Definition KEY_RIGHTSHIFT : Z := 54.
Definition KEY_KPASTERISK : Z := 55.
Definition KEY_LEFTALT : Z := 56.
Definition KEY_SPACE : Z := 57.
Definition KEY_CAPSLOCK : Z := 58.
Definition KEY_F1 : Z := 59.
Definition KEY_F2 : Z := 60.
Definition KEY_F3 : Z := 61.
Definition KEY_F4 : Z := 62.
Definition KEY_F5 : Z := 63.
Definition KEY_F6 : Z := 64.
Definition KEY_F7 : Z := 65.
Definition KEY_F8 : Z := 66.
Definition KEY_F9 : Z := 67.
Definition KEY_F10 : Z := 68.
Definition KEY_KP7 : Z := 71.
Definition KEY_KP8 : Z := 72.
Definition KEY_KP9 : Z := 73.
Definition KEY_KPMINUS : Z := 74.
Definition KEY_KP4 : Z := 75.
Definition KEY_KP5 : Z := 76.
Definition KEY_KP6 : Z := 77.
Definition KEY_KPPLUS : Z := 78.
Definition KEY_KP1 : Z := 79.
Definition KEY_KP2 : Z := 80.
Definition KEY_KP3 : Z := 81.
Definition KEY_KP0 : Z := 82.
Definition KEY_KPDOT : Z := 83.
Definition KEY_F11 : Z := 87.
Definition KEY_F12 : Z := 88.
Definition KEY_KPENTER : Z := 96.
Definition KEY_RIGHTCTRL : Z := 97.
Definition KEY_RIGHTALT : Z := 100.
Definition KEY_HOME : Z := 102.
Definition KEY_UP : Z := 103.
Definition KEY_PAGEUP : Z := 104.
Definition KEY_LEFT : Z := 105.
Definition KEY_RIGHT : Z := 106.
Definition KEY_END : Z := 107.
Definition KEY_DOWN : Z := 108.
Definition KEY_PAGEDOWN : Z := 109.
Definition KEY_INSERT : Z := 110.
Definition KEY_DELETE : Z := 111.

Definition EV_SYN : Z := 0.
Definition EV_KEY : Z := 1.
Definition EV_ABS : Z := 3.
Definition EV_MSC : Z := 4.
Definition SYN_REPORT : Z := 0.
Definition ABS_X : Z := 0.
Definition ABS_Y : Z := 1.
Definition MSC_SCAN : Z := 4.
Definition BTN_TRIGGER : Z := 288.
Definition BTN_THUMB : Z := 289.
Definition BTN_THUMB2 : Z := 290.
Definition BTN_TOP : Z := 291.
Definition BTN_TOP2 : Z := 292.
Definition BTN_PINKIE : Z := 293.
Definition BTN_BASE : Z := 294.
Definition BTN_BASE2 : Z := 295.

Definition NUM_DIRECTIONS : nat := 8.
Definition NUM_BUTTONS : nat := 8.
Definition NUM_MAPPINGS : nat := 16.
Definition AXIS_CENTER : Z := 127.

(** ** Key name table *)

(** [key_names[]]: pairs of key code and name, in the source's order. *)
Definition key_names : list (Z * string) := [
  (KEY_ESC, "esc");
  (KEY_1, "1");
  (KEY_2, "2");
  (KEY_3, "3");
  (KEY_4, "4");
  (KEY_5, "5");
  (KEY_6, "6");
  (KEY_7, "7");
  (KEY_8, "8");
  (KEY_9, "9");
  (KEY_0, "0");
  (KEY_MINUS, "minus");
  (KEY_EQUAL, "equal");
  (KEY_BACKSPACE, "backspace");
  (KEY_TAB, "tab");
  (KEY_Q, "q");
  (KEY_W, "w");
  (KEY_E, "e");
  (KEY_R, "r");
  (KEY_T, "t");
  (KEY_Y, "y");
  (KEY_U, "u");
  (KEY_I, "i");
  (KEY_O, "o");
  (KEY_P, "p");
  (KEY_LEFTBRACE, "bracketleft");
  (KEY_RIGHTBRACE, "bracketright");
  (KEY_ENTER, "enter");
  (KEY_LEFTCTRL, "lctrl");
  (KEY_A, "a");
  (KEY_S, "s");
  (KEY_D, "d");
  (KEY_F, "f");
  (KEY_G, "g");
  (KEY_H, "h");
  (KEY_J, "j");
  (KEY_K, "k");
  (KEY_L, "l");
  (KEY_SEMICOLON, "semicolon");
  (KEY_APOSTROPHE, "apostrophe");
  (KEY_GRAVE, "grave");
  (KEY_LEFTSHIFT, "lshift");
  (KEY_BACKSLASH, "backslash");
  (KEY_Z, "z");
  (KEY_X, "x");
  (KEY_C, "c");
  (KEY_V, "v");
  (KEY_B, "b");
  (KEY_N, "n");
  (KEY_M, "m");
  (KEY_COMMA, "comma");
  (KEY_DOT, "dot");
  (KEY_SLASH, "slash");
  (KEY_RIGHTSHIFT, "rshift");
  (KEY_KPASTERISK, "kpasterisk");
  (KEY_LEFTALT, "lalt");
  (KEY_SPACE, "space");
  (KEY_CAPSLOCK, "capslock");
  (KEY_F1, "f1");
  (KEY_F2, "f2");
  (KEY_F3, "f3");
  (KEY_F4, "f4");
  (KEY_F5, "f5");
  (KEY_F6, "f6");
  (KEY_F7, "f7");
  (KEY_F8, "f8");
  (KEY_F9, "f9");
  (KEY_F10, "f10");
  (KEY_F11, "f11");
  (KEY_F12, "f12");
  (KEY_KP7, "kp7");
  (KEY_KP8, "kp8");
  (KEY_KP9, "kp9");
  (KEY_KPMINUS, "kpminus");
  (KEY_KP4, "kp4");
  (KEY_KP5, "kp5");
  (KEY_KP6, "kp6");
  (KEY_KPPLUS, "kpplus");
  (KEY_KP1, "kp1");
  (KEY_KP2, "kp2");
  (KEY_KP3, "kp3");
  (KEY_KP0, "kp0");
  (KEY_KPDOT, "kpdot");
  (KEY_KPENTER, "kpenter");
  (KEY_RIGHTCTRL, "rctrl");
  (KEY_RIGHTALT, "ralt");
  (KEY_HOME, "home");
  (KEY_UP, "up");
  (KEY_PAGEUP, "pageup");
  (KEY_LEFT, "left");
  (KEY_RIGHT, "right");
  (KEY_END, "end");
  (KEY_DOWN, "down");
  (KEY_PAGEDOWN, "pagedown");
  (KEY_INSERT, "insert");
  (KEY_DELETE, "delete")].

(** [keycode_to_name]: first entry with that code, ["?"] otherwise. *)
Fixpoint keycode_to_name_in (tbl : list (Z * string)) (code : Z) : string :=
  match tbl with
  | [] => "?"
  | (c, n) :: rest => if Z.eqb c code then n else keycode_to_name_in rest code
  end.

Definition keycode_to_name (code : Z) : string :=
  keycode_to_name_in key_names code.

(** ASCII [tolower] and the equality test [strcasecmp(a, b) == 0]. *)
Definition tolower (c : ascii) : ascii :=
  let n := nat_of_ascii c in
  if (65 <=? n)%nat && (n <=? 90)%nat then ascii_of_nat (n + 32) else c.

Fixpoint strcasecmp_eq (a b : string) : bool :=
  match a, b with
  | EmptyString, EmptyString => true
  | String ca a', String cb b' =>
      Ascii.eqb (tolower ca) (tolower cb) && strcasecmp_eq a' b'
  | _, _ => false
  end.

(** [parse_keyname]: first code whose name matches case-insensitively, -1
    otherwise. *)
Fixpoint parse_keyname_in (tbl : list (Z * string)) (name : string) : Z :=
  match tbl with
  | [] => -1
  | (c, n) :: rest => if strcasecmp_eq n name then c else parse_keyname_in rest name
  end.

Definition parse_keyname (name : string) : Z := parse_keyname_in key_names name.

(** ** The mapping table *)

Record Mapping := mkMapping {
  cli_name : string;
  label : string;
  keycode : Z;
  default_key : Z;
  btn_code : Z;
  dx : Z;
  dy : Z
}.

(** [init_mappings]: slots 0-7 are directions, 8-15 buttons. *)
Definition init_mappings : list Mapping := [
  mkMapping "--up"        "Up"         KEY_W          KEY_W          (-1) 0 (-1);
  mkMapping "--down"      "Down"       KEY_X          KEY_X          (-1) 0 1;
  mkMapping "--left"      "Left"       KEY_A          KEY_A          (-1) (-1) 0;
  mkMapping "--right"     "Right"      KEY_D          KEY_D          (-1) 1 0;
  mkMapping "--upleft"    "Up-Left"    KEY_Q          KEY_Q          (-1) (-1) (-1);
  mkMapping "--upright"   "Up-Right"   KEY_E          KEY_E          (-1) 1 (-1);
  mkMapping "--downleft"  "Down-Left"  KEY_Z          KEY_Z          (-1) (-1) 1;
  mkMapping "--downright" "Down-Right" KEY_C          KEY_C          (-1) 1 1;
  mkMapping "--leftfire"  "Left Fire"  KEY_SPACE      KEY_SPACE      BTN_TRIGGER 0 0;
  mkMapping "--rightfire" "Right Fire" KEY_LEFTALT    KEY_LEFTALT    BTN_THUMB 0 0;
  mkMapping "--lefttri"   "Left Tri"   KEY_LEFTBRACE  KEY_LEFTBRACE  BTN_THUMB2 0 0;
  mkMapping "--righttri"  "Right Tri"  KEY_RIGHTBRACE KEY_RIGHTBRACE BTN_TOP 0 0;
  mkMapping "--menu1"     "Menu 1"     KEY_7          KEY_7          BTN_TOP2 0 0;
  mkMapping "--menu2"     "Menu 2"     KEY_8          KEY_8          BTN_PINKIE 0 0;
  mkMapping "--menu3"     "Menu 3"     KEY_9          KEY_9          BTN_BASE 0 0;
  mkMapping "--menu4"     "Menu 4"     KEY_0          KEY_0          BTN_BASE2 0 0
].

(** The slot record with only its current key code replaced. *)
Definition set_keycode (m : Mapping) (kc : Z) : Mapping :=
  mkMapping (cli_name m) (label m) kc (default_key m) (btn_code m) (dx m) (dy m).

(** [g_map[i].keycode = kc]: the C array assignment, [i < length]. *)
Fixpoint set_slot_keycode (tbl : list Mapping) (i : nat) (kc : Z) : list Mapping :=
  match tbl, i with
  | [], _ => []
  | m :: rest, O => set_keycode m kc :: rest
  | m :: rest, S i' => m :: set_slot_keycode rest i' kc
  end.

(** ** Events and the virtual joystick output *)

(** [struct input_event], reduced to the fields the program reads or
    writes.  The output of the engine is the list of events written to
    the uinput device, in order. *)
Record input_event := mkEv { ev_type : Z; ev_code : Z; ev_value : Z }.

Definition emit_syn : input_event := mkEv EV_SYN SYN_REPORT 0.

Definition dummy_mapping : Mapping := mkMapping "" "" 0 0 0 0 0.

(** [g_map[i]] *)
Definition map_at (tbl : list Mapping) (i : nat) : Mapping := nth i tbl dummy_mapping.

(** [g_dir_held[d] = v] *)
Fixpoint list_set {A} (l : list A) (i : nat) (v : A) : list A :=
  match l, i with
  | [], _ => []
  | _ :: rest, O => v :: rest
  | x :: rest, S i' => x :: list_set rest i' v
  end.

Definition all_released : list bool := repeat false NUM_DIRECTIONS.

(** Engine globals: [g_map], [g_dir_held], [g_ctrl_held], [g_suspended]. *)
Record Engine := mkEngine {
  g_map : list Mapping;
  g_dir_held : list bool;
  g_ctrl_held : bool;
  g_suspended : bool
}.

Definition with_held (st : Engine) (h : list bool) : Engine :=
  mkEngine (g_map st) h (g_ctrl_held st) (g_suspended st).
Definition with_ctrl (st : Engine) (c : bool) : Engine :=
  mkEngine (g_map st) (g_dir_held st) c (g_suspended st).
Definition with_suspended (st : Engine) (s : bool) : Engine :=
  mkEngine (g_map st) (g_dir_held st) (g_ctrl_held st) s.
Definition with_map (st : Engine) (m : list Mapping) : Engine :=
  mkEngine m (g_dir_held st) (g_ctrl_held st) (g_suspended st).

(** ** recalc_and_emit_axes *)

Definition clamp1 (s : Z) : Z :=
  let s := if s <? -1 then -1 else s in
  if s >? 1 then 1 else s.

Definition axis_value (s : Z) : Z :=
  if s <? 0 then 0 else if s >? 0 then 255 else 127.

(** The summing loop [for (d = 0; d < NUM_DIRECTIONS; d++)]. *)
Definition held_sums (tbl : list Mapping) (held : list bool) : Z * Z :=
  fold_left
    (fun acc d =>
       let '(sx, sy) := acc in
       if nth d held false
       then (sx + dx (map_at tbl d), sy + dy (map_at tbl d))
       else (sx, sy))
    (seq 0 NUM_DIRECTIONS) (0, 0).

Definition axes_of (tbl : list Mapping) (held : list bool) : Z * Z :=
  let '(sx, sy) := held_sums tbl held in
  (axis_value (clamp1 sx), axis_value (clamp1 sy)).

Definition recalc_and_emit_axes (tbl : list Mapping) (held : list bool)
  : list input_event :=
  let '(ax, ay) := axes_of tbl held in
  [mkEv EV_ABS ABS_X ax; mkEv EV_ABS ABS_Y ay; emit_syn].

(** ** One drained key event *)

(** The direction loop: every direction slot whose key code matches gets
    its held flag set to [pressed]; [axis_dirty] is raised when a flag
    actually changes. *)
Definition dir_step (tbl : list Mapping) (code : Z) (pressed : bool)
    (acc : list bool * bool) (d : nat) : list bool * bool :=
  let '(h, dt) := acc in
  if code =? keycode (map_at tbl d) then
    if negb (Bool.eqb (nth d h false) pressed)
    then (list_set h d pressed, true)
    else (h, dt)
  else (h, dt).

Definition dir_update (tbl : list Mapping) (code : Z) (pressed : bool)
    (held : list bool) (dirty : bool) : list bool * bool :=
  fold_left (dir_step tbl code pressed) (seq 0 NUM_DIRECTIONS) (held, dirty).

(** The button loop: for each matching button slot, a scan-code hint, the
    button report and a flush. *)
Definition button_report (m : Mapping) (pressed : bool) : list input_event :=
  [mkEv EV_MSC MSC_SCAN (589825 + (btn_code m - BTN_TRIGGER));
   mkEv EV_KEY (btn_code m) (if pressed then 1 else 0);
   emit_syn].

Definition button_events (tbl : list Mapping) (code : Z) (pressed : bool)
  : list input_event :=
  flat_map
    (fun b => let m := map_at tbl b in
              if code =? keycode m then button_report m pressed else [])
    (seq NUM_DIRECTIONS NUM_BUTTONS).

(** Release of every button, both axes centered, one flush: the body of the
    Ctrl+S pause branch and of [suspend_translation]. *)
Definition release_and_center (tbl : list Mapping) : list input_event :=
  map (fun b => mkEv EV_KEY (btn_code (map_at tbl b)) 0)
      (seq NUM_DIRECTIONS NUM_BUTTONS)
  ++ [mkEv EV_ABS ABS_X AXIS_CENTER; mkEv EV_ABS ABS_Y AXIS_CENTER; emit_syn].

(** The [while (read(...))] loop of the inner translation loop, over the
    events pending on the keyboards in the order they are read.  Result:
    the engine globals, the events emitted, [axis_dirty] and whether
    [goto break_inner] was taken (Ctrl+R).  On resume the pending events
    are discarded by [drain_keyboard_events]. *)
Fixpoint drain_loop (st : Engine) (dirty : bool) (evs : list input_event)
  : Engine * list input_event * bool * bool :=
  match evs with
  | [] => (st, [], dirty, false)
  | ev :: rest =>
    if negb (ev_type ev =? EV_KEY) then drain_loop st dirty rest
    else if ev_value ev =? 2 then drain_loop st dirty rest
    else
      let pressed := ev_value ev =? 1 in
      let code := ev_code ev in
      if (code =? KEY_LEFTCTRL) || (code =? KEY_RIGHTCTRL) then
        drain_loop (with_ctrl st pressed) dirty rest
      else if (code =? KEY_S) && pressed && g_ctrl_held st then
        if negb (g_suspended st) then
          let '(st', out, d, brk) :=
            drain_loop (with_suspended (with_held st all_released) true) dirty rest in
          (st', release_and_center (g_map st) ++ out, d, brk)
        else
          (with_ctrl (with_suspended st false) false, [], dirty, false)
      else if (code =? KEY_R) && pressed && g_ctrl_held st then
        (with_suspended st false, [], dirty, true)
      else if g_suspended st then drain_loop st dirty rest
      else
        let '(h', dirty') := dir_update (g_map st) code pressed (g_dir_held st) dirty in
        let bev := button_events (g_map st) code pressed in
        let '(st', out, d, brk) := drain_loop (with_held st h') dirty' rest in
        (st', bev ++ out, d, brk)
  end.

(** One iteration of [while (!g_quit)]: drain, then one axis report if
    [axis_dirty].  The boolean is [remap_requested]. *)
Definition poll_iteration (st : Engine) (evs : list input_event)
  : Engine * list input_event * bool :=
  let '(st', out, dirty, brk) := drain_loop st false evs in
  if brk then (st', out, true)
  else (st', out ++ (if dirty then recalc_and_emit_axes (g_map st') (g_dir_held st') else []),
        false).

(** ** The remap session of the outer loop *)

Definition suspend_translation (st : Engine) : Engine * list input_event :=
  (mkEngine (g_map st) all_released false false, release_and_center (g_map st)).

(** A wizard run: its exit status ([0] = applied) and the table it leaves
    in [g_map]. *)
Definition Wizard := list Mapping -> Z * list Mapping.

(** [suspend_translation]; snapshot [saved_map]; [guimap_run]; restore the
    snapshot when the result is non-zero. *)
Definition remap_session (wiz : Wizard) (st : Engine) : Engine * list input_event :=
  let '(st1, out) := suspend_translation st in
  let saved_map := g_map st1 in
  let '(remap_result, m) := wiz (g_map st1) in
  let m' := if negb (remap_result =? 0) then saved_map else m in
  (with_map st1 m', out).

(** The outer [for (;;)] loop over a sequence of poll iterations. *)
Fixpoint run_engine (wiz : Wizard) (st : Engine) (ticks : list (list input_event))
  : Engine * list input_event :=
  match ticks with
  | [] => (st, [])
  | t :: rest =>
    let '(st1, out1, remap) := poll_iteration st t in
    if remap then
      let '(st2, out2) := remap_session wiz st1 in
      let '(st3, out3) := run_engine wiz st2 rest in
      (st3, out1 ++ out2 ++ out3)
    else
      let '(st3, out3) := run_engine wiz st1 rest in
      (st3, out1 ++ out3)
  end.

Definition initial_engine : Engine := mkEngine init_mappings all_released false false.

Definition press (code : Z) : input_event := mkEv EV_KEY code 1.
Definition release (code : Z) : input_event := mkEv EV_KEY code 0.

(** ** The axis rule as the specification words it (for C1) *)

Fixpoint zsum (l : list Z) : Z :=
  match l with [] => 0 | x :: r => x + zsum r end.

(** "0 if clamp(sum, -1, 1) < 0, 255 if > 0, else 127", over the set [S]
    of held direction slots. *)
Definition spec_axis (S : list nat) (v : nat -> Z) : Z :=
  let c := Z.max (-1) (Z.min 1 (zsum (map v S))) in
  match Z.compare c 0 with Lt => 0 | Gt => 255 | Eq => 127 end.

(** The held-flag array whose set slots are exactly [S]. *)
Definition held_of (S : list nat) : list bool :=
  map (fun d => existsb (Nat.eqb d) S) (seq 0 NUM_DIRECTIONS).

(** A drained key press. *)
Definition is_press (ev : input_event) : Prop :=
  ev_type ev = EV_KEY /\ ev_value ev = 1.

Definition is_ctrl_key (code : Z) : bool :=
  (code =? KEY_LEFTCTRL) || (code =? KEY_RIGHTCTRL).

(** ** Predicates on drained event sequences (for C2-C4) *)

(** The drained sequence contains no press of the pause chord (Ctrl+S) nor
    of the remap chord (Ctrl+R), tracking the control flag as the engine
    does. *)
Fixpoint no_chord (ctrl : bool) (evs : list input_event) : bool :=
  match evs with
  | [] => true
  | ev :: rest =>
    if negb (ev_type ev =? EV_KEY) then no_chord ctrl rest
    else if ev_value ev =? 2 then no_chord ctrl rest
    else
      let pressed := ev_value ev =? 1 in
      if is_ctrl_key (ev_code ev) then no_chord pressed rest
      else if ((ev_code ev =? KEY_S) || (ev_code ev =? KEY_R)) && pressed && ctrl then false
      else no_chord ctrl rest
  end.

(** A transition of key [code] to [pressed] changes some held-direction
    flag: a direction slot bound to [code] has a flag different from
    [pressed]. *)
Definition changes_a_flag (tbl : list Mapping) (code : Z) (pressed : bool)
    (held : list bool) : bool :=
  existsb (fun d => (code =? keycode (map_at tbl d)) && negb (Bool.eqb (nth d held false) pressed))
          (seq 0 NUM_DIRECTIONS).

(** Some transition of an active, chord-free drained sequence changes a
    held-direction flag. *)
Fixpoint some_flag_changes (st : Engine) (evs : list input_event) : bool :=
  match evs with
  | [] => false
  | ev :: rest =>
    if negb (ev_type ev =? EV_KEY) then some_flag_changes st rest
    else if ev_value ev =? 2 then some_flag_changes st rest
    else
      let pressed := ev_value ev =? 1 in
      if is_ctrl_key (ev_code ev) then some_flag_changes (with_ctrl st pressed) rest
      else
        changes_a_flag (g_map st) (ev_code ev) pressed (g_dir_held st)
        || some_flag_changes
             (with_held st (fst (dir_update (g_map st) (ev_code ev) pressed (g_dir_held st) false)))
             rest
  end.

(** Number of X-axis reports in an emitted sequence. *)
Definition count_x_reports (out : list input_event) : nat :=
  length (filter (fun e => (ev_type e =? EV_ABS) && (ev_code e =? ABS_X)) out).

Definition no_abs (out : list input_event) : Prop :=
  Forall (fun e => ev_type e <> EV_ABS) out.

(** ** parse_args *)

(** First slot whose [cli_name] equals [arg] ([strcmp(...) == 0]). *)
Fixpoint find_slot_from (tbl : list Mapping) (m : nat) (arg : string) : option nat :=
  match tbl with
  | [] => None
  | x :: rest => if String.eqb arg (cli_name x) then Some m else find_slot_from rest (S m) arg
  end.

Definition find_slot (tbl : list Mapping) (arg : string) : option nat :=
  find_slot_from tbl 0 arg.

(** The loop over [argv[1..argc-1]]: result code, [g_map], [*help],
    [*guimap].  Overrides already applied stay applied when a later
    argument fails, as in the source. *)
Fixpoint parse_args_loop (tbl : list Mapping) (help guimap : bool) (args : list string)
  : Z * list Mapping * bool * bool :=
  match args with
  | [] => (0, tbl, help, guimap)
  | a :: rest =>
    if String.eqb a "--help" || String.eqb a "-h" then parse_args_loop tbl true guimap rest
    else if String.eqb a "--guimap" then parse_args_loop tbl help true rest
    else
      match find_slot tbl a with
      | None => (-1, tbl, help, guimap)
      | Some m =>
        match rest with
        | [] => (-1, tbl, help, guimap)
        | k :: rest' =>
          let kc := parse_keyname k in
          if kc <? 0 then (-1, tbl, help, guimap)
          else parse_args_loop (set_slot_keycode tbl m kc) help guimap rest'
        end
      end
  end.

Definition parse_args (tbl : list Mapping) (args : list string) : Z * list Mapping * bool * bool :=
  parse_args_loop tbl false false args.

(** ** guimap_save_script *)

Definition nl : string := String "010" EmptyString.

Fixpoint concat_str (l : list string) : string :=
  match l with [] => EmptyString | s :: r => (s ++ concat_str r)%string end.

(** [fprintf(fp, "#!/bin/sh\nexec ./keyboard2thejoystick")] *)
Definition script_header : string :=
  ("#!/bin/sh" ++ nl ++ "exec ./keyboard2thejoystick")%string.

(** [fprintf(fp, " \\\n  %s %s", g_map[i].cli_name, kn)] *)
Definition script_option (m : Mapping) : string :=
  (" \" ++ nl ++ "  " ++ cli_name m ++ " " ++ keycode_to_name (keycode m))%string.

(** Everything written to the script file. *)
Definition script_text (tbl : list Mapping) : string :=
  (script_header ++ concat_str (map script_option (firstn NUM_MAPPINGS tbl)) ++ nl)%string.

(** [snprintf(filepath, ..., "%.470s/keyboard2thejoystick.sh", b->path)] *)
Definition script_path (b_path : string) : string :=
  if String.eqb b_path "/" then "/keyboard2thejoystick.sh"
  else (substring 0 470 b_path ++ "/keyboard2thejoystick.sh")%string.

(** Files: path to contents and permission bits. *)
Definition FS := string -> option (string * Z).

Definition fs_write (fs : FS) (p : string) (v : string * Z) : FS :=
  fun q => if String.eqb q p then Some v else fs q.

(** [fopen] fails on the paths where [can_open] is false; then nothing is
    written and [save_path] is left unset ([None]).  Otherwise the text is
    written and [chmod(filepath, 0755)] applied. *)
Definition guimap_save_script (can_open : string -> bool) (fs : FS) (b_path : string)
    (tbl : list Mapping) : FS * option string :=
  let filepath := script_path b_path in
  if can_open filepath
  then (fs_write fs filepath (script_text tbl, 493), Some filepath)
  else (fs, None).

(** Splitting a text into its newline-terminated lines. *)
Fixpoint lines_from (cur s : string) : list string :=
  match s with
  | EmptyString => if String.eqb cur "" then [] else [cur]
  | String c s' =>
    if Ascii.eqb c "010" then cur :: lines_from "" s'
    else lines_from (cur ++ String c EmptyString)%string s'
  end.

Definition lines (s : string) : list string := lines_from "" s.

Fixpoint no_newline (s : string) : bool :=
  match s with
  | EmptyString => true
  | String c s' => negb (Ascii.eqb c "010") && no_newline s'
  end.

(** The layout the specification describes: a shebang line, a line
    invoking the program, then one continuation line per slot pairing its
    flag name with its key name. *)
(** Lines produced by the option part of the script, starting on line [cur]. *)
Fixpoint option_lines (cur : string) (l : list Mapping) : list string :=
  match l with
  | [] => [cur]
  | m :: r =>
    (cur ++ " \")%string
    :: option_lines ("  " ++ cli_name m ++ " " ++ keycode_to_name (keycode m))%string r
  end.

Definition expected_script_lines (tbl : list Mapping) : list string :=
  "#!/bin/sh" :: "exec ./keyboard2thejoystick \"
  :: map (fun i => let m := map_at tbl i in
                   ("  " ++ cli_name m ++ " " ++ keycode_to_name (keycode m)
                    ++ (if (i <? 15)%nat then " \" else ""))%string)
         (seq 0 NUM_MAPPINGS).

(** ** Framebuffer and drawing primitives *)

(** The geometry fields of [Framebuffer]; [fb_size] is the byte size of
    the mapping and of the [malloc]ed back buffer of [uint32_t] pixels. *)
Record Framebuffer := mkFramebuffer {
  fb_width : Z;
  fb_height : Z;
  fb_stride_px : Z;
  fb_size : Z
}.

(** [fb_init]: geometry from the variable and fixed screen info. *)
Definition fb_of_screeninfo (xres yres line_length bits_per_pixel : Z) : Framebuffer :=
  mkFramebuffer xres yres (line_length / (bits_per_pixel / 8)) (line_length * yres).

(** The effect of a primitive on the back buffer: the list of its stores
    [backbuf[index] = color], in order. *)
Definition Writes := list (Z * Z).

Definition draw_pixel (fb : Framebuffer) (x y c : Z) : Writes :=
  if (0 <=? x) && (x <? fb_width fb) && (0 <=? y) && (y <? fb_height fb)
  then [(y * fb_stride_px fb + x, c)]
  else [].

(** The values taken by [i] in [for (i = a; i < a + n; i++)]. *)
Definition zrange (a n : Z) : list Z :=
  map (fun k => a + Z.of_nat k) (seq 0 (Z.to_nat n)).

Definition draw_rect (fb : Framebuffer) (x y w h c : Z) : Writes :=
  flat_map (fun row => flat_map (fun col => draw_pixel fb col row c) (zrange x w))
           (zrange y h).

(** [while (dx * dx + dy * dy <= r * r) dx++;] run for at most [fuel]
    steps; [circle_fuel r] steps always reach the exit condition. *)
Fixpoint circle_dx (fuel : nat) (dx dy r : Z) : Z :=
  match fuel with
  | O => dx
  | S f => if dx * dx + dy * dy <=? r * r then circle_dx f (dx + 1) dy r else dx
  end.

Definition circle_fuel (r : Z) : nat := Z.to_nat (Z.abs r + 2).

Definition draw_circle (fb : Framebuffer) (cx cy r c : Z) : Writes :=
  flat_map (fun dy =>
              let dx := circle_dx (circle_fuel r) 0 dy r in
              draw_rect fb (cx - dx + 1) (cy + dy) (2 * dx - 1) 1 c)
           (zrange (- r) (2 * r + 1)).

Definition draw_rounded_rect (fb : Framebuffer) (x y w h r c : Z) : Writes :=
  if r <? 1 then draw_rect fb x y w h c
  else
    draw_rect fb (x + r) y (w - 2 * r) h c
    ++ draw_rect fb x (y + r) r (h - 2 * r) c
    ++ draw_rect fb (x + w - r) (y + r) r (h - 2 * r) c
    ++ flat_map (fun dy =>
                   let dx := circle_dx (circle_fuel r) 0 dy r in
                   draw_rect fb (x + r - dx + 1) (y + r + dy) (dx - 1) 1 c
                   ++ draw_rect fb (x + w - r) (y + r + dy) (dx - 1) 1 c
                   ++ draw_rect fb (x + r - dx + 1) (y + h - 1 - r - dy) (dx - 1) 1 c
                   ++ draw_rect fb (x + w - r) (y + h - 1 - r - dy) (dx - 1) 1 c)
                (zrange (- r) (r + 1)).

(** The three conditional swaps sorting the vertices by [y]. *)
Definition sort_by_y (p0 p1 p2 : Z * Z) : (Z * Z) * (Z * Z) * (Z * Z) :=
  let '(p0, p1) := if snd p0 >? snd p1 then (p1, p0) else (p0, p1) in
  let '(p0, p2) := if snd p0 >? snd p2 then (p2, p0) else (p0, p2) in
  let '(p1, p2) := if snd p1 >? snd p2 then (p2, p1) else (p1, p2) in
  (p0, p1, p2).

(** One scanline; C's [/] truncates toward zero ([Z.quot]). *)
Definition triangle_span (x0 y0 x1 y1 x2 y2 y : Z) : Z * Z :=
  let xa := if negb (Z.eqb y2 y0) then x0 + Z.quot ((x2 - x0) * (y - y0)) (y2 - y0) else x0 in
  let xb := if y <? y1
            then if negb (Z.eqb y1 y0) then x0 + Z.quot ((x1 - x0) * (y - y0)) (y1 - y0) else x0
            else if negb (Z.eqb y2 y1) then x1 + Z.quot ((x2 - x1) * (y - y1)) (y2 - y1) else x1 in
  if xa >? xb then (xb, xa) else (xa, xb).

Definition draw_triangle_filled (fb : Framebuffer) (x0 y0 x1 y1 x2 y2 c : Z) : Writes :=
  let '((x0, y0), (x1, y1), (x2, y2)) := sort_by_y (x0, y0) (x1, y1) (x2, y2) in
  flat_map (fun y =>
              let '(xa, xb) := triangle_span x0 y0 x1 y1 x2 y2 y in
              draw_rect fb xa y (xb - xa + 1) 1 c)
           (zrange y0 (y2 - y0 + 1)).

Definition FONT_W : Z := 8.
Definition FONT_H : Z := 16.

(** [font8x16]: glyphs of the characters 0x20 to 0x7E, one byte per row. *)
Definition font8x16 : list (list Z) := [
  [0; 0; 0; 0; 0; 0; 0; 0; 0; 0; 0; 0; 0; 0; 0; 0];
  [0; 0; 24; 60; 60; 60; 24; 24; 24; 0; 24; 24; 0; 0; 0; 0];
  [0; 102; 102; 102; 36; 0; 0; 0; 0; 0; 0; 0; 0; 0; 0; 0];
  [0; 0; 0; 108; 108; 254; 108; 108; 254; 108; 108; 0; 0; 0; 0; 0];
  [24; 24; 124; 198; 194; 192; 124; 6; 6; 134; 198; 124; 24; 24; 0; 0];
  [0; 0; 0; 0; 194; 198; 12; 24; 48; 96; 198; 134; 0; 0; 0; 0];
  [0; 0; 56; 108; 108; 56; 118; 220; 204; 204; 204; 118; 0; 0; 0; 0];
  [0; 48; 48; 48; 96; 0; 0; 0; 0; 0; 0; 0; 0; 0; 0; 0];
  [0; 0; 12; 24; 48; 48; 48; 48; 48; 48; 24; 12; 0; 0; 0; 0];
  [0; 0; 48; 24; 12; 12; 12; 12; 12; 12; 24; 48; 0; 0; 0; 0];
  [0; 0; 0; 0; 0; 102; 60; 255; 60; 102; 0; 0; 0; 0; 0; 0];
  [0; 0; 0; 0; 0; 24; 24; 126; 24; 24; 0; 0; 0; 0; 0; 0];
  [0; 0; 0; 0; 0; 0; 0; 0; 0; 24; 24; 24; 48; 0; 0; 0];
  [0; 0; 0; 0; 0; 0; 0; 254; 0; 0; 0; 0; 0; 0; 0; 0];
  [0; 0; 0; 0; 0; 0; 0; 0; 0; 0; 24; 24; 0; 0; 0; 0];
  [0; 0; 0; 0; 2; 6; 12; 24; 48; 96; 192; 128; 0; 0; 0; 0];
  [0; 0; 124; 198; 198; 206; 222; 246; 230; 198; 198; 124; 0; 0; 0; 0];
  [0; 0; 24; 56; 120; 24; 24; 24; 24; 24; 24; 126; 0; 0; 0; 0];
  [0; 0; 124; 198; 6; 12; 24; 48; 96; 192; 198; 254; 0; 0; 0; 0];
  [0; 0; 124; 198; 6; 6; 60; 6; 6; 6; 198; 124; 0; 0; 0; 0];
  [0; 0; 12; 28; 60; 108; 204; 254; 12; 12; 12; 30; 0; 0; 0; 0];
  [0; 0; 254; 192; 192; 192; 252; 6; 6; 6; 198; 124; 0; 0; 0; 0];
  [0; 0; 56; 96; 192; 192; 252; 198; 198; 198; 198; 124; 0; 0; 0; 0];
  [0; 0; 254; 198; 6; 6; 12; 24; 48; 48; 48; 48; 0; 0; 0; 0];
  [0; 0; 124; 198; 198; 198; 124; 198; 198; 198; 198; 124; 0; 0; 0; 0];
  [0; 0; 124; 198; 198; 198; 126; 6; 6; 6; 12; 120; 0; 0; 0; 0];
  [0; 0; 0; 0; 24; 24; 0; 0; 0; 24; 24; 0; 0; 0; 0; 0];
  [0; 0; 0; 0; 24; 24; 0; 0; 0; 24; 24; 48; 0; 0; 0; 0];
  [0; 0; 0; 6; 12; 24; 48; 96; 48; 24; 12; 6; 0; 0; 0; 0];
  [0; 0; 0; 0; 0; 126; 0; 0; 126; 0; 0; 0; 0; 0; 0; 0];
  [0; 0; 0; 96; 48; 24; 12; 6; 12; 24; 48; 96; 0; 0; 0; 0];
  [0; 0; 124; 198; 198; 12; 24; 24; 24; 0; 24; 24; 0; 0; 0; 0];
  [0; 0; 0; 124; 198; 198; 222; 222; 222; 220; 192; 124; 0; 0; 0; 0];
  [0; 0; 16; 56; 108; 198; 198; 254; 198; 198; 198; 198; 0; 0; 0; 0];
  [0; 0; 252; 102; 102; 102; 124; 102; 102; 102; 102; 252; 0; 0; 0; 0];
  [0; 0; 60; 102; 194; 192; 192; 192; 192; 194; 102; 60; 0; 0; 0; 0];
  [0; 0; 248; 108; 102; 102; 102; 102; 102; 102; 108; 248; 0; 0; 0; 0];
  [0; 0; 254; 102; 98; 104; 120; 104; 96; 98; 102; 254; 0; 0; 0; 0];
  [0; 0; 254; 102; 98; 104; 120; 104; 96; 96; 96; 240; 0; 0; 0; 0];
  [0; 0; 60; 102; 194; 192; 192; 222; 198; 198; 102; 58; 0; 0; 0; 0];
  [0; 0; 198; 198; 198; 198; 254; 198; 198; 198; 198; 198; 0; 0; 0; 0];
  [0; 0; 60; 24; 24; 24; 24; 24; 24; 24; 24; 60; 0; 0; 0; 0];
  [0; 0; 30; 12; 12; 12; 12; 12; 204; 204; 204; 120; 0; 0; 0; 0];
  [0; 0; 230; 102; 102; 108; 120; 120; 108; 102; 102; 230; 0; 0; 0; 0];
  [0; 0; 240; 96; 96; 96; 96; 96; 96; 98; 102; 254; 0; 0; 0; 0];
  [0; 0; 198; 238; 254; 254; 214; 198; 198; 198; 198; 198; 0; 0; 0; 0];
  [0; 0; 198; 230; 246; 254; 222; 206; 198; 198; 198; 198; 0; 0; 0; 0];
  [0; 0; 124; 198; 198; 198; 198; 198; 198; 198; 198; 124; 0; 0; 0; 0];
  [0; 0; 252; 102; 102; 102; 124; 96; 96; 96; 96; 240; 0; 0; 0; 0];
  [0; 0; 124; 198; 198; 198; 198; 198; 198; 214; 222; 124; 12; 14; 0; 0];
  [0; 0; 252; 102; 102; 102; 124; 108; 102; 102; 102; 230; 0; 0; 0; 0];
  [0; 0; 124; 198; 198; 96; 56; 12; 6; 198; 198; 124; 0; 0; 0; 0];
  [0; 0; 255; 219; 153; 24; 24; 24; 24; 24; 24; 60; 0; 0; 0; 0];
  [0; 0; 198; 198; 198; 198; 198; 198; 198; 198; 198; 124; 0; 0; 0; 0];
  [0; 0; 198; 198; 198; 198; 198; 198; 198; 108; 56; 16; 0; 0; 0; 0];
  [0; 0; 198; 198; 198; 198; 198; 214; 214; 254; 108; 108; 0; 0; 0; 0];
  [0; 0; 198; 198; 108; 124; 56; 56; 124; 108; 198; 198; 0; 0; 0; 0];
  [0; 0; 195; 195; 102; 60; 24; 24; 24; 24; 24; 60; 0; 0; 0; 0];
  [0; 0; 254; 198; 134; 12; 24; 48; 96; 194; 198; 254; 0; 0; 0; 0];
  [0; 0; 60; 48; 48; 48; 48; 48; 48; 48; 48; 60; 0; 0; 0; 0];
  [0; 0; 0; 128; 192; 224; 112; 56; 28; 14; 6; 2; 0; 0; 0; 0];
  [0; 0; 60; 12; 12; 12; 12; 12; 12; 12; 12; 60; 0; 0; 0; 0];
  [16; 56; 108; 198; 0; 0; 0; 0; 0; 0; 0; 0; 0; 0; 0; 0];
  [0; 0; 0; 0; 0; 0; 0; 0; 0; 0; 0; 0; 255; 0; 0; 0];
  [48; 48; 24; 0; 0; 0; 0; 0; 0; 0; 0; 0; 0; 0; 0; 0];
  [0; 0; 0; 0; 0; 120; 12; 124; 204; 204; 204; 118; 0; 0; 0; 0];
  [0; 0; 224; 96; 96; 120; 108; 102; 102; 102; 102; 124; 0; 0; 0; 0];
  [0; 0; 0; 0; 0; 124; 198; 192; 192; 192; 198; 124; 0; 0; 0; 0];
  [0; 0; 28; 12; 12; 60; 108; 204; 204; 204; 204; 118; 0; 0; 0; 0];
  [0; 0; 0; 0; 0; 124; 198; 254; 192; 192; 198; 124; 0; 0; 0; 0];
  [0; 0; 28; 54; 50; 48; 120; 48; 48; 48; 48; 120; 0; 0; 0; 0];
  [0; 0; 0; 0; 0; 118; 204; 204; 204; 204; 124; 12; 204; 120; 0; 0];
  [0; 0; 224; 96; 96; 108; 118; 102; 102; 102; 102; 230; 0; 0; 0; 0];
  [0; 0; 24; 24; 0; 56; 24; 24; 24; 24; 24; 60; 0; 0; 0; 0];
  [0; 0; 6; 6; 0; 14; 6; 6; 6; 6; 6; 6; 102; 60; 0; 0];
  [0; 0; 224; 96; 96; 102; 108; 120; 120; 108; 102; 230; 0; 0; 0; 0];
  [0; 0; 56; 24; 24; 24; 24; 24; 24; 24; 24; 60; 0; 0; 0; 0];
  [0; 0; 0; 0; 0; 236; 254; 214; 214; 214; 214; 198; 0; 0; 0; 0];
  [0; 0; 0; 0; 0; 220; 102; 102; 102; 102; 102; 102; 0; 0; 0; 0];
  [0; 0; 0; 0; 0; 124; 198; 198; 198; 198; 198; 124; 0; 0; 0; 0];
  [0; 0; 0; 0; 0; 220; 102; 102; 102; 102; 124; 96; 96; 240; 0; 0];
  [0; 0; 0; 0; 0; 118; 204; 204; 204; 204; 124; 12; 12; 30; 0; 0];
  [0; 0; 0; 0; 0; 220; 118; 102; 96; 96; 96; 240; 0; 0; 0; 0];
  [0; 0; 0; 0; 0; 124; 198; 96; 56; 12; 198; 124; 0; 0; 0; 0];
  [0; 0; 16; 48; 48; 252; 48; 48; 48; 48; 54; 28; 0; 0; 0; 0];
  [0; 0; 0; 0; 0; 204; 204; 204; 204; 204; 204; 118; 0; 0; 0; 0];
  [0; 0; 0; 0; 0; 195; 195; 195; 195; 102; 60; 24; 0; 0; 0; 0];
  [0; 0; 0; 0; 0; 198; 198; 214; 214; 214; 254; 108; 0; 0; 0; 0];
  [0; 0; 0; 0; 0; 198; 108; 56; 56; 56; 108; 198; 0; 0; 0; 0];
  [0; 0; 0; 0; 0; 198; 198; 198; 198; 198; 126; 6; 12; 248; 0; 0];
  [0; 0; 0; 0; 0; 254; 204; 24; 48; 96; 198; 254; 0; 0; 0; 0];
  [0; 0; 14; 24; 24; 24; 112; 24; 24; 24; 24; 14; 0; 0; 0; 0];
  [0; 0; 24; 24; 24; 24; 0; 24; 24; 24; 24; 24; 0; 0; 0; 0];
  [0; 0; 112; 24; 24; 24; 14; 24; 24; 24; 24; 112; 0; 0; 0; 0];
  [0; 0; 118; 220; 0; 0; 0; 0; 0; 0; 0; 0; 0; 0; 0; 0]
].

Definition draw_char (fb : Framebuffer) (x y : Z) (ch : ascii) (c scale : Z) : Writes :=
  let idx := Z.of_nat (nat_of_ascii ch) - 32 in
  if (idx <? 0) || (idx >=? 95) then []
  else
    let glyph := nth (Z.to_nat idx) font8x16 [] in
    flat_map (fun row =>
                let bits := nth (Z.to_nat row) glyph 0 in
                flat_map (fun col =>
                            if negb (Z.eqb (Z.land bits (Z.shiftr 128 col)) 0) then
                              if Z.eqb scale 1 then draw_pixel fb (x + col) (y + row) c
                              else draw_rect fb (x + col * scale) (y + row * scale) scale scale c
                            else [])
                         (zrange 0 FONT_W))
             (zrange 0 FONT_H).

Fixpoint draw_text (fb : Framebuffer) (x y : Z) (text : string) (c scale : Z) : Writes :=
  match text with
  | EmptyString => []
  | String ch rest => draw_char fb x y ch c scale ++ draw_text fb (x + FONT_W * scale) y rest c scale
  end.

(** A store lands in the back buffer: its index addresses one of the
    [fb_size / 4] [uint32_t] cells of [malloc(fb->size)]. *)
Definition in_backbuf (fb : Framebuffer) (w : Z * Z) : Prop :=
  0 <= fst w /\ 4 * fst w + 4 <= fb_size fb.

(** ** Keyboard reads *)

(** [read_keyboard_press] on one keyboard: the [while (read(...))] loop
    consumes events up to and including the first key press. *)
Fixpoint read_press_queue (q : list input_event) : option Z * list input_event :=
  match q with
  | [] => (None, [])
  | ev :: rest =>
    if (ev_type ev =? EV_KEY) && (ev_value ev =? 1) then (Some (ev_code ev), rest)
    else read_press_queue rest
  end.

(** [read_keyboard_press(fds, count)]: the pending events of each keyboard
    in [fds] order; the code of the first press, [0] when there is none,
    and the events left pending. *)
Fixpoint read_keyboard_press (qs : list (list input_event)) : Z * list (list input_event) :=
  match qs with
  | [] => (0, [])
  | q :: rest =>
    match read_press_queue q with
    | (Some code, q') => (code, q' :: rest)
    | (None, q') => let '(k, rest') := read_keyboard_press rest in (k, q' :: rest')
    end
  end.

(** [drain_keyboard_events]: every pending event is read and dropped. *)
Definition drain_keyboard_events (qs : list (list input_event)) : list (list input_event) :=
  map (fun _ => []) qs.

Definition is_press_event (ev : input_event) : bool :=
  (ev_type ev =? EV_KEY) && (ev_value ev =? 1).

(** ** Joystick navigation in guimap *)


(** The deflection class [cur] of an [ABS_Y] value. *)
Definition nav_class (value : Z) : Z :=
  let delta := value - AXIS_CENTER in
  if delta <? -50 then -1 else if delta >? 50 then 1 else 0.

Fixpoint read_joystick_nav_loop (prev_y nav_dy : Z) (nav_confirm : bool)
    (evs : list input_event) : Z * Z * bool :=
  match evs with
  | [] => (prev_y, nav_dy, nav_confirm)
  | ev :: rest =>
    if (ev_type ev =? EV_ABS) && (ev_code ev =? ABS_Y) then
      let cur := nav_class (ev_value ev) in
      if negb (cur =? prev_y) then read_joystick_nav_loop cur cur nav_confirm rest
      else read_joystick_nav_loop prev_y nav_dy nav_confirm rest
    else if (ev_type ev =? EV_KEY) && (ev_code ev =? BTN_TRIGGER) && (ev_value ev =? 1) then
      read_joystick_nav_loop prev_y nav_dy true rest
    else read_joystick_nav_loop prev_y nav_dy nav_confirm rest
  end.

(** [read_joystick_nav(joy_fd, &prev_y, &nav_dy, &nav_confirm)]: the new
    [*prev_y], [*nav_dy] and [*nav_confirm] after the pending events. *)
Definition read_joystick_nav (prev_y : Z) (evs : list input_event) : Z * Z * bool :=
  read_joystick_nav_loop prev_y 0 false evs.

(** ** The uinput device *)

Definition ABS_Z : Z := 2.
Definition ABS_RX : Z := 3.
Definition ABS_RY : Z := 4.
Definition BTN_BASE6 : Z := 299.
Definition AXIS_MIN : Z := 0.
Definition AXIS_MAX : Z := 255.
Definition AXIS_FLAT : Z := 15.
Definition VDEV_NAME : string := "Retro Games LTD THEC64 Joystick".

Definition axes : list Z := [ABS_X; ABS_Y; ABS_Z; ABS_RX; ABS_RY].

(** The [uinput_user_dev] written to the device: name, ids, and per axis
    its [absmin], [absmax], [absflat]. *)
Record uinput_user_dev := mkUidev {
  ud_name : string;
  ud_bustype : Z; ud_vendor : Z; ud_product : Z; ud_version : Z;
  ud_abs : list (Z * (Z * Z * Z))
}.

Definition vdev_uidev : uinput_user_dev :=
  mkUidev VDEV_NAME 3 7257 35 272
          (map (fun a => (a, (AXIS_MIN, AXIS_MAX, AXIS_FLAT))) axes).

(** The system calls of [create_virtual_joystick] after [open]. *)
Inductive uinput_call :=
| UI_SET_EVBIT (t : Z)
| UI_SET_KEYBIT (k : Z)
| UI_SET_ABSBIT (a : Z)
| UI_SET_MSCBIT (m : Z)
| WRITE_UIDEV (u : uinput_user_dev)
| UI_DEV_CREATE.

Definition uinput_setup_calls : list uinput_call :=
  [UI_SET_EVBIT EV_KEY; UI_SET_EVBIT EV_ABS; UI_SET_EVBIT EV_SYN; UI_SET_EVBIT EV_MSC]
  ++ map (fun k => UI_SET_KEYBIT k) (zrange BTN_TRIGGER (BTN_BASE6 - BTN_TRIGGER + 1))
  ++ map (fun a => UI_SET_ABSBIT a) axes
  ++ [UI_SET_MSCBIT MSC_SCAN; WRITE_UIDEV vdev_uidev; UI_DEV_CREATE].

(** Perform the calls in order until one fails ([goto fail]); [true] when
    all succeeded.  [ok] says which calls the kernel accepts. *)
Fixpoint run_calls (ok : uinput_call -> bool) (cs : list uinput_call)
  : bool * list uinput_call :=
  match cs with
  | [] => (true, [])
  | c :: rest =>
    if ok c then let '(b, done_) := run_calls ok rest in (b, c :: done_) else (false, [c])
  end.

(** [create_virtual_joystick]: the result ([fd] or [-1]), the calls made,
    and the events emitted (the five axes centered, a flush). *)
Definition create_virtual_joystick (open_fd : Z) (ok : uinput_call -> bool)
  : Z * list uinput_call * list input_event :=
  if open_fd <? 0 then (-1, [], [])
  else
    let '(success, calls) := run_calls ok uinput_setup_calls in
    if success
    then (open_fd, calls, map (fun a => mkEv EV_ABS a AXIS_CENTER) axes ++ [emit_syn])
    else (-1, calls, []).

(** An event the created device declares: its type is enabled, its code
    enabled for that type, and an axis value lies in the axis range. *)
Definition device_accepts (calls : list uinput_call) (ev : input_event) : Prop :=
  In (UI_SET_EVBIT (ev_type ev)) calls /\
  (ev_type ev = EV_KEY -> In (UI_SET_KEYBIT (ev_code ev)) calls) /\
  (ev_type ev = EV_ABS ->
     In (UI_SET_ABSBIT (ev_code ev)) calls /\
     exists u fl, In (WRITE_UIDEV u) calls /\
       In (ev_code ev, (AXIS_MIN, AXIS_MAX, fl)) (ud_abs u) /\
       AXIS_MIN <= ev_value ev <= AXIS_MAX) /\
  (ev_type ev = EV_MSC -> In (UI_SET_MSCBIT (ev_code ev)) calls) /\
  (ev_type ev = EV_SYN -> ev_code ev = SYN_REPORT).

(** Button slots whose codes lie in the registered range. *)
Definition buttons_registered (tbl : list Mapping) : Prop :=
  forall b, (NUM_DIRECTIONS <= b < NUM_MAPPINGS)%nat ->
    BTN_TRIGGER <= btn_code (map_at tbl b) <= BTN_BASE6.

(** ** Screen clearing and centered text *)

Definition fb_clear (fb : Framebuffer) (color : Z) : Writes :=
  map (fun i => (i, color)) (zrange 0 (fb_stride_px fb * fb_height fb)).

Definition text_width (text : string) (scale : Z) : Z :=
  Z.of_nat (String.length text) * FONT_W * scale.

Definition draw_text_centered (fb : Framebuffer) (cx y : Z) (text : string) (c scale : Z)
  : Writes :=
  draw_text fb (cx - Z.quot (text_width text scale) 2) y text c scale.

(** A store to the on-screen pixel [(x, y)] of the box [[x0, x1) x [y0, y1)]. *)
Definition pixel_in_box (fb : Framebuffer) (x0 x1 y0 y1 : Z) (w : Z * Z) : Prop :=
  exists x y, 0 <= x < fb_width fb /\ 0 <= y < fb_height fb /\
              x0 <= x < x1 /\ y0 <= y < y1 /\ fst w = y * fb_stride_px fb + x.

(** ** Results of [parse_args] *)

Definition pa_code (r : Z * list Mapping * bool * bool) : Z := fst (fst (fst r)).
Definition pa_table (r : Z * list Mapping * bool * bool) : list Mapping := snd (fst (fst r)).

(** The arguments [parse_args] handles before the slot flags. *)
Definition special_arg (a : string) : bool :=
  String.eqb a "--help" || String.eqb a "-h" || String.eqb a "--guimap".

(** [t] differs from [t0] at most in key codes, and each changed key code
    is a code of the key-name table. *)
Definition keycodes_only_changed (t0 t : list Mapping) : Prop :=
  length t = length t0 /\
  forall j, cli_name (map_at t j) = cli_name (map_at t0 j)
         /\ label (map_at t j) = label (map_at t0 j)
         /\ default_key (map_at t j) = default_key (map_at t0 j)
         /\ btn_code (map_at t j) = btn_code (map_at t0 j)
         /\ dx (map_at t j) = dx (map_at t0 j)
         /\ dy (map_at t j) = dy (map_at t0 j)
         /\ (keycode (map_at t j) = keycode (map_at t0 j)
             \/ In (keycode (map_at t j)) (map fst key_names)).

(** The [ABS_Y] deflection class after a batch of events, starting from [p]. *)
Definition last_nav_class (p : Z) (evs : list input_event) : Z :=
  fold_left (fun p ev => if (ev_type ev =? EV_ABS) && (ev_code ev =? ABS_Y)
                         then nav_class (ev_value ev) else p) evs p.

Definition is_trigger_press (ev : input_event) : bool :=
  (ev_type ev =? EV_KEY) && (ev_code ev =? BTN_TRIGGER) && (ev_value ev =? 1).

Definition nav_range (p : Z) : Prop := p = -1 \/ p = 0 \/ p = 1.

(** The events the translation engine writes for table [tbl]: a scan-code
    hint or a button report of a button slot, an [ABS_X]/[ABS_Y] value in
    [[0, 255]], a flush. *)
Definition engine_event (tbl : list Mapping) (ev : input_event) : Prop :=
  (exists b, (NUM_DIRECTIONS <= b < NUM_MAPPINGS)%nat /\
     (ev = mkEv EV_MSC MSC_SCAN (589825 + (btn_code (map_at tbl b) - BTN_TRIGGER))
      \/ exists v, ev = mkEv EV_KEY (btn_code (map_at tbl b)) v))
  \/ (exists v, (ev = mkEv EV_ABS ABS_X v \/ ev = mkEv EV_ABS ABS_Y v) /\ 0 <= v <= 255)
  \/ ev = emit_syn.

(** ** Input device scanning *)

(** What the program learns about [/dev/input/<name>]: whether [open]
    succeeds, the bitmasks returned by [EVIOCGBIT(0)], [EVIOCGBIT(EV_KEY)]
    and [EVIOCGBIT(EV_ABS)] ([None] when the [ioctl] fails; a mask is the
    [unsigned long] array read as one integer, so [TEST_BIT] is
    [Z.testbit]) and the name from [EVIOCGNAME]. *)
Record input_dev := mkInputDev {
  dev_opens : bool;
  dev_evbits : option Z;
  dev_keybits : option Z;
  dev_absbits : option Z;
  dev_name : option string
}.

Definition is_keyboard (d : input_dev) : bool :=
  match dev_evbits d with
  | None => false
  | Some ev =>
    if negb (Z.testbit ev EV_KEY) then false
    else match dev_keybits d with
         | None => false
         | Some kb => Z.testbit kb KEY_Q && Z.testbit kb KEY_A
         end
  end.

(** [strlen(d_name) > 5 && strncmp(d_name, "event", 5) == 0] *)
Definition event_name_ok (n : string) : bool :=
  (5 <? String.length n)%nat && String.prefix "event" n.

(** The [readdir] loop of [scan_keyboards]: the devices kept in [fds]
    (named by their directory entry) and the ones opened and closed
    again, in order. *)
Fixpoint scan_keyboards_loop (devs : string -> input_dev) (max_fds count : Z)
    (names : list string) : list string * list string :=
  match names with
  | [] => ([], [])
  | n :: rest =>
    if max_fds <=? count then ([], [])
    else if negb (event_name_ok n) then scan_keyboards_loop devs max_fds count rest
    else
      let d := devs n in
      if negb (dev_opens d) then scan_keyboards_loop devs max_fds count rest
      else if is_keyboard d then
        let '(kept, closed) := scan_keyboards_loop devs max_fds (count + 1) rest in
        (n :: kept, closed)
      else
        let '(kept, closed) := scan_keyboards_loop devs max_fds count rest in
        (kept, n :: closed)
  end.

(** [scan_keyboards(fds, max_fds)]; [input_dir] is the listing of
    [/dev/input], [None] when [opendir] fails.  The return value is the
    length of the first component. *)
Definition scan_keyboards (input_dir : option (list string)) (devs : string -> input_dev)
    (max_fds : Z) : list string * list string :=
  match input_dir with
  | None => ([], [])
  | Some names => scan_keyboards_loop devs max_fds 0 names
  end.

(** [memset(name, 0, ...); ioctl(fd, EVIOCGNAME(sizeof(name) - 1), name)] *)
Definition read_dev_name (d : input_dev) : string :=
  match dev_name d with
  | Some s => substring 0 255 s
  | None => ""
  end.

(** The tests a device passes to be taken as the navigation joystick; a
    failing [EVIOCGBIT(EV_ABS)] or [EVIOCGBIT(EV_KEY)] leaves the zeroed
    mask. *)
Definition joystick_candidate (d : input_dev) : bool :=
  match dev_evbits d with
  | None => false
  | Some ev =>
    if negb (Z.testbit ev EV_ABS) || negb (Z.testbit ev EV_KEY) then false
    else
      let ab := match dev_absbits d with Some a => a | None => 0 end in
      if negb (Z.testbit ab ABS_X) || negb (Z.testbit ab ABS_Y) then false
      else
        let kb := match dev_keybits d with Some k => k | None => 0 end in
        if negb (Z.testbit kb BTN_TRIGGER) then false
        else negb (String.eqb (read_dev_name d) VDEV_NAME)
  end.

(** The [readdir] loop of [scan_joystick]: the device returned, if any,
    and the devices opened and closed again before it. *)
Fixpoint scan_joystick_loop (devs : string -> input_dev) (names : list string)
  : option string * list string :=
  match names with
  | [] => (None, [])
  | n :: rest =>
    if negb (event_name_ok n) then scan_joystick_loop devs rest
    else
      let d := devs n in
      if negb (dev_opens d) then scan_joystick_loop devs rest
      else if joystick_candidate d then (Some n, [])
      else let '(r, closed) := scan_joystick_loop devs rest in (r, n :: closed)
  end.

(** [scan_joystick()]: [Some n] for a returned fd on [/dev/input/n],
    [None] for [-1]. *)
Definition scan_joystick (input_dir : option (list string)) (devs : string -> input_dev)
  : option string * list string :=
  match input_dir with
  | None => (None, [])
  | Some names => scan_joystick_loop devs names
  end.

(** ** Directory browser *)

Definition MAX_DIR_ENTRIES : Z := 256.

Record DirEntry := mkDirEntry { de_name : string; de_is_dir : bool }.

(** [DirBrowser]; [count] is the length of [entries]. *)
Record DirBrowser := mkDirBrowser {
  b_path : string;
  b_entries : list DirEntry;
  b_selected : Z;
  b_scroll : Z
}.

Definition b_count (b : DirBrowser) : Z := Z.of_nat (length (b_entries b)).

Definition dummy_entry : DirEntry := mkDirEntry "" false.

(** The character value compared by [strcasecmp]. *)
Definition tolower_Z (c : ascii) : Z := Z.of_nat (nat_of_ascii (tolower c)).

(** [strcasecmp]: the difference of the first pair of lowered characters
    that differ, the end of a string reading as [NUL]. *)
Fixpoint strcasecmp (a b : string) : Z :=
  match a, b with
  | EmptyString, EmptyString => 0
  | EmptyString, String cb _ => 0 - tolower_Z cb
  | String ca _, EmptyString => tolower_Z ca - 0
  | String ca a', String cb b' =>
    let d := tolower_Z ca - tolower_Z cb in
    if d =? 0 then (if Ascii.eqb ca "000"%char then 0 else strcasecmp a' b') else d
  end.

Definition dir_entry_cmp (da db : DirEntry) : Z :=
  if negb (Bool.eqb (de_is_dir da) (de_is_dir db))
  then Z.b2z (de_is_dir db) - Z.b2z (de_is_dir da)
  else strcasecmp (de_name da) (de_name db).

(** The file system as the browser sees it: the [readdir] listing of a
    directory ([None] when [opendir] fails), the result of [stat] on a
    path ([None] when it fails, else [S_ISDIR]), and [qsort] with
    [dir_entry_cmp] on an array of entries. *)
Record DirEnv := mkDirEnv {
  env_opendir : string -> option (list string);
  env_stat_isdir : string -> option bool;
  env_qsort : list DirEntry -> list DirEntry
}.

(** An insertion sort by [dir_entry_cmp], one possible [qsort]. *)
Fixpoint insert_entry (e : DirEntry) (l : list DirEntry) : list DirEntry :=
  match l with
  | [] => [e]
  | x :: r => if dir_entry_cmp e x <=? 0 then e :: x :: r else x :: insert_entry e r
  end.

Definition isort_entries (l : list DirEntry) : list DirEntry :=
  fold_right insert_entry [] l.

Definition starts_with_dot (n : string) : bool :=
  match n with
  | String c _ => Ascii.eqb c "."%char
  | EmptyString => false
  end.

(** The [readdir] loop of [browser_load]. *)
Fixpoint browser_scan (stat_isdir : string -> option bool) (path : string)
    (names : list string) (ents : list DirEntry) : list DirEntry :=
  match names with
  | [] => ents
  | n :: rest =>
    if negb (Z.of_nat (length ents) <? MAX_DIR_ENTRIES) then ents
    else if starts_with_dot n then browser_scan stat_isdir path rest ents
    else
      match stat_isdir (substring 0 511 (path ++ "/" ++ n)) with
      | Some true => browser_scan stat_isdir path rest (ents ++ [mkDirEntry (substring 0 255 n) true])
      | _ => browser_scan stat_isdir path rest ents
      end
  end.

Definition EXPORT_ENTRY : DirEntry := mkDirEntry ">> Export here <<" false.

Definition browser_load (env : DirEnv) (path : string) : DirBrowser :=
  let bpath := substring 0 511 path in
  let ents0 := if String.eqb bpath "/" then [] else [mkDirEntry ".." true] in
  match env_opendir env path with
  | None => mkDirBrowser bpath ents0 0 0
  | Some names =>
    let ents := browser_scan (env_stat_isdir env) path names ents0 in
    let count := Z.of_nat (length ents) in
    let start := match ents with
                 | e :: _ => if String.eqb (de_name e) ".." then 1%nat else 0%nat
                 | [] => 0%nat
                 end in
    let ents := if count - Z.of_nat start >? 1
                then firstn start ents ++ env_qsort env (skipn start ents)
                else ents in
    let ents := if count <? MAX_DIR_ENTRIES then ents ++ [EXPORT_ENTRY] else ents in
    mkDirBrowser bpath ents 0 0
  end.

(** [strrchr(s, c)]: the index of the last occurrence. *)
Fixpoint strrchr_from (c : ascii) (s : string) (i : nat) : option nat :=
  match s with
  | EmptyString => None
  | String a s' =>
    match strrchr_from c s' (S i) with
    | Some j => Some j
    | None => if Ascii.eqb a c then Some i else None
    end
  end.

Definition strrchr (c : ascii) (s : string) : option nat := strrchr_from c s 0.

(** [slash = strrchr(b->path, '/'); if (slash && slash != b->path)
    *slash = '\0'; else strcpy(b->path, "/");] *)
Definition parent_path (path : string) : string :=
  match strrchr "/"%char path with
  | Some i => if (i =? 0)%nat then "/" else substring 0 i path
  | None => "/"
  end.

(** [newpath] of the directory branch: ["/%.250s"] under the root,
    ["%.250s/%.250s"] elsewhere. *)
Definition child_path (path name : string) : string :=
  if String.eqb path "/" then ("/" ++ substring 0 250 name)%string
  else (substring 0 250 path ++ "/" ++ substring 0 250 name)%string.

Definition set_selected (b : DirBrowser) (v : Z) : DirBrowser :=
  mkDirBrowser (b_path b) (b_entries b) v (b_scroll b).

(** The [/* Scroll */] block, [visible = 18]. *)
Definition browser_scroll (b : DirBrowser) : DirBrowser :=
  let visible := 18 in
  let sc := if b_selected b <? b_scroll b then b_selected b else b_scroll b in
  let sc := if sc + visible <=? b_selected b then b_selected b - visible + 1 else sc in
  mkDirBrowser (b_path b) (b_entries b) (b_selected b) sc.

(** ** guimap_run *)

Definition GUIMAP_REVIEW_APPLY : Z := 16.
Definition GUIMAP_REVIEW_QUIT : Z := 17.
Definition GUIMAP_REVIEW_SAVE : Z := 18.
Definition GUIMAP_REVIEW_TOTAL : Z := 19.

Inductive guimap_state := GUIMAP_MAP | GUIMAP_REVIEW | GUIMAP_BROWSE.

(** [GuimapApp] without the framebuffer, the blink timer and the keyboard
    fds; [ga_joy] is [joy_fd >= 0]; [ga_map] is [g_map] and [ga_fs] the
    files [guimap_save_script] writes. *)
Record GuimapApp := mkGuimapApp {
  ga_state : guimap_state;
  ga_cur_map : Z;
  ga_redo_single : Z;
  ga_review_sel : Z;
  ga_browser : DirBrowser;
  ga_save_path : string;
  ga_mapped : list bool;
  ga_applied : bool;
  ga_joy : bool;
  ga_joy_prev_y : Z;
  ga_map : list Mapping;
  ga_fs : FS
}.

Definition set_state (g : GuimapApp) (v : guimap_state) : GuimapApp :=
  mkGuimapApp v (ga_cur_map g) (ga_redo_single g) (ga_review_sel g) (ga_browser g) (ga_save_path g) (ga_mapped g) (ga_applied g) (ga_joy g) (ga_joy_prev_y g) (ga_map g) (ga_fs g).

Definition set_cur_map (g : GuimapApp) (v : Z) : GuimapApp :=
  mkGuimapApp (ga_state g) v (ga_redo_single g) (ga_review_sel g) (ga_browser g) (ga_save_path g) (ga_mapped g) (ga_applied g) (ga_joy g) (ga_joy_prev_y g) (ga_map g) (ga_fs g).

Definition set_redo_single (g : GuimapApp) (v : Z) : GuimapApp :=
  mkGuimapApp (ga_state g) (ga_cur_map g) v (ga_review_sel g) (ga_browser g) (ga_save_path g) (ga_mapped g) (ga_applied g) (ga_joy g) (ga_joy_prev_y g) (ga_map g) (ga_fs g).

Definition set_review_sel (g : GuimapApp) (v : Z) : GuimapApp :=
  mkGuimapApp (ga_state g) (ga_cur_map g) (ga_redo_single g) v (ga_browser g) (ga_save_path g) (ga_mapped g) (ga_applied g) (ga_joy g) (ga_joy_prev_y g) (ga_map g) (ga_fs g).

Definition set_browser (g : GuimapApp) (v : DirBrowser) : GuimapApp :=
  mkGuimapApp (ga_state g) (ga_cur_map g) (ga_redo_single g) (ga_review_sel g) v (ga_save_path g) (ga_mapped g) (ga_applied g) (ga_joy g) (ga_joy_prev_y g) (ga_map g) (ga_fs g).

Definition set_save_path (g : GuimapApp) (v : string) : GuimapApp :=
  mkGuimapApp (ga_state g) (ga_cur_map g) (ga_redo_single g) (ga_review_sel g) (ga_browser g) v (ga_mapped g) (ga_applied g) (ga_joy g) (ga_joy_prev_y g) (ga_map g) (ga_fs g).

Definition set_mapped (g : GuimapApp) (v : list bool) : GuimapApp :=
  mkGuimapApp (ga_state g) (ga_cur_map g) (ga_redo_single g) (ga_review_sel g) (ga_browser g) (ga_save_path g) v (ga_applied g) (ga_joy g) (ga_joy_prev_y g) (ga_map g) (ga_fs g).

Definition set_applied (g : GuimapApp) (v : bool) : GuimapApp :=
  mkGuimapApp (ga_state g) (ga_cur_map g) (ga_redo_single g) (ga_review_sel g) (ga_browser g) (ga_save_path g) (ga_mapped g) v (ga_joy g) (ga_joy_prev_y g) (ga_map g) (ga_fs g).

Definition set_joy_prev_y (g : GuimapApp) (v : Z) : GuimapApp :=
  mkGuimapApp (ga_state g) (ga_cur_map g) (ga_redo_single g) (ga_review_sel g) (ga_browser g) (ga_save_path g) (ga_mapped g) (ga_applied g) (ga_joy g) v (ga_map g) (ga_fs g).

Definition set_map (g : GuimapApp) (v : list Mapping) : GuimapApp :=
  mkGuimapApp (ga_state g) (ga_cur_map g) (ga_redo_single g) (ga_review_sel g) (ga_browser g) (ga_save_path g) (ga_mapped g) (ga_applied g) (ga_joy g) (ga_joy_prev_y g) v (ga_fs g).

Definition set_fs (g : GuimapApp) (v : FS) : GuimapApp :=
  mkGuimapApp (ga_state g) (ga_cur_map g) (ga_redo_single g) (ga_review_sel g) (ga_browser g) (ga_save_path g) (ga_mapped g) (ga_applied g) (ga_joy g) (ga_joy_prev_y g) (ga_map g) v.

(** One [while (!g_quit)] iteration either goes on or leaves the loop by
    [break]. *)
Inductive gm_outcome := GM_CONTINUE (g : GuimapApp) | GM_BREAK (g : GuimapApp).

Definition NUM_MAPPINGS_Z : Z := Z.of_nat NUM_MAPPINGS.

(** The [GUIMAP_MAP] branch, with [key] from [read_keyboard_press]. *)
Definition guimap_map_step (g : GuimapApp) (key : Z) : GuimapApp :=
  if 0 <? key then
    let i := Z.to_nat (ga_cur_map g) in
    let g1 := set_mapped (set_map g (set_slot_keycode (ga_map g) i key))
                         (list_set (ga_mapped g) i true) in
    if 0 <=? ga_redo_single g1 then set_state (set_redo_single g1 (-1)) GUIMAP_REVIEW
    else
      let g2 := set_cur_map g1 (ga_cur_map g1 + 1) in
      if NUM_MAPPINGS_Z <=? ga_cur_map g2
      then set_review_sel (set_state g2 GUIMAP_REVIEW) 0
      else g2
  else g.

(** [redo_single = cur_map = review_sel; state = GUIMAP_MAP] *)
Definition guimap_redo (g : GuimapApp) : GuimapApp :=
  set_state (set_cur_map (set_redo_single g (ga_review_sel g)) (ga_review_sel g)) GUIMAP_MAP.

(** The [GUIMAP_REVIEW] branch. *)
Definition guimap_review_step (env : DirEnv) (g : GuimapApp) (key jdy : Z) (jconfirm : bool)
  : gm_outcome :=
  let sel := ga_review_sel g in
  if (key =? KEY_UP) || (jdy <? 0) then
    let s := sel - 1 in GM_CONTINUE (set_review_sel g (if s <? 0 then 0 else s))
  else if (key =? KEY_DOWN) || (0 <? jdy) then
    let s := sel + 1 in
    GM_CONTINUE (set_review_sel g (if GUIMAP_REVIEW_TOTAL <=? s then GUIMAP_REVIEW_TOTAL - 1 else s))
  else if key =? KEY_1 then
    if (0 <=? sel) && (sel <? NUM_MAPPINGS_Z) then GM_CONTINUE (guimap_redo g)
    else GM_CONTINUE g
  else if key =? KEY_A then GM_BREAK (set_applied g true)
  else if (key =? KEY_Q) || (key =? KEY_ESC) then GM_BREAK g
  else if key =? KEY_S then
    GM_CONTINUE (set_state (set_browser g (browser_load env "/mnt")) GUIMAP_BROWSE)
  else if (key =? KEY_ENTER) || (key =? KEY_SPACE) || jconfirm then
    if (0 <=? sel) && (sel <? NUM_MAPPINGS_Z) then GM_CONTINUE (guimap_redo g)
    else if sel =? GUIMAP_REVIEW_APPLY then GM_BREAK (set_applied g true)
    else if sel =? GUIMAP_REVIEW_QUIT then GM_BREAK g
    else if sel =? GUIMAP_REVIEW_SAVE then
      GM_CONTINUE (set_state (set_browser g (browser_load env "/mnt")) GUIMAP_BROWSE)
    else GM_CONTINUE g
  else GM_CONTINUE g.

(** The [GUIMAP_BROWSE] branch, the scroll block included. *)
Definition guimap_browse_step (env : DirEnv) (can_open : string -> bool)
    (g : GuimapApp) (key jdy : Z) (jconfirm : bool) : GuimapApp :=
  let b := ga_browser g in
  let sel := b_selected b in
  let g1 :=
    if (key =? KEY_UP) || (jdy <? 0) then
      let s := sel - 1 in set_browser g (set_selected b (if s <? 0 then 0 else s))
    else if (key =? KEY_DOWN) || (0 <? jdy) then
      let s := sel + 1 in
      set_browser g (set_selected b (if b_count b <=? s then b_count b - 1 else s))
    else if (key =? KEY_ENTER) || jconfirm then
      if 0 <? b_count b then
        let e := nth (Z.to_nat sel) (b_entries b) dummy_entry in
        if String.eqb (de_name e) ".." then
          set_browser g (browser_load env (parent_path (b_path b)))
        else if de_is_dir e then
          set_browser g (browser_load env (child_path (b_path b) (de_name e)))
        else
          let '(fs', saved) := guimap_save_script can_open (ga_fs g) (b_path b) (ga_map g) in
          let g' := set_fs g fs' in
          let g' := match saved with Some p => set_save_path g' p | None => g' end in
          set_state g' GUIMAP_REVIEW
      else g
    else if (key =? KEY_LEFT) || (key =? KEY_BACKSPACE) then
      set_browser g (browser_load env (parent_path (b_path b)))
    else if (key =? KEY_Q) || (key =? KEY_ESC) then set_state g GUIMAP_REVIEW
    else g in
  set_browser g1 (browser_scroll (ga_browser g1)).

(** What one iteration reads: the events pending on the keyboards and on
    the navigation joystick. *)
Record guimap_tick := mkGuimapTick {
  tk_kbd : list (list input_event);
  tk_joy : list input_event
}.

(** [jdy = 0, jconfirm = 0; if (joy_fd >= 0) read_joystick_nav(...)] *)
Definition guimap_nav (g : GuimapApp) (evs : list input_event) : Z * Z * bool :=
  if ga_joy g then read_joystick_nav (ga_joy_prev_y g) evs
  else (ga_joy_prev_y g, 0, false).

Definition guimap_iteration (env : DirEnv) (can_open : string -> bool)
    (g : GuimapApp) (t : guimap_tick) : gm_outcome :=
  let key := fst (read_keyboard_press (tk_kbd t)) in
  match ga_state g with
  | GUIMAP_MAP => GM_CONTINUE (guimap_map_step g key)
  | GUIMAP_REVIEW =>
    let '(py, jdy, jc) := guimap_nav g (tk_joy t) in
    guimap_review_step env (set_joy_prev_y g py) key jdy jc
  | GUIMAP_BROWSE =>
    let '(py, jdy, jc) := guimap_nav g (tk_joy t) in
    GM_CONTINUE (guimap_browse_step env can_open (set_joy_prev_y g py) key jdy jc)
  end.

(** The main loop over the iterations run before [g_quit] is set. *)
Fixpoint guimap_loop (env : DirEnv) (can_open : string -> bool)
    (g : GuimapApp) (ticks : list guimap_tick) : GuimapApp :=
  match ticks with
  | [] => g
  | t :: rest =>
    match guimap_iteration env can_open g t with
    | GM_BREAK g' => g'
    | GM_CONTINUE g' => guimap_loop env can_open g' rest
    end
  end.

(** [memset(&gapp, 0, ...)] and the initial assignments. *)
Definition guimap_init (joy : bool) (tbl : list Mapping) (fs : FS) : GuimapApp :=
  mkGuimapApp GUIMAP_MAP 0 (-1) 0 (mkDirBrowser "" [] 0 0) ""
              (repeat false NUM_MAPPINGS) false joy 0 tbl fs.

(** [guimap_run()]: [fb_ok] is [fb_init] succeeding, [num_kbd] the count
    from [scan_keyboards].  The exit status, [g_map] and the files. *)
Definition guimap_run (env : DirEnv) (can_open : string -> bool) (fb_ok : bool)
    (num_kbd : Z) (joy : bool) (ticks : list guimap_tick) (tbl : list Mapping) (fs : FS)
  : Z * list Mapping * FS :=
  if negb fb_ok then (1, tbl, fs)
  else if num_kbd =? 0 then (1, tbl, fs)
  else
    let g := guimap_loop env can_open (guimap_init joy tbl fs) ticks in
    (if ga_applied g then 0 else 1, ga_map g, ga_fs g).

(** ** Properties used by the statements *)

(** The selection of a browser: on an entry, or [0] or [-1] in an empty
    listing. *)
Definition browser_sel_ok (b : DirBrowser) : Prop :=
  (b_count b = 0 /\ -1 <= b_selected b <= 0)
  \/ (0 <= b_scroll b /\ 0 <= b_selected b < b_count b).

(** ... and inside the 18-row scroll window. *)
Definition browser_ok (b : DirBrowser) : Prop :=
  b_scroll b <= b_selected b < b_scroll b + 18 /\ browser_sel_ok b.

(** The invariant of the guimap loop. *)
Definition guimap_inv (g : GuimapApp) : Prop :=
  0 <= ga_review_sel g < GUIMAP_REVIEW_TOTAL /\
  (ga_state g = GUIMAP_MAP -> 0 <= ga_cur_map g < NUM_MAPPINGS_Z) /\
  (ga_redo_single g = -1 \/ (ga_state g = GUIMAP_MAP /\ ga_redo_single g = ga_cur_map g)) /\
  browser_ok (ga_browser g).

(** [t] is [t0] with some key codes replaced by positive ones. *)
Definition keycodes_set_positive (t0 t : list Mapping) : Prop :=
  length t = length t0 /\
  forall j, cli_name (map_at t j) = cli_name (map_at t0 j)
         /\ label (map_at t j) = label (map_at t0 j)
         /\ default_key (map_at t j) = default_key (map_at t0 j)
         /\ btn_code (map_at t j) = btn_code (map_at t0 j)
         /\ dx (map_at t j) = dx (map_at t0 j)
         /\ dy (map_at t j) = dy (map_at t0 j)
         /\ (keycode (map_at t j) = keycode (map_at t0 j) \/ 0 < keycode (map_at t j)).

(** A tick whose only pending event is a press of [k] on one keyboard. *)
Definition key_tick (k : Z) : guimap_tick := mkGuimapTick [[press k]] [].

(** The table with the key codes of [ks] given to its slots in order. *)
Fixpoint assign_keycodes (tbl : list Mapping) (ks : list Z) : list Mapping :=
  match tbl, ks with
  | m :: tr, k :: kr => set_keycode m k :: assign_keycodes tr kr
  | _, _ => tbl
  end.

(** The application state after an iteration, whether it breaks or not. *)
Definition outcome_app (o : gm_outcome) : GuimapApp :=
  match o with GM_CONTINUE g => g | GM_BREAK g => g end.

(** ** Sample inputs *)

(** A mount point with two directories, a hidden one and a file. *)
Definition demo_env : DirEnv :=
  mkDirEnv (fun p => if String.eqb p "/mnt" then Some ["usb"; ".hidden"; "Games"; "notes.txt"]
                     else None)
           (fun p => Some (String.eqb p "/mnt/usb" || String.eqb p "/mnt/Games"))
           isort_entries.

Definition no_files : FS := fun _ => None.

Definition demo_keys : list Z :=
  [KEY_W; KEY_X; KEY_A; KEY_D; KEY_Q; KEY_E; KEY_Z; KEY_C;
   KEY_SPACE; KEY_LEFTALT; KEY_LEFTBRACE; KEY_RIGHTBRACE; KEY_7; KEY_8; KEY_9; KEY_1].

Definition demo_review : GuimapApp :=
  mkGuimapApp GUIMAP_REVIEW NUM_MAPPINGS_Z (-1) 3 (mkDirBrowser "" [] 0 0) ""
              (repeat true NUM_MAPPINGS) false false 0 init_mappings no_files.

(** * Proofs *)

(** ** Axis recomputation (C1) *)

Lemma length_list_set {A} (l : list A) i v : length (list_set l i v) = length l.
Proof. revert i; induction l as [|x l IH]; intros [|i]; simpl; auto. Qed.

Lemma nth_list_set (l : list bool) i v d :
  (i < length l)%nat ->
  nth d (list_set l i v) false = if Nat.eqb d i then v else nth d l false.
Proof.
  revert i d; induction l as [|x l IH]; intros i d Hi; simpl in Hi; [lia|].
  destruct i as [|i], d as [|d]; simpl; auto.
  apply IH; lia.
Qed.

Lemma zsum_perm (l l' : list Z) : Permutation l l' -> zsum l = zsum l'.
Proof. induction 1; simpl; lia. Qed.

Lemma zsum_app l l' : zsum (l ++ l') = zsum l + zsum l'.
Proof. induction l; simpl; lia. Qed.

(** The summing loop adds, over the visited slots, each held slot's vector. *)
Lemma held_sums_fold (tbl : list Mapping) (held : list bool) (ds : list nat) sx sy :
  fold_left
    (fun acc d =>
       let '(sx, sy) := acc in
       if nth d held false
       then (sx + dx (map_at tbl d), sy + dy (map_at tbl d))
       else (sx, sy)) ds (sx, sy)
  = (sx + zsum (map (fun d => dx (map_at tbl d)) (filter (fun d => nth d held false) ds)),
     sy + zsum (map (fun d => dy (map_at tbl d)) (filter (fun d => nth d held false) ds))).
Proof.
  revert sx sy; induction ds as [|d ds IH]; intros sx sy; simpl.
  - f_equal; lia.
  - destruct (nth d held false); rewrite IH; simpl; f_equal; lia.
Qed.

Lemma nth_held_of (S : list nat) d :
  (d < NUM_DIRECTIONS)%nat -> nth d (held_of S) false = existsb (Nat.eqb d) S.
Proof.
  unfold NUM_DIRECTIONS; intros Hd.
  do 8 (destruct d as [|d]; [reflexivity|]); lia.
Qed.

Lemma filter_held_of_perm (S : list nat) :
  NoDup S -> Forall (fun d => (d < NUM_DIRECTIONS)%nat) S ->
  Permutation (filter (fun d => nth d (held_of S) false) (seq 0 NUM_DIRECTIONS)) S.
Proof.
  intros Hnd Hlt.
  apply NoDup_Permutation.
  - apply NoDup_filter, seq_NoDup.
  - exact Hnd.
  - intros d; rewrite filter_In, in_seq; split.
    + intros [[_ Hd] Hn]; rewrite nth_held_of in Hn by (simpl in *; lia).
      apply existsb_exists in Hn as [x [Hx Hxd]].
      apply Nat.eqb_eq in Hxd; subst; exact Hx.
    + intros Hd; rewrite Forall_forall in Hlt; specialize (Hlt d Hd).
      split; [unfold NUM_DIRECTIONS in *; lia|].
      rewrite nth_held_of by exact Hlt.
      apply existsb_exists; exists d; split; [exact Hd|apply Nat.eqb_refl].
Qed.

Lemma axis_value_spec (s : Z) :
  axis_value (clamp1 s) =
  match Z.compare (Z.max (-1) (Z.min 1 s)) 0 with Lt => 0 | Gt => 255 | Eq => 127 end.
Proof.
  unfold axis_value, clamp1.
  destruct (Z.ltb_spec s (-1)); [rewrite Z.min_r, Z.max_l by lia; reflexivity|].
  destruct (Z.gtb_spec s 1); [rewrite Z.min_l, Z.max_r by lia; reflexivity|].
  rewrite Z.min_r, Z.max_r by lia.
  destruct (Z.ltb_spec s 0); [destruct s; simpl; try reflexivity; lia|].
  destruct (Z.gtb_spec s 0); destruct s; simpl; try reflexivity; lia.
Qed.

Lemma axes_of_held_of (tbl : list Mapping) (S : list nat) :
  NoDup S -> Forall (fun d => (d < NUM_DIRECTIONS)%nat) S ->
  axes_of tbl (held_of S) =
  (spec_axis S (fun d => dx (map_at tbl d)), spec_axis S (fun d => dy (map_at tbl d))).
Proof.
  intros Hnd Hlt.
  unfold axes_of, held_sums; rewrite held_sums_fold; cbv zeta.
  pose proof (filter_held_of_perm S Hnd Hlt) as Hp.
  rewrite (zsum_perm _ _ (Permutation_map (fun d => dx (map_at tbl d)) Hp)).
  rewrite (zsum_perm _ _ (Permutation_map (fun d => dy (map_at tbl d)) Hp)).
  unfold spec_axis; rewrite !axis_value_spec; reflexivity.
Qed.

(** The direction loop sets exactly the matching, visited slots. *)
Lemma dir_update_fold (tbl : list Mapping) code p (ds : list nat) :
  NoDup ds ->
  forall (h : list bool) dt,
  Forall (fun d => (d < length h)%nat) ds ->
  let h' := fst (fold_left (dir_step tbl code p) ds (h, dt)) in
  length h' = length h /\
  forall d, nth d h' false =
    if existsb (Nat.eqb d) ds && (code =? keycode (map_at tbl d)) then p else nth d h false.
Proof.
  induction 1 as [|d0 ds Hnin Hnd IH]; intros h dt Hlt; simpl.
  - split; [reflexivity|]; intros d; reflexivity.
  - inversion Hlt as [|? ? Hd0 Hlt']; subst.
    assert (Hgen : forall h1, length h1 = length h ->
               (forall d, nth d h1 false = if Nat.eqb d d0 && (code =? keycode (map_at tbl d))
                                            then p else nth d h false) ->
               forall dt1,
               let h' := fst (fold_left (dir_step tbl code p) ds (h1, dt1)) in
               length h' = length h /\
               forall d, nth d h' false =
                 if ((d =? d0)%nat || existsb (Nat.eqb d) ds) && (code =? keycode (map_at tbl d))
                 then p else nth d h false).
    { intros h1 Hlen Hnth dt1; cbv zeta.
      assert (Hlt1 : Forall (fun d => (d < length h1)%nat) ds) by (rewrite Hlen; exact Hlt').
      destruct (IH h1 dt1 Hlt1) as [IHl IHn]; split; [congruence|].
      intros d; rewrite IHn, Hnth.
      destruct (Nat.eqb_spec d d0) as [->|Hne]; simpl.
      - assert (existsb (Nat.eqb d0) ds = false) as ->.
        { apply Bool.not_true_is_false; intros Hx; apply existsb_exists in Hx as [x [Hx Hxe]].
          apply Nat.eqb_eq in Hxe; subst; contradiction. }
        simpl; destruct (code =? keycode (map_at tbl d0)); reflexivity.
      - destruct (existsb (Nat.eqb d) ds), (code =? keycode (map_at tbl d)); reflexivity. }
    unfold dir_step at 2.
    destruct (Z.eqb_spec code (keycode (map_at tbl d0))) as [Hm|Hm].
    + destruct (Bool.eqb (nth d0 h false) p) eqn:Heq; simpl.
      * apply Hgen; [reflexivity|]; intros d.
        destruct (Nat.eqb_spec d d0) as [->|]; simpl; [|reflexivity].
        destruct (code =? keycode (map_at tbl d0)); [|reflexivity].
        apply Bool.eqb_prop in Heq; exact Heq.
      * apply Hgen; [apply length_list_set|]; intros d.
        rewrite nth_list_set by exact Hd0.
        destruct (Nat.eqb_spec d d0) as [->|]; simpl; [|reflexivity].
        rewrite <- Hm, Z.eqb_refl; reflexivity.
    + apply Hgen; [reflexivity|]; intros d.
      destruct (Nat.eqb_spec d d0) as [->|]; simpl; [|reflexivity].
      destruct (Z.eqb_spec code (keycode (map_at tbl d0))); [contradiction|reflexivity].
Qed.

Lemma dir_update_spec (tbl : list Mapping) code p (h : list bool) dt :
  length h = NUM_DIRECTIONS ->
  length (fst (dir_update tbl code p h dt)) = NUM_DIRECTIONS /\
  forall d, (d < NUM_DIRECTIONS)%nat ->
    nth d (fst (dir_update tbl code p h dt)) false =
    if code =? keycode (map_at tbl d) then p else nth d h false.
Proof.
  intros Hl.
  assert (Hlt : Forall (fun d => (d < length h)%nat) (seq 0 NUM_DIRECTIONS)).
  { apply Forall_forall; intros d Hd; apply in_seq in Hd; lia. }
  destruct (dir_update_fold tbl code p _ (seq_NoDup _ 0) h dt Hlt) as [H1 H2].
  unfold dir_update; split; [congruence|].
  intros d Hd; rewrite H2.
  assert (existsb (Nat.eqb d) (seq 0 NUM_DIRECTIONS) = true) as ->.
  { apply existsb_exists; exists d; split; [apply in_seq; lia|apply Nat.eqb_refl]. }
  reflexivity.
Qed.

Definition eng_of (r : Engine * list input_event * bool * bool) : Engine :=
  fst (fst (fst r)).

(** Presses of non-control keys, drained by an active engine with control
    released, set exactly the matching direction flags. *)
Lemma drain_presses (ps : list input_event) :
  Forall (fun e => is_press e /\ is_ctrl_key (ev_code e) = false) ps ->
  forall st dirty,
  g_ctrl_held st = false -> g_suspended st = false ->
  length (g_dir_held st) = NUM_DIRECTIONS ->
  let st' := eng_of (drain_loop st dirty ps) in
  g_map st' = g_map st /\ g_ctrl_held st' = false /\ g_suspended st' = false /\
  length (g_dir_held st') = NUM_DIRECTIONS /\
  forall d, (d < NUM_DIRECTIONS)%nat ->
    nth d (g_dir_held st') false =
    nth d (g_dir_held st) false
    || existsb (fun e => ev_code e =? keycode (map_at (g_map st) d)) ps.
Proof.
  induction 1 as [|e ps [[Ht Hv] Hc] Hall IH]; intros st dirty Hctrl Hsus Hlen; cbv zeta.
  - simpl; repeat split; auto; intros d _; rewrite orb_false_r; reflexivity.
  - cbn [drain_loop].
    rewrite Ht, Hv; cbn -[dir_update button_events].
    unfold is_ctrl_key in Hc; rewrite Hc, Hctrl, Hsus, !andb_false_r.
    destruct (dir_update (g_map st) (ev_code e) true (g_dir_held st) dirty) as [h' dirty'] eqn:Hdu.
    destruct (drain_loop (with_held st h') dirty' ps) as [[[st' out] dd] brk] eqn:Hdl.
    destruct (dir_update_spec (g_map st) (ev_code e) true (g_dir_held st) dirty Hlen) as [Hl1 Hn1].
    rewrite Hdu in Hl1, Hn1; simpl in Hl1, Hn1.
    destruct (IH (with_held st h') dirty' Hctrl Hsus Hl1) as [Hm [Hc' [Hs' [Hl' Hn']]]].
    unfold eng_of in *; rewrite Hdl in Hm, Hc', Hs', Hl', Hn'; simpl in *.
    repeat split; auto.
    intros d Hd; rewrite Hn' by exact Hd; simpl.
    rewrite Hn1 by exact Hd.
    destruct (ev_code e =? keycode (map_at (g_map st) d)), (nth d (g_dir_held st) false); reflexivity.
Qed.

Lemma existsb_perm {A} (f : A -> bool) (l l' : list A) :
  Permutation l l' -> existsb f l = existsb f l'.
Proof. induction 1; simpl; try congruence; destruct (f x), (f y); reflexivity. Qed.

(** C1: for every set [S] of held direction slots, the recomputed axes are
    0 / 255 / 127 according to the sign of the clamped sum of the held
    slots' vectors; and the held flags, hence the emitted axes, after a
    burst of direction key presses do not depend on the order of the
    presses. *)
Theorem recalc_axes_by_held_set (tbl : list Mapping) (S : list nat) (st : Engine)
    (ps ps' : list input_event) :
  NoDup S -> Forall (fun d => (d < NUM_DIRECTIONS)%nat) S ->
  Forall (fun e => is_press e /\ is_ctrl_key (ev_code e) = false) ps ->
  Permutation ps ps' ->
  g_ctrl_held st = false -> g_suspended st = false ->
  length (g_dir_held st) = NUM_DIRECTIONS ->
  recalc_and_emit_axes tbl (held_of S) =
    [mkEv EV_ABS ABS_X (spec_axis S (fun d => dx (map_at tbl d)));
     mkEv EV_ABS ABS_Y (spec_axis S (fun d => dy (map_at tbl d)));
     emit_syn]
  /\ (let s1 := eng_of (drain_loop st false ps) in
      let s2 := eng_of (drain_loop st false ps') in
      g_dir_held s1 = g_dir_held s2 /\
      recalc_and_emit_axes (g_map s1) (g_dir_held s1) =
      recalc_and_emit_axes (g_map s2) (g_dir_held s2)).
Proof.
  intros Hnd Hlt Hps Hperm Hc Hs Hl.
  split.
  - unfold recalc_and_emit_axes; rewrite axes_of_held_of by assumption; reflexivity.
  - assert (Hps' : Forall (fun e => is_press e /\ is_ctrl_key (ev_code e) = false) ps')
      by (eapply Permutation_Forall; eassumption).
    destruct (drain_presses ps Hps st false Hc Hs Hl) as [Hm1 [_ [_ [Hl1 Hn1]]]].
    destruct (drain_presses ps' Hps' st false Hc Hs Hl) as [Hm2 [_ [_ [Hl2 Hn2]]]].
    cbv zeta.
    assert (Heq : g_dir_held (eng_of (drain_loop st false ps)) =
                  g_dir_held (eng_of (drain_loop st false ps'))).
    { apply nth_ext with (d := false) (d' := false); [congruence|].
      intros d Hd; rewrite Hl1 in Hd.
      rewrite Hn1, Hn2 by exact Hd.
      rewrite (existsb_perm _ _ _ Hperm); reflexivity. }
    split; [exact Heq|]; rewrite Heq, Hm1, Hm2; reflexivity.
Qed.

(** ** Button reports and the per-iteration axis report (C2, C3) *)

Lemma dir_update_dirty (tbl : list Mapping) code p (ds : list nat) :
  forall (h : list bool) dt,
  snd (fold_left (dir_step tbl code p) ds (h, dt)) =
  dt || existsb (fun d => (code =? keycode (map_at tbl d)) && negb (Bool.eqb (nth d h false) p)) ds.
Proof.
  induction ds as [|d0 ds IH]; intros h dt; simpl.
  - rewrite orb_false_r; reflexivity.
  - destruct (code =? keycode (map_at tbl d0)); simpl.
    + destruct (Bool.eqb (nth d0 h false) p); simpl; rewrite IH.
      * reflexivity.
      * rewrite !orb_true_r; reflexivity.
    + apply IH.
Qed.

Lemma button_events_no_abs (tbl : list Mapping) code p :
  no_abs (button_events tbl code p).
Proof.
  unfold no_abs, button_events; apply Forall_forall; intros e He.
  apply in_flat_map in He as [b [_ Hb]].
  destruct (code =? keycode (map_at tbl b)); [|contradiction].
  simpl in Hb; unfold EV_MSC, EV_KEY, EV_SYN, EV_ABS in *.
  destruct Hb as [<-|[<-|[<-|[]]]]; simpl; discriminate.
Qed.

Lemma no_abs_app l l' : no_abs l -> no_abs l' -> no_abs (l ++ l').
Proof. unfold no_abs; intros; apply Forall_app; auto. Qed.

Lemma count_x_no_abs l : no_abs l -> count_x_reports l = 0%nat.
Proof.
  unfold no_abs, count_x_reports; induction 1 as [|e l He _ IH]; simpl; auto.
  destruct (Z.eqb_spec (ev_type e) EV_ABS); [contradiction|exact IH].
Qed.

Lemma count_x_app l l' : count_x_reports (l ++ l') = (count_x_reports l + count_x_reports l')%nat.
Proof. unfold count_x_reports; rewrite filter_app, length_app; reflexivity. Qed.

Lemma dir_update_fst (tbl : list Mapping) code p (ds : list nat) :
  forall (h : list bool) dt dt',
  fst (fold_left (dir_step tbl code p) ds (h, dt)) =
  fst (fold_left (dir_step tbl code p) ds (h, dt')).
Proof.
  induction ds as [|d0 ds IH]; intros h dt dt'; simpl; [reflexivity|].
  destruct (code =? keycode (map_at tbl d0)); [destruct (negb _)|]; auto.
Qed.

(** One drained transition of a non-control key that is not a chord press,
    on an active engine: the direction loop updates the held flags and the
    button reports are emitted at once, before the rest of the drain. *)
Lemma drain_translate_step (st : Engine) dirty (ev : input_event) rest :
  g_suspended st = false -> ev_type ev = EV_KEY -> ev_value ev <> 2 ->
  is_ctrl_key (ev_code ev) = false ->
  ((ev_code ev =? KEY_S) || (ev_code ev =? KEY_R)) && (ev_value ev =? 1) && g_ctrl_held st = false ->
  drain_loop st dirty (ev :: rest) =
  let '(h', d') := dir_update (g_map st) (ev_code ev) (ev_value ev =? 1) (g_dir_held st) dirty in
  let '(st', out, d, brk) := drain_loop (with_held st h') d' rest in
  (st', button_events (g_map st) (ev_code ev) (ev_value ev =? 1) ++ out, d, brk).
Proof.
  intros Hs Ht Hv Hc Hch.
  cbn [drain_loop]; rewrite Ht, Z.eqb_refl; simpl negb; cbv iota.
  destruct (Z.eqb_spec (ev_value ev) 2) as [|_]; [contradiction|].
  unfold is_ctrl_key in Hc; rewrite Hc.
  destruct (ev_code ev =? KEY_S), (ev_code ev =? KEY_R), (ev_value ev =? 1), (g_ctrl_held st);
    simpl in Hch; try discriminate; simpl; rewrite Hs; reflexivity.
Qed.

(** An active engine draining a chord-free sequence: no remap request, no
    axis event, and [axis_dirty] raised exactly when a flag changes. *)
Lemma drain_chord_free (evs : list input_event) :
  forall st dirty,
  g_suspended st = false -> no_chord (g_ctrl_held st) evs = true ->
  let '(st', out, d, brk) := drain_loop st dirty evs in
  brk = false /\ g_suspended st' = false /\ g_map st' = g_map st /\
  d = dirty || some_flag_changes st evs /\ no_abs out.
Proof.
  induction evs as [|ev rest IH]; intros st dirty Hs Hnc.
  - simpl; repeat split; auto; [rewrite orb_false_r; reflexivity|constructor].
  - cbn [no_chord] in Hnc.
    destruct (Z.eqb_spec (ev_type ev) EV_KEY) as [Ht|Ht].
    2:{ cbn [drain_loop some_flag_changes].
        destruct (Z.eqb_spec (ev_type ev) EV_KEY); [contradiction|].
        simpl negb; cbv iota; apply IH; assumption. }
    simpl negb in Hnc; cbv iota in Hnc.
    destruct (Z.eqb_spec (ev_value ev) 2) as [Hv|Hv].
    { cbn [drain_loop some_flag_changes]; rewrite Ht, Hv; simpl; apply IH; assumption. }
    destruct (is_ctrl_key (ev_code ev)) eqn:Hc.
    { cbn [drain_loop some_flag_changes]; rewrite Ht, Z.eqb_refl.
      destruct (Z.eqb_spec (ev_value ev) 2); [contradiction|]; simpl negb; cbv iota.
      rewrite Hc; unfold is_ctrl_key in Hc; rewrite Hc; exact (IH (with_ctrl st (ev_value ev =? 1)) _ Hs Hnc). }
    destruct (((ev_code ev =? KEY_S) || (ev_code ev =? KEY_R)) && (ev_value ev =? 1)
              && g_ctrl_held st) eqn:Hch; [discriminate|].
    rewrite (drain_translate_step st dirty ev rest Hs Ht Hv Hc Hch).
    cbn [some_flag_changes]; rewrite Ht, Z.eqb_refl.
    destruct (Z.eqb_spec (ev_value ev) 2); [contradiction|]; simpl negb; cbv iota.
    rewrite Hc.
    set (p := ev_value ev =? 1) in *.
    destruct (dir_update (g_map st) (ev_code ev) p (g_dir_held st) dirty) as [h' d'] eqn:Hdu.
    assert (Hh : fst (dir_update (g_map st) (ev_code ev) p (g_dir_held st) false) = h').
    { unfold dir_update in *; rewrite (dir_update_fst _ _ _ _ _ false dirty), Hdu; reflexivity. }
    assert (Hd : d' = dirty || changes_a_flag (g_map st) (ev_code ev) p (g_dir_held st)).
    { pose proof (dir_update_dirty (g_map st) (ev_code ev) p (seq 0 NUM_DIRECTIONS) (g_dir_held st) dirty) as E.
      unfold dir_update in Hdu; rewrite Hdu in E; exact E. }
    rewrite Hh.
    specialize (IH (with_held st h') d' Hs Hnc).
    destruct (drain_loop (with_held st h') d' rest) as [[[st' out] dd] brk].
    destruct IH as [Hb [Hs' [Hm [Hdd Hna]]]].
    repeat split; auto.
    + rewrite Hdd, Hd, orb_assoc; reflexivity.
    + apply no_abs_app; [apply button_events_no_abs|exact Hna].
Qed.

Lemma button_events_slots (tbl : list Mapping) code p :
  length tbl = NUM_MAPPINGS ->
  button_events tbl code p =
  flat_map (fun m => if code =? keycode m then button_report m p else []) (skipn NUM_DIRECTIONS tbl).
Proof.
  intros Hl; unfold NUM_MAPPINGS in Hl.
  do 16 (destruct tbl as [|? tbl]; [discriminate|]).
  destruct tbl; [|discriminate]; reflexivity.
Qed.

Lemma count_x_recalc (tbl : list Mapping) (held : list bool) :
  count_x_reports (recalc_and_emit_axes tbl held) = 1%nat.
Proof. unfold recalc_and_emit_axes; destruct (axes_of tbl held); reflexivity. Qed.

(** C2 (as corrected): a drained transition of a key that is neither a
    control key nor the S or R key pressed with control held, on the active
    engine, emits at once, for each button slot bound to that key and in
    slot order, one scan-code hint, one button report with the slot's
    button code and the pressed state, and one flush; what is emitted does
    not depend on the held-direction flags or on [axis_dirty]. *)
Theorem button_transition_reports (st : Engine) (dirty : bool) (ev : input_event)
    (rest : list input_event) :
  g_suspended st = false -> ev_type ev = EV_KEY -> ev_value ev <> 2 ->
  is_ctrl_key (ev_code ev) = false ->
  ((ev_code ev =? KEY_S) || (ev_code ev =? KEY_R)) && (ev_value ev =? 1) && g_ctrl_held st = false ->
  length (g_map st) = NUM_MAPPINGS ->
  exists out_rest,
    snd (fst (fst (drain_loop st dirty (ev :: rest)))) =
    flat_map (fun m => if ev_code ev =? keycode m then button_report m (ev_value ev =? 1) else [])
             (skipn NUM_DIRECTIONS (g_map st))
    ++ out_rest.
Proof.
  intros Hs Ht Hv Hc Hch Hl.
  rewrite (drain_translate_step st dirty ev rest Hs Ht Hv Hc Hch).
  destruct (dir_update _ _ _ _ _) as [h' d'].
  destruct (drain_loop (with_held st h') d' rest) as [[[st' out] dd] brk].
  exists out; simpl; rewrite button_events_slots by exact Hl; reflexivity.
Qed.

(** C3 (as corrected): in a poll iteration of the active engine with no
    press of the Ctrl+S or Ctrl+R chord, nothing before the end of the
    iteration touches the axes, and the iteration ends with exactly one
    axis report (X, Y, flush) when some transition changed a held-direction
    flag and with none otherwise. *)
Theorem axis_report_once_per_iteration (st : Engine) (evs : list input_event) :
  g_suspended st = false -> no_chord (g_ctrl_held st) evs = true ->
  let '(st', out, remap) := poll_iteration st evs in
  remap = false /\
  (exists pre, no_abs pre /\
     out = pre ++ (if some_flag_changes st evs
                   then recalc_and_emit_axes (g_map st') (g_dir_held st') else [])) /\
  count_x_reports out = (if some_flag_changes st evs then 1 else 0)%nat.
Proof.
  intros Hs Hnc.
  pose proof (drain_chord_free evs st false Hs Hnc) as H.
  unfold poll_iteration.
  destruct (drain_loop st false evs) as [[[st' out] d] brk].
  destruct H as [-> [_ [_ [Hd Hna]]]]; simpl in Hd; subst d.
  split; [reflexivity|]; split.
  - exists out; split; [exact Hna|reflexivity].
  - rewrite count_x_app, (count_x_no_abs out Hna).
    destruct (some_flag_changes st evs); simpl; [apply count_x_recalc|reflexivity].
Qed.

(** ** The pause chord (C4) *)

(** A paused engine draining a chord-free sequence emits nothing and keeps
    its mapping, held flags and paused state; only the control flag moves. *)
Lemma drain_paused_quiet (evs : list input_event) :
  forall st dirty,
  g_suspended st = true -> no_chord (g_ctrl_held st) evs = true ->
  exists c, drain_loop st dirty evs = (with_ctrl st c, [], dirty, false).
Proof.
  induction evs as [|ev rest IH]; intros st dirty Hs Hnc.
  - exists (g_ctrl_held st); destruct st; reflexivity.
  - cbn [no_chord] in Hnc; cbn [drain_loop].
    destruct (negb (ev_type ev =? EV_KEY)); [apply IH; assumption|].
    destruct (ev_value ev =? 2); [apply IH; assumption|].
    unfold is_ctrl_key in Hnc.
    destruct ((ev_code ev =? KEY_LEFTCTRL) || (ev_code ev =? KEY_RIGHTCTRL)).
    { destruct (IH (with_ctrl st (ev_value ev =? 1)) dirty Hs Hnc) as [c Hc].
      exists c; rewrite Hc; destruct st; reflexivity. }
    destruct (ev_code ev =? KEY_S), (ev_code ev =? KEY_R), (ev_value ev =? 1),
      (g_ctrl_held st) eqn:Hctl;
      simpl in Hnc |- *; try discriminate; rewrite Hs;
      (apply IH; [exact Hs|rewrite Hctl; exact Hnc]).
Qed.

(** C4 (as corrected): on the active engine with control held, a press of
    S releases the 8 buttons, centers both axes and flushes, clears all 8
    held-direction flags and pauses.  A poll iteration of the paused engine
    with no chord press emits nothing and leaves it paused with the same
    mapping and held flags.  The pause ends only on a chord press: Ctrl+S
    resumes; Ctrl+R also clears the paused state and requests a remap
    session. *)
Theorem pause_chord_behaviour (st : Engine) (dirty : bool) (rest : list input_event) :
  g_suspended st = false -> g_ctrl_held st = true ->
  drain_loop st dirty (press KEY_S :: rest) =
    (let '(st', out, d, brk) :=
       drain_loop (mkEngine (g_map st) all_released true true) dirty rest in
     (st', release_and_center (g_map st) ++ out, d, brk))
  /\ release_and_center (g_map st) =
       map (fun b => mkEv EV_KEY (btn_code (map_at (g_map st) b)) 0) (seq 8 8)
       ++ [mkEv EV_ABS ABS_X 127; mkEv EV_ABS ABS_Y 127; emit_syn]
  /\ all_released = [false; false; false; false; false; false; false; false]
  /\ (forall (ps : Engine) (evs : list input_event),
        g_suspended ps = true -> no_chord (g_ctrl_held ps) evs = true ->
        exists c, poll_iteration ps evs = (with_ctrl ps c, [], false))
  /\ (forall ps : Engine, g_suspended ps = true -> g_ctrl_held ps = true ->
        drain_loop ps dirty (press KEY_S :: rest) =
          (mkEngine (g_map ps) (g_dir_held ps) false false, [], dirty, false) /\
        drain_loop ps dirty (press KEY_R :: rest) =
          (mkEngine (g_map ps) (g_dir_held ps) true false, [], dirty, true)).
Proof.
  intros Hs Hc.
  split; [|split; [reflexivity|split; [reflexivity|split]]].
  - destruct st as [m h c s]; simpl in Hs, Hc; subst.
    cbn -[release_and_center all_released]; reflexivity.
  - intros ps evs Hps Hnc.
    destruct (drain_paused_quiet evs ps false Hps Hnc) as [c Hd].
    exists c; unfold poll_iteration; rewrite Hd; reflexivity.
  - intros ps Hps Hpc; destruct ps as [m h c s]; simpl in Hps, Hpc; subst.
    split; reflexivity.
Qed.

(** ** Remap session rollback (C5) *)

(** C5: when the wizard's exit status is non-zero, the remap session leaves
    [g_map] equal to the snapshot taken before it, whatever table the wizard
    left behind; in particular every slot's key code is restored. *)
Theorem remap_failure_restores_snapshot (wiz : Wizard) (st : Engine) :
  fst (wiz (g_map st)) <> 0 ->
  g_map (fst (remap_session wiz st)) = g_map st /\
  forall i, keycode (map_at (g_map (fst (remap_session wiz st))) i) = keycode (map_at (g_map st) i).
Proof.
  intros Hr.
  assert (H : g_map (fst (remap_session wiz st)) = g_map st).
  { unfold remap_session, suspend_translation; simpl.
    destruct (wiz (g_map st)) as [r m] eqn:Hw; simpl in Hr |- *.
    destruct (Z.eqb_spec r 0); [contradiction|reflexivity]. }
  split; [exact H|]; intros i; rewrite H; reflexivity.
Qed.

(** ** Command-line overrides (C6) *)

Lemma find_slot_from_nth (tbl : list Mapping) :
  NoDup (map cli_name tbl) ->
  forall k i, (i < length tbl)%nat ->
  find_slot_from tbl k (cli_name (map_at tbl i)) = Some (k + i)%nat.
Proof.
  unfold map_at; induction tbl as [|x tbl IH]; intros Hnd k i Hi; simpl in Hi; [lia|].
  inversion Hnd as [|? ? Hnin Hnd']; subst.
  destruct i as [|i]; simpl.
  - rewrite String.eqb_refl; f_equal; lia.
  - destruct (String.eqb_spec (cli_name (nth i tbl dummy_mapping)) (cli_name x)) as [He|_].
    + exfalso; apply Hnin; rewrite <- He; apply in_map, nth_In; lia.
    + rewrite (IH Hnd' (S k) i) by lia; f_equal; lia.
Qed.

Lemma length_set_slot_keycode (tbl : list Mapping) i kc :
  length (set_slot_keycode tbl i kc) = length tbl.
Proof. revert i; induction tbl; intros [|i]; simpl; auto. Qed.

Lemma map_at_set_slot_keycode (tbl : list Mapping) i kc j :
  (i < length tbl)%nat ->
  map_at (set_slot_keycode tbl i kc) j =
  if Nat.eqb j i then set_keycode (map_at tbl j) kc else map_at tbl j.
Proof.
  unfold map_at; revert i j; induction tbl as [|x tbl IH]; intros i j Hi; simpl in Hi; [lia|].
  destruct i as [|i], j as [|j]; simpl; auto.
  apply IH; lia.
Qed.

(** C6: on a table whose flag names are distinct and none of [--help],
    [-h], [--guimap], the arguments [<flag of slot i> <valid key name>]
    parse successfully and change only slot [i]'s current key code: every
    other field of slot [i] and every field of every other slot is kept. *)
Theorem parse_args_override_only_keycode (tbl : list Mapping) (i : nat) (name : string) :
  (i < length tbl)%nat -> NoDup (map cli_name tbl) ->
  ~ In (cli_name (map_at tbl i)) ["--help"; "-h"; "--guimap"] ->
  0 <= parse_keyname name ->
  let '(r, tbl', help, guimap) := parse_args tbl [cli_name (map_at tbl i); name] in
  r = 0 /\ help = false /\ guimap = false /\ length tbl' = length tbl /\
  forall j,
    cli_name (map_at tbl' j) = cli_name (map_at tbl j) /\
    label (map_at tbl' j) = label (map_at tbl j) /\
    default_key (map_at tbl' j) = default_key (map_at tbl j) /\
    btn_code (map_at tbl' j) = btn_code (map_at tbl j) /\
    dx (map_at tbl' j) = dx (map_at tbl j) /\
    dy (map_at tbl' j) = dy (map_at tbl j) /\
    keycode (map_at tbl' j) = if Nat.eqb j i then parse_keyname name else keycode (map_at tbl j).
Proof.
  intros Hi Hnd Hsp Hk.
  unfold parse_args; cbn [parse_args_loop].
  destruct (String.eqb_spec (cli_name (map_at tbl i)) "--help");
    [exfalso; apply Hsp; left; congruence|].
  destruct (String.eqb_spec (cli_name (map_at tbl i)) "-h");
    [exfalso; apply Hsp; right; left; congruence|].
  destruct (String.eqb_spec (cli_name (map_at tbl i)) "--guimap");
    [exfalso; apply Hsp; right; right; left; congruence|].
  simpl orb; cbv iota.
  unfold find_slot; rewrite (find_slot_from_nth tbl Hnd 0 i Hi); simpl plus.
  destruct (Z.ltb_spec (parse_keyname name) 0); [lia|].
  cbn [parse_args_loop].
  repeat split; try reflexivity; [apply length_set_slot_keycode| | | | | | |];
    rewrite map_at_set_slot_keycode by exact Hi;
    destruct (Nat.eqb j i); reflexivity.
Qed.

(** ** Modifier keys (C7) *)

(** C7 (as corrected): only the two control keys are modifiers.  A
    transition of left or right control, paused or not and whatever the
    table binds, only sets the held-control flag to the pressed state:
    nothing is emitted, the held-direction flags, the mapping and the
    paused state are unchanged, and the drain goes on with the next event.
    No other code is a control key; in particular a transition of a shift
    or alt key on the active engine is matched against the slots like any
    other key (the direction flags are updated and the button reports of
    its slots emitted), and in the default table left alt is the right-fire
    button [BTN_THUMB]. *)
Theorem ctrl_transition_only_sets_flag :
  (forall (st : Engine) (dirty : bool) (ev : input_event) (rest : list input_event),
     ev_type ev = EV_KEY -> ev_value ev <> 2 -> is_ctrl_key (ev_code ev) = true ->
     drain_loop st dirty (ev :: rest) = drain_loop (with_ctrl st (ev_value ev =? 1)) dirty rest)
  /\ (forall k, is_ctrl_key k = true <-> k = KEY_LEFTCTRL \/ k = KEY_RIGHTCTRL)
  /\ (forall (st : Engine) (dirty : bool) (ev : input_event) (rest : list input_event),
     g_suspended st = false -> ev_type ev = EV_KEY -> ev_value ev <> 2 ->
     In (ev_code ev) [KEY_LEFTSHIFT; KEY_RIGHTSHIFT; KEY_LEFTALT; KEY_RIGHTALT] ->
     drain_loop st dirty (ev :: rest) =
     let '(h', d') := dir_update (g_map st) (ev_code ev) (ev_value ev =? 1) (g_dir_held st) dirty in
     let '(st', out, d, brk) := drain_loop (with_held st h') d' rest in
     (st', button_events (g_map st) (ev_code ev) (ev_value ev =? 1) ++ out, d, brk))
  /\ (forall p, button_events init_mappings KEY_LEFTALT p = button_report (map_at init_mappings 9) p)
  /\ btn_code (map_at init_mappings 9) = BTN_THUMB.
Proof.
  refine (conj _ (conj _ (conj _ (conj _ eq_refl)))).
  - intros st dirty ev rest Ht Hv Hc; cbn [drain_loop]; rewrite Ht, Z.eqb_refl; simpl negb; cbv iota.
    destruct (Z.eqb_spec (ev_value ev) 2); [contradiction|].
    unfold is_ctrl_key in Hc; rewrite Hc; reflexivity.
  - intros k; unfold is_ctrl_key; rewrite orb_true_iff, !Z.eqb_eq; reflexivity.
  - intros st dirty ev rest Hs Ht Hv Hin.
    apply drain_translate_step; try assumption.
    + cbn [In] in Hin; unfold is_ctrl_key.
      repeat destruct Hin as [<- | Hin]; try contradiction; reflexivity.
    + cbn [In] in Hin.
      repeat destruct Hin as [<- | Hin]; try contradiction; reflexivity.
  - intros []; reflexivity.
Qed.

(** ** The exported script (C8, C10) *)

Lemma str_app_assoc (a b c : string) : ((a ++ b) ++ c = a ++ b ++ c)%string.
Proof. induction a as [|x a IH]; simpl; [reflexivity|rewrite IH; reflexivity]. Qed.

Lemma str_app_nil_l (a : string) : ("" ++ a)%string = a.
Proof. reflexivity. Qed.

Lemma str_app_nil_r (a : string) : (a ++ "")%string = a.
Proof. induction a as [|x a IH]; simpl; [reflexivity|rewrite IH; reflexivity]. Qed.

Lemma lines_from_app (a : string) :
  no_newline a = true -> forall cur s, lines_from cur (a ++ s) = lines_from (cur ++ a) s.
Proof.
  induction a as [|c a IH]; intros Hn cur s; simpl in *.
  - rewrite str_app_nil_r; reflexivity.
  - apply andb_prop in Hn as [Hc Ha].
    destruct (Ascii.eqb c "010"); [discriminate|].
    rewrite IH by exact Ha; rewrite str_app_assoc; reflexivity.
Qed.


Lemma lines_from_nl (cur s : string) : lines_from cur (nl ++ s) = cur :: lines_from "" s.
Proof. reflexivity. Qed.

Lemma no_newline_app a b : no_newline (a ++ b) = no_newline a && no_newline b.
Proof. induction a as [|c a IH]; simpl; [reflexivity|rewrite IH, andb_assoc; reflexivity]. Qed.

Lemma keycode_to_name_no_newline (code : Z) : no_newline (keycode_to_name code) = true.
Proof.
  assert (Ht : Forall (fun p => no_newline (snd p) = true) key_names) by (repeat constructor).
  unfold keycode_to_name; induction Ht as [|[c n] tbl Hn _ IH]; simpl; [reflexivity|].
  destruct (c =? code); [exact Hn|exact IH].
Qed.

Lemma lines_options (l : list Mapping) :
  Forall (fun m => no_newline (cli_name m) = true) l ->
  forall cur, no_newline cur = true ->
  lines_from "" (cur ++ concat_str (map script_option l) ++ nl) = option_lines cur l.
Proof.
  induction 1 as [|m l Hm Hl IH]; intros cur Hc; cbn [map concat_str option_lines].
  - rewrite lines_from_app by exact Hc; reflexivity.
  - rewrite lines_from_app by exact Hc; rewrite str_app_nil_l.
    change (script_option m) with
      (" \" ++ nl ++ "  " ++ cli_name m ++ " " ++ keycode_to_name (keycode m))%string.
    rewrite !str_app_assoc.
    rewrite (lines_from_app " \" eq_refl), lines_from_nl.
    f_equal.
    set (entry := ("  " ++ cli_name m ++ " " ++ keycode_to_name (keycode m))%string).
    replace ("  " ++ cli_name m ++ " " ++ keycode_to_name (keycode m)
               ++ concat_str (map script_option l) ++ nl)%string
      with (entry ++ concat_str (map script_option l) ++ nl)%string
      by (unfold entry; rewrite !str_app_assoc; reflexivity).
    apply IH.
    unfold entry; rewrite !no_newline_app, Hm, keycode_to_name_no_newline; reflexivity.
Qed.

Lemma script_lines (tbl : list Mapping) :
  length tbl = NUM_MAPPINGS ->
  Forall (fun m => no_newline (cli_name m) = true) tbl ->
  lines (script_text tbl) = expected_script_lines tbl.
Proof.
  intros Hl Hn.
  unfold lines, script_text, script_header.
  rewrite firstn_all2 by lia.
  rewrite !str_app_assoc.
  rewrite (lines_from_app "#!/bin/sh" eq_refl), lines_from_nl.
  rewrite (lines_options tbl Hn "exec ./keyboard2thejoystick" eq_refl).
  unfold NUM_MAPPINGS in Hl.
  do 16 (destruct tbl as [|? tbl]; [discriminate|]).
  destruct tbl; [|discriminate].
  unfold expected_script_lines, map_at; simpl.
  rewrite !str_app_assoc, !str_app_nil_r; reflexivity.
Qed.

Lemma expected_script_lines_nth (tbl : list Mapping) (i : nat) :
  (i < NUM_MAPPINGS)%nat ->
  nth (i + 2) (expected_script_lines tbl) ""
  = ("  " ++ cli_name (map_at tbl i) ++ " " ++ keycode_to_name (keycode (map_at tbl i))
     ++ (if (i <? 15)%nat then " \" else ""))%string.
Proof.
  unfold NUM_MAPPINGS; intros Hi.
  do 16 (destruct i as [|i]; [reflexivity|]); lia.
Qed.

(** C8: when the script file can be opened, [guimap_save_script] writes
    the text [script_text] at [script_path b_path] with mode 0755 (493),
    records the path as saved, and the text splits into 18 lines: the
    shebang line, the line running the program, then one line per slot
    [i < 16] holding slot [i]'s flag name and the key name of its current
    key code, every such line but the last ending in a continuation
    backslash. *)
Theorem export_script_layout (can_open : string -> bool) (fs : FS) (b_path : string)
    (tbl : list Mapping) :
  length tbl = NUM_MAPPINGS ->
  Forall (fun m => no_newline (cli_name m) = true) tbl ->
  can_open (script_path b_path) = true ->
  let '(fs', saved) := guimap_save_script can_open fs b_path tbl in
  saved = Some (script_path b_path)
  /\ fs' (script_path b_path) = Some (script_text tbl, 493)
  /\ length (lines (script_text tbl)) = 18%nat
  /\ nth 0 (lines (script_text tbl)) "" = "#!/bin/sh"
  /\ nth 1 (lines (script_text tbl)) "" = "exec ./keyboard2thejoystick \"
  /\ (forall i, (i < NUM_MAPPINGS)%nat ->
        nth (i + 2) (lines (script_text tbl)) ""
        = ("  " ++ cli_name (map_at tbl i) ++ " "
           ++ keycode_to_name (keycode (map_at tbl i))
           ++ (if (i <? 15)%nat then " \" else ""))%string).
Proof.
  intros Hl Hn Ho.
  unfold guimap_save_script; rewrite Ho.
  rewrite (script_lines tbl Hl Hn).
  split; [reflexivity|].
  split; [unfold fs_write; rewrite String.eqb_refl; reflexivity|].
  split; [reflexivity|].
  split; [reflexivity|].
  split; [reflexivity|].
  exact (expected_script_lines_nth tbl).
Qed.

Lemma keycode_to_name_in_cases (tbl : list (Z * string)) (c : Z) :
  keycode_to_name_in tbl c = "?" \/ In (c, keycode_to_name_in tbl c) tbl.
Proof.
  induction tbl as [|[k n] tbl IH]; simpl; [left; reflexivity|].
  destruct (Z.eqb_spec k c) as [->|_]; [right; left; reflexivity|].
  destruct IH as [IH|IH]; [left; exact IH|right; right; exact IH].
Qed.

Lemma keycode_to_name_in_absent (tbl : list (Z * string)) (c : Z) :
  ~ In c (map fst tbl) -> keycode_to_name_in tbl c = "?".
Proof.
  induction tbl as [|[k n] tbl IH]; simpl; intros Hn; [reflexivity|].
  destruct (Z.eqb_spec k c) as [->|_]; [exfalso; apply Hn; left; reflexivity|].
  apply IH; intros H; apply Hn; right; exact H.
Qed.

(** C10: [keycode_to_name] is total: every code resolves to a name of
    the table or to the placeholder "?", and a code absent from the table
    resolves to "?".  [parse_keyname] rejects "?" (returns -1), and in the
    exported script the line of a slot whose key code is absent from the
    table carries "?" as its key name. *)
Theorem keycode_to_name_placeholder (code : Z) (tbl : list Mapping) (i : nat) :
  ~ In code (map fst key_names) ->
  length tbl = NUM_MAPPINGS ->
  Forall (fun m => no_newline (cli_name m) = true) tbl ->
  (i < NUM_MAPPINGS)%nat ->
  keycode (map_at tbl i) = code ->
  (forall c, keycode_to_name c = "?" \/ In (c, keycode_to_name c) key_names)
  /\ keycode_to_name code = "?"
  /\ parse_keyname "?" = -1
  /\ nth (i + 2) (lines (script_text tbl)) ""
     = ("  " ++ cli_name (map_at tbl i) ++ " ?"
        ++ (if (i <? 15)%nat then " \" else ""))%string.
Proof.
  intros Hc Hl Hn Hi Hk.
  assert (Hq : keycode_to_name code = "?") by exact (keycode_to_name_in_absent _ _ Hc).
  split; [intros c; exact (keycode_to_name_in_cases key_names c)|].
  split; [exact Hq|].
  split; [vm_compute; reflexivity|].
  rewrite (script_lines tbl Hl Hn), (expected_script_lines_nth tbl i Hi), Hk, Hq.
  reflexivity.
Qed.

(** ** Drawing primitives stay inside the back buffer (C9) *)

Section Clipping.

Variable fb : Framebuffer.
Hypothesis Hw : 0 <= fb_width fb <= fb_stride_px fb.
Hypothesis Hh : 0 <= fb_height fb.
Hypothesis Hs : 4 * (fb_stride_px fb * fb_height fb) <= fb_size fb.

Lemma Forall_flat_map_in {A B} (P : B -> Prop) (f : A -> list B) (l : list A) :
  (forall a, Forall P (f a)) -> Forall P (flat_map f l).
Proof.
  intros Hf; induction l as [|a l IH]; simpl; [constructor|].
  apply Forall_app; split; [apply Hf|exact IH].
Qed.

Lemma draw_pixel_in (x y c : Z) : Forall (in_backbuf fb) (draw_pixel fb x y c).
Proof.
  unfold draw_pixel.
  destruct (Z.leb_spec 0 x), (Z.ltb_spec x (fb_width fb)),
           (Z.leb_spec 0 y), (Z.ltb_spec y (fb_height fb)); simpl;
    try solve [constructor].
  constructor; [|constructor].
  assert (Hm : (y + 1) * fb_stride_px fb <= fb_height fb * fb_stride_px fb)
    by (apply Z.mul_le_mono_nonneg_r; lia).
  assert (Hp : 0 <= y * fb_stride_px fb) by (apply Z.mul_nonneg_nonneg; lia).
  rewrite Z.mul_add_distr_r, Z.mul_1_l, (Z.mul_comm (fb_height fb)) in Hm.
  unfold in_backbuf; cbn [fst]; split; lia.
Qed.

Lemma draw_rect_in (x y w h c : Z) : Forall (in_backbuf fb) (draw_rect fb x y w h c).
Proof.
  apply Forall_flat_map_in; intros row.
  apply Forall_flat_map_in; intros col.
  apply draw_pixel_in.
Qed.

Lemma draw_circle_in (cx cy r c : Z) : Forall (in_backbuf fb) (draw_circle fb cx cy r c).
Proof. apply Forall_flat_map_in; intros dy; apply draw_rect_in. Qed.

Lemma draw_rounded_rect_in (x y w h r c : Z) :
  Forall (in_backbuf fb) (draw_rounded_rect fb x y w h r c).
Proof.
  unfold draw_rounded_rect; destruct (r <? 1); [apply draw_rect_in|].
  repeat first [apply draw_rect_in | apply Forall_app; split].
  apply Forall_flat_map_in; intros dy.
  repeat first [apply draw_rect_in | apply Forall_app; split].
Qed.

Lemma draw_triangle_filled_in (x0 y0 x1 y1 x2 y2 c : Z) :
  Forall (in_backbuf fb) (draw_triangle_filled fb x0 y0 x1 y1 x2 y2 c).
Proof.
  unfold draw_triangle_filled.
  destruct (sort_by_y (x0, y0) (x1, y1) (x2, y2)) as [[[a0 b0] [a1 b1]] [a2 b2]].
  apply Forall_flat_map_in; intros y.
  destruct (triangle_span a0 b0 a1 b1 a2 b2 y) as [xa xb].
  apply draw_rect_in.
Qed.

Lemma draw_char_in (x y : Z) (ch : ascii) (c scale : Z) :
  Forall (in_backbuf fb) (draw_char fb x y ch c scale).
Proof.
  unfold draw_char.
  destruct (_ || _); [constructor|].
  apply Forall_flat_map_in; intros row.
  apply Forall_flat_map_in; intros col.
  destruct (negb _); [|constructor].
  destruct (Z.eqb scale 1); [apply draw_pixel_in|apply draw_rect_in].
Qed.

Lemma draw_text_in (x y : Z) (text : string) (c scale : Z) :
  Forall (in_backbuf fb) (draw_text fb x y text c scale).
Proof.
  revert x; induction text as [|ch text IH]; intros x; simpl; [constructor|].
  apply Forall_app; split; [apply draw_char_in|apply IH].
Qed.

End Clipping.

Lemma fb_of_screeninfo_geometry (xres yres line_length : Z) :
  0 <= xres <= line_length / 4 -> 0 <= yres ->
  let fb := fb_of_screeninfo xres yres line_length 32 in
  0 <= fb_width fb <= fb_stride_px fb /\ 0 <= fb_height fb
  /\ 4 * (fb_stride_px fb * fb_height fb) <= fb_size fb.
Proof.
  intros Hx Hy; cbn.
  assert (Hd := Z.mul_div_le line_length 4 ltac:(lia)).
  assert (Hm : 4 * (line_length / 4) * yres <= line_length * yres)
    by (apply Z.mul_le_mono_nonneg_r; lia).
  rewrite <- Z.mul_assoc in Hm.
  split; [exact Hx|split; [exact Hy|exact Hm]].
Qed.

Lemma draw_pixel_skip (fb : Framebuffer) (x y c : Z) :
  ~ (0 <= x < fb_width fb /\ 0 <= y < fb_height fb) -> draw_pixel fb x y c = [].
Proof.
  intros Hn; unfold draw_pixel.
  destruct (Z.leb_spec 0 x), (Z.ltb_spec x (fb_width fb)),
           (Z.leb_spec 0 y), (Z.ltb_spec y (fb_height fb)); simpl; try reflexivity.
  exfalso; apply Hn; lia.
Qed.

(** C9: on the back buffer set up by [fb_init] for a 32-bit-per-pixel
    screen whose visible width fits in a line ([xres <= line_length / 4]),
    every store of every drawing primitive (pixel, filled rectangle,
    circle, rounded rectangle, filled triangle, glyph, text), for all
    integer arguments, addresses a cell of the [fb_size]-byte back buffer;
    a pixel outside the surface writes nothing and the primitives have no
    failure result. *)
Theorem drawing_primitives_in_bounds (xres yres line_length : Z) :
  0 <= xres <= line_length / 4 -> 0 <= yres ->
  let fb := fb_of_screeninfo xres yres line_length 32 in
  (forall x y c, ~ (0 <= x < fb_width fb /\ 0 <= y < fb_height fb) ->
                 draw_pixel fb x y c = [])
  /\ (forall x y c, Forall (in_backbuf fb) (draw_pixel fb x y c))
  /\ (forall x y w h c, Forall (in_backbuf fb) (draw_rect fb x y w h c))
  /\ (forall cx cy r c, Forall (in_backbuf fb) (draw_circle fb cx cy r c))
  /\ (forall x y w h r c, Forall (in_backbuf fb) (draw_rounded_rect fb x y w h r c))
  /\ (forall x0 y0 x1 y1 x2 y2 c,
        Forall (in_backbuf fb) (draw_triangle_filled fb x0 y0 x1 y1 x2 y2 c))
  /\ (forall x y ch c scale, Forall (in_backbuf fb) (draw_char fb x y ch c scale))
  /\ (forall x y text c scale, Forall (in_backbuf fb) (draw_text fb x y text c scale)).
Proof.
  intros Hx Hy fb.
  destruct (fb_of_screeninfo_geometry xres yres line_length Hx Hy) as (Hw & Hh & Hs).
  split; [intros x y c; apply draw_pixel_skip|].
  split; [intros; apply draw_pixel_in; assumption|].
  split; [intros; apply draw_rect_in; assumption|].
  split; [intros; apply draw_circle_in; assumption|].
  split; [intros; apply draw_rounded_rect_in; assumption|].
  split; [intros; apply draw_triangle_filled_in; assumption|].
  split; [intros; apply draw_char_in; assumption|].
  intros; apply draw_text_in; assumption.
Qed.

(** ** Key names and argument parsing, further properties *)

Lemma key_names_codes_first :
  forallb (fun p => String.eqb (keycode_to_name (fst p)) (snd p)) key_names = true.
Proof. vm_compute; reflexivity. Qed.

Lemma key_names_names_first :
  forallb (fun p => Z.eqb (parse_keyname (snd p)) (fst p)) key_names = true.
Proof. vm_compute; reflexivity. Qed.

Lemma keycode_to_name_entry (c : Z) (n : string) :
  In (c, n) key_names -> keycode_to_name c = n.
Proof.
  intros H.
  pose proof (proj1 (forallb_forall _ _) key_names_codes_first (c, n) H) as E.
  apply String.eqb_eq in E; exact E.
Qed.

Lemma parse_keyname_entry (c : Z) (n : string) :
  In (c, n) key_names -> parse_keyname n = c.
Proof.
  intros H.
  pose proof (proj1 (forallb_forall _ _) key_names_names_first (c, n) H) as E.
  apply Z.eqb_eq in E; exact E.
Qed.

(** Every key code of the table and every key name of the table survives
    the trip through the other lookup: [parse_keyname (keycode_to_name c) = c]
    and [keycode_to_name (parse_keyname n) = n]. *)
Theorem keyname_roundtrip :
  (forall c, In c (map fst key_names) -> parse_keyname (keycode_to_name c) = c)
  /\ (forall n, In n (map snd key_names) -> keycode_to_name (parse_keyname n) = n).
Proof.
  split.
  - intros c Hc; apply in_map_iff in Hc as [[c' n] [Hc Hin]]; simpl in Hc; subst c'.
    rewrite (keycode_to_name_entry c n Hin); exact (parse_keyname_entry c n Hin).
  - intros n Hn; apply in_map_iff in Hn as [[c n'] [Hn Hin]]; simpl in Hn; subst n'.
    rewrite (parse_keyname_entry c n Hin); exact (keycode_to_name_entry c n Hin).
Qed.

Lemma tolower_eq_sym (a b : ascii) :
  Ascii.eqb (tolower a) (tolower b) = Ascii.eqb (tolower b) (tolower a).
Proof.
  destruct (Ascii.eqb_spec (tolower a) (tolower b)), (Ascii.eqb_spec (tolower b) (tolower a));
    congruence.
Qed.

Lemma strcasecmp_eq_sym (a b : string) : strcasecmp_eq a b = strcasecmp_eq b a.
Proof.
  revert b; induction a as [|x a IH]; intros [|y b]; simpl; try reflexivity.
  rewrite tolower_eq_sym, IH; reflexivity.
Qed.

Lemma strcasecmp_eq_trans (a b c : string) :
  strcasecmp_eq a b = true -> strcasecmp_eq b c = true -> strcasecmp_eq a c = true.
Proof.
  revert b c; induction a as [|x a IH]; intros [|y b] [|z c]; simpl; try congruence.
  rewrite !andb_true_iff, !Ascii.eqb_eq.
  intros [H1 H2] [H3 H4]; split; [congruence|exact (IH b c H2 H4)].
Qed.

Lemma parse_keyname_in_compat (tbl : list (Z * string)) (s t : string) :
  strcasecmp_eq s t = true -> parse_keyname_in tbl s = parse_keyname_in tbl t.
Proof.
  intros Hst; induction tbl as [|[c n] tbl IH]; simpl; [reflexivity|].
  destruct (strcasecmp_eq n s) eqn:E1, (strcasecmp_eq n t) eqn:E2; try reflexivity.
  - rewrite (strcasecmp_eq_trans _ _ _ E1 Hst) in E2; discriminate.
  - rewrite strcasecmp_eq_sym in Hst.
    rewrite (strcasecmp_eq_trans _ _ _ E2 Hst) in E1; discriminate.
  - exact IH.
Qed.

Lemma parse_keyname_in_cases (tbl : list (Z * string)) (s : string) :
  parse_keyname_in tbl s = -1
  \/ exists n, In (parse_keyname_in tbl s, n) tbl /\ strcasecmp_eq n s = true.
Proof.
  induction tbl as [|[c n] tbl IH]; simpl; [left; reflexivity|].
  destruct (strcasecmp_eq n s) eqn:E; [right; exists n; split; [left; reflexivity|exact E]|].
  destruct IH as [IH|[n' [Hin Hs]]]; [left; exact IH|right; exists n'; split; [right; exact Hin|exact Hs]].
Qed.

(** [parse_keyname] ignores letter case: two names equal up to case give
    the same result; and a result other than [-1] is a code of the table
    whose canonical name (the one [keycode_to_name] prints) equals the
    argument up to case. *)
Theorem parse_keyname_case_insensitive (s t : string) :
  (strcasecmp_eq s t = true -> parse_keyname s = parse_keyname t)
  /\ (parse_keyname s = -1
      \/ (In (parse_keyname s, keycode_to_name (parse_keyname s)) key_names
          /\ strcasecmp_eq (keycode_to_name (parse_keyname s)) s = true)).
Proof.
  split; [apply parse_keyname_in_compat|].
  destruct (parse_keyname_in_cases key_names s) as [H|[n [Hin Hs]]]; [left; exact H|right].
  unfold parse_keyname in *; rewrite (keycode_to_name_entry _ _ Hin); split; assumption.
Qed.

(** Parsing a prefix that succeeds and then the rest is parsing the whole. *)
Lemma parse_args_loop_app (pre rest : list string) :
  forall tbl h g tbl' h' g',
  parse_args_loop tbl h g pre = (0, tbl', h', g') ->
  parse_args_loop tbl h g (pre ++ rest) = parse_args_loop tbl' h' g' rest.
Proof.
  remember (length pre) as n eqn:Hn.
  revert pre Hn; induction n as [n IH] using lt_wf_ind; intros pre Hn tbl h g tbl' h' g' Hp.
  destruct pre as [|a pre]; simpl in Hp |- *; [inversion Hp; reflexivity|].
  destruct (String.eqb a "--help" || String.eqb a "-h").
  { eapply (IH (length pre)); [simpl in Hn; lia|reflexivity|exact Hp]. }
  destruct (String.eqb a "--guimap").
  { eapply (IH (length pre)); [simpl in Hn; lia|reflexivity|exact Hp]. }
  destruct (find_slot tbl a) as [m|]; [|discriminate].
  destruct pre as [|k pre]; [discriminate|].
  simpl; destruct (parse_keyname k <? 0); [discriminate|].
  eapply (IH (length pre)); [simpl in Hn; lia|reflexivity|exact Hp].
Qed.

Lemma cli_names_set_slot_keycode (tbl : list Mapping) (m : nat) (kc : Z) :
  map cli_name (set_slot_keycode tbl m kc) = map cli_name tbl.
Proof.
  revert m; induction tbl as [|x tbl IH]; intros [|m]; simpl; try rewrite IH; reflexivity.
Qed.

Lemma find_slot_from_names (t1 t2 : list Mapping) (m : nat) (a : string) :
  map cli_name t1 = map cli_name t2 -> find_slot_from t1 m a = find_slot_from t2 m a.
Proof.
  revert t2 m; induction t1 as [|x t1 IH]; intros [|y t2] m Hn; simpl in Hn; try discriminate;
    [reflexivity|].
  injection Hn as Hxy Hn; simpl; rewrite Hxy, (IH t2 (S m) Hn); reflexivity.
Qed.

Lemma parse_args_loop_names (args : list string) :
  forall tbl h g, map cli_name (pa_table (parse_args_loop tbl h g args)) = map cli_name tbl.
Proof.
  remember (length args) as n eqn:Hn.
  revert args Hn; induction n as [n IH] using lt_wf_ind; intros args Hn tbl h g.
  destruct args as [|a args]; simpl; [reflexivity|].
  destruct (String.eqb a "--help" || String.eqb a "-h").
  { apply (IH (length args)); [simpl in Hn; lia|reflexivity]. }
  destruct (String.eqb a "--guimap").
  { apply (IH (length args)); [simpl in Hn; lia|reflexivity]. }
  destruct (find_slot tbl a) as [m|]; [|reflexivity].
  destruct args as [|k args]; [reflexivity|].
  destruct (parse_keyname k <? 0); [reflexivity|].
  rewrite (IH (length args)); [apply cli_names_set_slot_keycode|simpl in Hn; lia|reflexivity].
Qed.

Lemma find_slot_after_parse (tbl : list Mapping) h g pre a :
  find_slot (pa_table (parse_args_loop tbl h g pre)) a = find_slot tbl a.
Proof. apply find_slot_from_names, parse_args_loop_names. Qed.

Lemma parse_args_loop_error_slot tbl h g o m :
  find_slot tbl o = Some m -> special_arg o = false ->
  pa_code (parse_args_loop tbl h g [o]) = -1.
Proof.
  unfold special_arg; intros Hf Hs; simpl.
  destruct (String.eqb o "--help"), (String.eqb o "-h"), (String.eqb o "--guimap");
    try discriminate; simpl; rewrite Hf; reflexivity.
Qed.

(** [parse_args] fails ([-1]) on an argument list whose valid prefix is
    followed by a slot flag with no key name after it, by a slot flag with
    an unknown key name, or by an argument that is neither [--help], [-h],
    [--guimap] nor a slot flag. *)
Theorem parse_args_rejects (tbl : list Mapping) (pre : list string)
    (tbl' : list Mapping) (h g : bool) :
  parse_args tbl pre = (0, tbl', h, g) ->
  (forall o m, find_slot tbl o = Some m -> special_arg o = false ->
     pa_code (parse_args tbl (pre ++ [o])) = -1)
  /\ (forall o m k rest, find_slot tbl o = Some m -> special_arg o = false ->
        parse_keyname k < 0 -> pa_code (parse_args tbl (pre ++ o :: k :: rest)) = -1)
  /\ (forall a rest, find_slot tbl a = None -> special_arg a = false ->
        pa_code (parse_args tbl (pre ++ a :: rest)) = -1).
Proof.
  unfold parse_args; intros Hp.
  pose proof (find_slot_after_parse tbl false false pre) as Hfs; rewrite Hp in Hfs; unfold pa_table in Hfs; simpl in Hfs.
  split; [|split].
  - intros o m Hf Hs; rewrite (parse_args_loop_app _ _ _ _ _ _ _ _ Hp).
    rewrite <- Hfs in Hf; exact (parse_args_loop_error_slot _ _ _ _ _ Hf Hs).
  - intros o m k rest Hf Hs Hk; rewrite (parse_args_loop_app _ _ _ _ _ _ _ _ Hp).
    rewrite <- Hfs in Hf; unfold special_arg in Hs; simpl.
    destruct (String.eqb o "--help"), (String.eqb o "-h"), (String.eqb o "--guimap");
      try discriminate; simpl; rewrite Hf.
    apply Z.ltb_lt in Hk; rewrite Hk; reflexivity.
  - intros a rest Hf Hs; rewrite (parse_args_loop_app _ _ _ _ _ _ _ _ Hp).
    rewrite <- Hfs in Hf; unfold special_arg in Hs; simpl.
    destruct (String.eqb a "--help"), (String.eqb a "-h"), (String.eqb a "--guimap");
      try discriminate; simpl; rewrite Hf; reflexivity.
Qed.

Lemma find_slot_from_bound (tbl : list Mapping) (m0 m : nat) (a : string) :
  find_slot_from tbl m0 a = Some m -> (m0 <= m < m0 + length tbl)%nat.
Proof.
  revert m0; induction tbl as [|x tbl IH]; intros m0 H; simpl in H; [discriminate|].
  destruct (String.eqb a (cli_name x)); [injection H as <-; simpl; lia|].
  apply IH in H; simpl; lia.
Qed.

(** When the same slot is overridden more than once, the last override
    wins: after any successfully parsed prefix, a final [flag key] pair
    sets that slot's key code to the key's code, whatever the prefix set. *)
Theorem parse_args_last_override_wins (tbl : list Mapping) (pre : list string)
    (tbl' : list Mapping) (h g : bool) (o k : string) (m : nat) :
  parse_args tbl pre = (0, tbl', h, g) ->
  find_slot tbl o = Some m -> special_arg o = false -> 0 <= parse_keyname k ->
  parse_args tbl (pre ++ [o; k]) = (0, set_slot_keycode tbl' m (parse_keyname k), h, g)
  /\ keycode (map_at (pa_table (parse_args tbl (pre ++ [o; k]))) m) = parse_keyname k.
Proof.
  unfold parse_args; intros Hp Hf Hs Hk.
  pose proof (find_slot_after_parse tbl false false pre) as Hfs; rewrite Hp in Hfs; unfold pa_table in Hfs; simpl in Hfs.
  rewrite (parse_args_loop_app _ _ _ _ _ _ _ _ Hp).
  assert (Hl : (m < length tbl')%nat).
  { pose proof (parse_args_loop_names pre tbl false false) as Hn; rewrite Hp in Hn; unfold pa_table in Hn; simpl in Hn.
    rewrite <- Hfs in Hf; apply find_slot_from_bound in Hf; lia. }
  rewrite <- Hfs in Hf; unfold special_arg in Hs.
  assert (E : parse_args_loop tbl' h g [o; k] = (0, set_slot_keycode tbl' m (parse_keyname k), h, g)).
  { simpl.
    destruct (String.eqb o "--help"), (String.eqb o "-h"), (String.eqb o "--guimap");
      try discriminate; simpl; rewrite Hf.
    apply Z.ltb_ge in Hk; rewrite Hk; reflexivity. }
  rewrite E; split; [reflexivity|].
  unfold pa_table; cbn [fst snd].
  rewrite map_at_set_slot_keycode, Nat.eqb_refl by exact Hl; reflexivity.
Qed.

Lemma keycodes_only_changed_refl (t : list Mapping) : keycodes_only_changed t t.
Proof. split; [reflexivity|intros j; repeat split; left; reflexivity]. Qed.

Lemma keycodes_only_changed_trans (t0 t1 t2 : list Mapping) :
  keycodes_only_changed t0 t1 -> keycodes_only_changed t1 t2 -> keycodes_only_changed t0 t2.
Proof.
  intros [L1 H1] [L2 H2]; split; [congruence|intros j].
  destruct (H1 j) as (a1 & b1 & c1 & d1 & e1 & f1 & g1).
  destruct (H2 j) as (a2 & b2 & c2 & d2 & e2 & f2 & g2).
  repeat split; try congruence.
  destruct g2 as [g2|g2]; [rewrite g2; exact g1|right; exact g2].
Qed.

Lemma set_slot_keycode_changed (tbl : list Mapping) (m : nat) (kc : Z) :
  In kc (map fst key_names) -> keycodes_only_changed tbl (set_slot_keycode tbl m kc).
Proof.
  intros Hk; split; [apply length_set_slot_keycode|intros j].
  destruct (Nat.lt_ge_cases m (length tbl)) as [Hm|Hm].
  - rewrite map_at_set_slot_keycode by exact Hm.
    destruct (Nat.eqb j m); [|repeat split; left; reflexivity].
    unfold set_keycode; simpl; repeat split; right; exact Hk.
  - assert (E : set_slot_keycode tbl m kc = tbl).
    { revert m Hm; induction tbl as [|x tbl IH]; intros [|m] Hm; simpl in *;
        try reflexivity; [lia|rewrite IH by lia; reflexivity]. }
    rewrite E; repeat split; left; reflexivity.
Qed.

Lemma parse_keyname_nonneg_in (k : string) :
  0 <= parse_keyname k -> In (parse_keyname k) (map fst key_names).
Proof.
  intros H; destruct (parse_keyname_in_cases key_names k) as [E|[n [Hin _]]].
  - unfold parse_keyname in H; lia.
  - apply in_map_iff; exists (parse_keyname k, n); split; [reflexivity|exact Hin].
Qed.

(** Whatever the arguments, and also when parsing fails part-way,
    [parse_args] leaves the table with the same slots, changes no field
    other than key codes, and every key code it changes is a code of the
    key-name table. *)
Theorem parse_args_only_keycodes (tbl : list Mapping) (args : list string) :
  keycodes_only_changed tbl (pa_table (parse_args tbl args)).
Proof.
  unfold parse_args.
  cut (forall h g, keycodes_only_changed tbl (pa_table (parse_args_loop tbl h g args)));
    [intros H; apply H|].
  remember (length args) as n eqn:Hn.
  revert args tbl Hn; induction n as [n IH] using lt_wf_ind; intros args tbl Hn h g.
  destruct args as [|a args]; simpl; [apply keycodes_only_changed_refl|].
  destruct (String.eqb a "--help" || String.eqb a "-h").
  { apply (IH (length args)); [simpl in Hn; lia|reflexivity]. }
  destruct (String.eqb a "--guimap").
  { apply (IH (length args)); [simpl in Hn; lia|reflexivity]. }
  destruct (find_slot tbl a) as [m|]; [|apply keycodes_only_changed_refl].
  destruct args as [|k args]; [apply keycodes_only_changed_refl|].
  destruct (parse_keyname k <? 0) eqn:Ek; [apply keycodes_only_changed_refl|].
  apply Z.ltb_ge in Ek.
  eapply keycodes_only_changed_trans;
    [apply set_slot_keycode_changed, parse_keyname_nonneg_in, Ek|].
  apply (IH (length args)); [simpl in Hn; lia|reflexivity].
Qed.

(** ** Keyboard and joystick reads *)

Lemma read_press_queue_some (q q' : list input_event) (c : Z) :
  read_press_queue q = (Some c, q') ->
  exists pre ev, q = pre ++ ev :: q' /\ forallb (fun e => negb (is_press_event e)) pre = true
                 /\ is_press_event ev = true /\ ev_code ev = c.
Proof.
  induction q as [|e q IH]; simpl; [discriminate|].
  destruct ((ev_type e =? EV_KEY) && (ev_value e =? 1)) eqn:E.
  - intros H; injection H as <- <-; exists [], e; repeat split; assumption.
  - intros H; destruct (IH H) as (pre & ev & -> & Hp & He & Hc).
    exists (e :: pre), ev; repeat split; try assumption.
    simpl; rewrite Hp; unfold is_press_event; rewrite E; reflexivity.
Qed.

Lemma read_press_queue_none (q q' : list input_event) :
  read_press_queue q = (None, q') ->
  q' = [] /\ forallb (fun e => negb (is_press_event e)) q = true.
Proof.
  induction q as [|e q IH]; simpl; [intros H; injection H as <-; split; reflexivity|].
  destruct ((ev_type e =? EV_KEY) && (ev_value e =? 1)) eqn:E; [discriminate|].
  intros H; destruct (IH H) as [-> Hq]; split; [reflexivity|].
  rewrite Hq; unfold is_press_event; rewrite E; reflexivity.
Qed.

Lemma read_keyboard_press_cases (qs : list (list input_event)) :
  let '(k, qs') := read_keyboard_press qs in
  (exists pre ev, concat qs = pre ++ ev :: concat qs'
     /\ forallb (fun e => negb (is_press_event e)) pre = true
     /\ is_press_event ev = true /\ k = ev_code ev /\ length qs' = length qs)
  \/ (forallb (fun e => negb (is_press_event e)) (concat qs) = true
      /\ k = 0 /\ qs' = drain_keyboard_events qs).
Proof.
  induction qs as [|q qs IH]; simpl; [right; repeat split|].
  destruct (read_press_queue q) as [[c|] q'] eqn:E.
  - left; destruct (read_press_queue_some _ _ _ E) as (pre & ev & -> & Hp & He & Hc).
    exists pre, ev; simpl; rewrite <- app_assoc; repeat split; auto.
  - destruct (read_press_queue_none _ _ E) as [-> Hq].
    destruct (read_keyboard_press qs) as [k qs'].
    destruct IH as [(pre & ev & Hc & Hp & He & Hk & Hl)|(Hn & Hk & Hd)].
    + left; exists (q ++ pre), ev; simpl; rewrite Hc, <- app_assoc; repeat split; auto.
      rewrite forallb_app, Hq, Hp; reflexivity.
    + right; rewrite forallb_app, Hq, Hn, Hk, Hd; repeat split.
Qed.

Lemma first_press_unique (pre1 pre2 post1 post2 : list input_event) (e1 e2 : input_event) :
  pre1 ++ e1 :: post1 = pre2 ++ e2 :: post2 ->
  forallb (fun e => negb (is_press_event e)) pre1 = true -> is_press_event e1 = true ->
  forallb (fun e => negb (is_press_event e)) pre2 = true -> is_press_event e2 = true ->
  pre1 = pre2 /\ e1 = e2 /\ post1 = post2.
Proof.
  revert pre2; induction pre1 as [|x pre1 IH]; intros [|y pre2]; simpl;
    intros E H1 He1 H2 He2; injection E as E1 E2.
  - subst; auto.
  - subst y; rewrite He1 in H2; discriminate.
  - subst x; rewrite He2 in H1; discriminate.
  - apply andb_prop in H1 as [_ H1]; apply andb_prop in H2 as [_ H2].
    destruct (IH pre2 E2 H1 He1 H2 He2) as (-> & -> & ->); subst; auto.
Qed.

(** [read_keyboard_press] returns the code of the first key press pending
    on the keyboards (in keyboard order, then arrival order): the events
    before it are consumed, the ones after it stay pending.  With no
    pending press it returns [0] and every keyboard is read empty. *)
Theorem read_keyboard_press_first (qs : list (list input_event)) :
  (forallb (fun e => negb (is_press_event e)) (concat qs) = true ->
   read_keyboard_press qs = (0, drain_keyboard_events qs))
  /\ (forall pre ev post,
        concat qs = pre ++ ev :: post ->
        forallb (fun e => negb (is_press_event e)) pre = true -> is_press_event ev = true ->
        fst (read_keyboard_press qs) = ev_code ev
        /\ concat (snd (read_keyboard_press qs)) = post
        /\ length (snd (read_keyboard_press qs)) = length qs).
Proof.
  pose proof (read_keyboard_press_cases qs) as H.
  destruct (read_keyboard_press qs) as [k qs'].
  split.
  - intros Hn; destruct H as [(pre & ev & Hc & Hp & He & Hk & Hl)|(_ & -> & ->)]; [|reflexivity].
    exfalso; rewrite Hc, forallb_app in Hn; simpl in Hn; rewrite He in Hn.
    rewrite andb_false_r in Hn; discriminate.
  - intros pre ev post Hc Hp He; simpl.
    destruct H as [(pre' & ev' & Hc' & Hp' & He' & Hk & Hl)|(Hn & _ & _)].
    + rewrite Hc in Hc'.
      destruct (first_press_unique _ _ _ _ _ _ Hc' Hp He Hp' He') as (_ & <- & <-); auto.
    + exfalso; rewrite Hc, forallb_app in Hn; simpl in Hn; rewrite He in Hn.
      rewrite andb_false_r in Hn; discriminate.
Qed.

Lemma nav_class_range (v : Z) : nav_range (nav_class v).
Proof.
  unfold nav_class, nav_range.
  destruct (v - AXIS_CENTER <? -50); [left; reflexivity|].
  destruct (v - AXIS_CENTER >? 50); [right; right; reflexivity|right; left; reflexivity].
Qed.

Lemma read_joystick_nav_loop_spec (evs : list input_event) :
  forall prev dy conf, nav_range prev -> (dy = 0 \/ dy = prev) ->
  let '(p', dy', c') := read_joystick_nav_loop prev dy conf evs in
  nav_range p' /\ (dy' = 0 \/ dy' = p') /\ p' = last_nav_class prev evs
  /\ c' = conf || existsb is_trigger_press evs.
Proof.
  unfold last_nav_class.
  induction evs as [|ev evs IH]; intros prev dy conf Hp Hd; simpl.
  - rewrite orb_false_r; auto.
  - unfold is_trigger_press at 1.
    destruct ((ev_type ev =? EV_ABS) && (ev_code ev =? ABS_Y)) eqn:Ea.
    + assert (Hx : (ev_type ev =? EV_KEY) = false).
      { apply andb_prop in Ea as [Ea _]; apply Z.eqb_eq in Ea; rewrite Ea; reflexivity. }
      rewrite Hx; simpl.
      destruct (nav_class (ev_value ev) =? prev) eqn:Ec; simpl.
      * apply Z.eqb_eq in Ec; rewrite Ec; apply IH; assumption.
      * apply IH; [apply nav_class_range|right; reflexivity].
    + destruct ((ev_type ev =? EV_KEY) && (ev_code ev =? BTN_TRIGGER) && (ev_value ev =? 1)).
      * simpl; pose proof (IH prev dy true Hp Hd) as H.
        destruct (read_joystick_nav_loop prev dy true evs) as [[p' dy'] c'].
        destruct H as (H1 & H2 & H3 & H4); rewrite orb_true_r; simpl in H4; auto.
      * apply IH; assumption.
Qed.

Lemma read_joystick_nav_loop_held (evs : list input_event) :
  forall prev dy conf,
  Forall (fun ev => (ev_type ev =? EV_ABS) && (ev_code ev =? ABS_Y) = true ->
                    nav_class (ev_value ev) = prev) evs ->
  fst (fst (read_joystick_nav_loop prev dy conf evs)) = prev
  /\ snd (fst (read_joystick_nav_loop prev dy conf evs)) = dy.
Proof.
  induction evs as [|ev evs IH]; intros prev dy conf Hf; simpl; [auto|].
  inversion Hf as [|? ? Hev Hr]; subst.
  destruct ((ev_type ev =? EV_ABS) && (ev_code ev =? ABS_Y)) eqn:Ea.
  - rewrite (Hev eq_refl), Z.eqb_refl; simpl; apply IH; exact Hr.
  - destruct (_ && _ && _); apply IH; exact Hr.
Qed.

(** Joystick navigation in guimap is edge-triggered: [read_joystick_nav]
    keeps [prev_y] in {-1, 0, 1} and sets it to the deflection class of
    the last [ABS_Y] event; the step [nav_dy] it reports is 0 or that new
    class; a stick held in the class it was already in reports no step;
    [nav_confirm] is set exactly when some trigger press is pending. *)
Theorem read_joystick_nav_edge (prev : Z) (evs : list input_event) :
  nav_range prev ->
  let '(p', nav_dy, nav_confirm) := read_joystick_nav prev evs in
  nav_range p' /\ (nav_dy = 0 \/ nav_dy = p') /\ p' = last_nav_class prev evs
  /\ nav_confirm = existsb is_trigger_press evs
  /\ (Forall (fun ev => (ev_type ev =? EV_ABS) && (ev_code ev =? ABS_Y) = true ->
                        nav_class (ev_value ev) = prev) evs -> nav_dy = 0).
Proof.
  intros Hp; unfold read_joystick_nav.
  pose proof (read_joystick_nav_loop_spec evs prev 0 false Hp (or_introl eq_refl)) as H.
  pose proof (read_joystick_nav_loop_held evs prev 0 false) as Hh.
  destruct (read_joystick_nav_loop prev 0 false evs) as [[p' dy] c].
  destruct H as (H1 & H2 & H3 & H4); simpl in H4.
  repeat split; auto.
  intros Hf; exact (proj2 (Hh Hf)).
Qed.

(** ** The virtual device declares what the engine emits *)

Lemma in_zrange (a n x : Z) : a <= x < a + n -> In x (zrange a n).
Proof.
  intros H; unfold zrange; apply in_map_iff.
  exists (Z.to_nat (x - a)); split; [lia|].
  apply in_seq; lia.
Qed.

Lemma run_calls_true (ok : uinput_call -> bool) (cs d : list uinput_call) :
  run_calls ok cs = (true, d) -> d = cs.
Proof.
  revert d; induction cs as [|c cs IH]; intros d; simpl; [congruence|].
  destruct (ok c); [|discriminate].
  intros H; destruct (run_calls ok cs) as [b d'] eqn:E; injection H as -> <-.
  rewrite (IH d' eq_refl); reflexivity.
Qed.

Lemma axis_value_range (s : Z) : 0 <= axis_value s <= 255.
Proof.
  unfold axis_value.
  destruct (s <? 0); [lia|destruct (s >? 0); lia].
Qed.

Lemma button_report_engine (tbl : list Mapping) (b : nat) p :
  (NUM_DIRECTIONS <= b < NUM_MAPPINGS)%nat ->
  Forall (engine_event tbl) (button_report (map_at tbl b) p).
Proof.
  intros Hb; unfold button_report.
  repeat apply Forall_cons; try apply Forall_nil.
  - left; exists b; split; [exact Hb|left; reflexivity].
  - left; exists b; split; [exact Hb|right; eexists; reflexivity].
  - right; right; reflexivity.
Qed.

Lemma Forall_flat_map_mem {A B} (P : B -> Prop) (f : A -> list B) (l : list A) :
  (forall a, In a l -> Forall P (f a)) -> Forall P (flat_map f l).
Proof.
  intros Hf; induction l as [|a l IH]; simpl; [constructor|].
  apply Forall_app; split; [apply Hf; left; reflexivity|apply IH; intros x Hx; apply Hf; right; exact Hx].
Qed.

Lemma button_events_engine (tbl : list Mapping) code p :
  Forall (engine_event tbl) (button_events tbl code p).
Proof.
  unfold button_events; apply Forall_flat_map_mem; intros b Hb.
  apply in_seq in Hb.
  destruct (code =? keycode (map_at tbl b)); [|constructor].
  apply button_report_engine; unfold NUM_DIRECTIONS, NUM_BUTTONS, NUM_MAPPINGS in *; lia.
Qed.

Lemma release_and_center_engine (tbl : list Mapping) :
  Forall (engine_event tbl) (release_and_center tbl).
Proof.
  unfold release_and_center; apply Forall_app; split.
  - apply Forall_forall; intros ev Hev; apply in_map_iff in Hev as [b [<- Hb]].
    apply in_seq in Hb; left; exists b; split;
      [unfold NUM_DIRECTIONS, NUM_BUTTONS, NUM_MAPPINGS in *; lia|right; eexists; reflexivity].
  - repeat apply Forall_cons; try apply Forall_nil.
    + right; left; exists AXIS_CENTER; split; [left; reflexivity|unfold AXIS_CENTER; lia].
    + right; left; exists AXIS_CENTER; split; [right; reflexivity|unfold AXIS_CENTER; lia].
    + right; right; reflexivity.
Qed.

Lemma recalc_engine (tbl : list Mapping) (held : list bool) :
  Forall (engine_event tbl) (recalc_and_emit_axes tbl held).
Proof.
  unfold recalc_and_emit_axes, axes_of.
  destruct (held_sums tbl held) as [sx sy].
  repeat apply Forall_cons; try apply Forall_nil.
  - right; left; eexists; split; [left; reflexivity|apply axis_value_range].
  - right; left; eexists; split; [right; reflexivity|apply axis_value_range].
  - right; right; reflexivity.
Qed.

Lemma drain_loop_map (evs : list input_event) :
  forall st dirty, g_map (eng_of (drain_loop st dirty evs)) = g_map st.
Proof.
  induction evs as [|ev evs IH]; intros st dirty; simpl; [reflexivity|].
  destruct (negb (ev_type ev =? EV_KEY)); [exact (IH _ _)|].
  destruct (ev_value ev =? 2); [exact (IH _ _)|].
  destruct ((ev_code ev =? KEY_LEFTCTRL) || (ev_code ev =? KEY_RIGHTCTRL));
    [exact (IH (with_ctrl st (ev_value ev =? 1)) dirty)|].
  destruct ((ev_code ev =? KEY_S) && (ev_value ev =? 1) && g_ctrl_held st).
  { destruct (negb (g_suspended st)); [|reflexivity].
    pose proof (IH (with_suspended (with_held st all_released) true) dirty) as H.
    destruct (drain_loop _ dirty evs) as [[[st' out] d] brk]; exact H. }
  destruct ((ev_code ev =? KEY_R) && (ev_value ev =? 1) && g_ctrl_held st); [reflexivity|].
  destruct (g_suspended st); [exact (IH _ _)|].
  destruct (dir_update (g_map st) (ev_code ev) (ev_value ev =? 1) (g_dir_held st) dirty) as [h' d'].
  pose proof (IH (with_held st h') d') as H.
  destruct (drain_loop (with_held st h') d' evs) as [[[st' out] d] brk]; exact H.
Qed.

Lemma drain_loop_engine (evs : list input_event) :
  forall st dirty, Forall (engine_event (g_map st)) (snd (fst (fst (drain_loop st dirty evs)))).
Proof.
  induction evs as [|ev evs IH]; intros st dirty; cbn [drain_loop]; [constructor|].
  destruct (negb (ev_type ev =? EV_KEY)); [exact (IH _ _)|].
  destruct (ev_value ev =? 2); [exact (IH _ _)|].
  destruct ((ev_code ev =? KEY_LEFTCTRL) || (ev_code ev =? KEY_RIGHTCTRL));
    [exact (IH (with_ctrl st (ev_value ev =? 1)) dirty)|].
  destruct ((ev_code ev =? KEY_S) && (ev_value ev =? 1) && g_ctrl_held st).
  { destruct (negb (g_suspended st)); [|constructor].
    pose proof (IH (with_suspended (with_held st all_released) true) dirty) as H.
    destruct (drain_loop _ dirty evs) as [[[st' out] d] brk]; cbn [fst snd] in *.
    apply Forall_app; split; [apply release_and_center_engine|exact H]. }
  destruct ((ev_code ev =? KEY_R) && (ev_value ev =? 1) && g_ctrl_held st); [constructor|].
  destruct (g_suspended st); [exact (IH _ _)|].
  destruct (dir_update (g_map st) (ev_code ev) (ev_value ev =? 1) (g_dir_held st) dirty) as [h' d'].
  pose proof (IH (with_held st h') d') as H.
  destruct (drain_loop (with_held st h') d' evs) as [[[st' out] d] brk]; cbn [fst snd] in *.
  apply Forall_app; split; [apply button_events_engine|exact H].
Qed.

Lemma poll_iteration_engine (st : Engine) (evs : list input_event) :
  Forall (engine_event (g_map st)) (snd (fst (poll_iteration st evs)))
  /\ g_map (fst (fst (poll_iteration st evs))) = g_map st.
Proof.
  unfold poll_iteration.
  pose proof (drain_loop_engine evs st false) as H.
  pose proof (drain_loop_map evs st false) as Hm.
  destruct (drain_loop st false evs) as [[[st' out] d] brk]; simpl in *.
  destruct brk; simpl; [split; assumption|split; [|exact Hm]].
  apply Forall_app; split; [exact H|].
  destruct d; [rewrite <- Hm; apply recalc_engine|constructor].
Qed.

Lemma engine_event_accepted (tbl : list Mapping) (ev : input_event) :
  buttons_registered tbl -> engine_event tbl ev -> device_accepts uinput_setup_calls ev.
Proof.
  intros Hr [(b & Hb & [E|[v E]])|[(v & [E|E] & Hv)|E]]; subst ev;
    unfold device_accepts, uinput_setup_calls; cbn [ev_type ev_code ev_value].
  - repeat split; try discriminate.
    + simpl; tauto.
    + intros _; rewrite !in_app_iff; right; right; right; left; reflexivity.
  - repeat split; try discriminate.
    + simpl; tauto.
    + intros _; rewrite !in_app_iff; right; left; apply in_map; apply in_zrange.
      specialize (Hr b Hb); unfold BTN_TRIGGER, BTN_BASE6 in *; lia.
  - repeat split; try discriminate.
    + simpl; tauto.
    + rewrite !in_app_iff; right; right; left; simpl; tauto.
    + exists vdev_uidev, AXIS_FLAT; split; [rewrite !in_app_iff; right; right; right; simpl; tauto|].
      split; [simpl; tauto|unfold AXIS_MIN, AXIS_MAX; lia].
  - repeat split; try discriminate.
    + simpl; tauto.
    + rewrite !in_app_iff; right; right; left; simpl; tauto.
    + exists vdev_uidev, AXIS_FLAT; split; [rewrite !in_app_iff; right; right; right; simpl; tauto|].
      split; [simpl; tauto|unfold AXIS_MIN, AXIS_MAX; lia].
  - repeat split; try discriminate; simpl; tauto.
Qed.

Lemma run_engine_accepted (wiz : Wizard) (ticks : list (list input_event)) :
  (forall m, buttons_registered m -> buttons_registered (snd (wiz m))) ->
  forall st, buttons_registered (g_map st) ->
  Forall (device_accepts uinput_setup_calls) (snd (run_engine wiz st ticks)).
Proof.
  intros Hw; induction ticks as [|t ticks IH]; intros st Hs; cbn [run_engine]; [constructor|].
  pose proof (poll_iteration_engine st t) as [Ho Hm].
  destruct (poll_iteration st t) as [[st1 out1] remap]; simpl in Ho, Hm.
  assert (H1 : Forall (device_accepts uinput_setup_calls) out1).
  { eapply Forall_impl; [|exact Ho]; intros ev; apply engine_event_accepted; exact Hs. }
  destruct remap.
  - unfold remap_session, suspend_translation; cbn [g_map].
    destruct (wiz (g_map st1)) as [r m] eqn:Ew.
    assert (Hs1 : buttons_registered (g_map st1)) by (rewrite Hm; exact Hs).
    pose proof (IH (with_map (mkEngine (g_map st1) all_released false false)
                        (if negb (r =? 0) then g_map st1 else m))) as H3.
    destruct (run_engine wiz _ ticks) as [st3 out3]; cbn [snd].
    apply Forall_app; split; [exact H1|apply Forall_app; split].
    + eapply Forall_impl; [|apply release_and_center_engine].
      intros ev; apply engine_event_accepted; exact Hs1.
    + apply H3; unfold with_map; cbn [g_map].
      destruct (negb (r =? 0)); [exact Hs1|].
      pose proof (Hw _ Hs1) as Hm'; rewrite Ew in Hm'; exact Hm'.
  - pose proof (IH st1) as H3.
    destruct (run_engine wiz st1 ticks) as [st3 out3]; cbn [snd].
    apply Forall_app; split; [exact H1|apply H3; rewrite Hm; exact Hs].
Qed.

(** When [create_virtual_joystick] succeeds, the device it registered
    declares every event written to it: the five centered axes it emits
    itself, and every event of the translation engine over any run
    (including the remap sessions), provided the button slots carry codes
    of the registered range [BTN_TRIGGER..BTN_BASE6] and the wizard keeps
    them there: event types, key, axis and scan codes are all enabled,
    and every axis value lies in the declared range [0, 255]. *)
Theorem virtual_joystick_declares_engine_events (open_fd : Z) (ok : uinput_call -> bool)
    (wiz : Wizard) (st : Engine) (ticks : list (list input_event)) :
  0 <= fst (fst (create_virtual_joystick open_fd ok)) ->
  buttons_registered (g_map st) ->
  (forall m, buttons_registered m -> buttons_registered (snd (wiz m))) ->
  Forall (device_accepts (snd (fst (create_virtual_joystick open_fd ok))))
         (snd (create_virtual_joystick open_fd ok))
  /\ Forall (device_accepts (snd (fst (create_virtual_joystick open_fd ok))))
            (snd (run_engine wiz st ticks)).
Proof.
  intros Hc Hs Hw; unfold create_virtual_joystick in *.
  destruct (open_fd <? 0); [simpl in Hc; lia|].
  destruct (run_calls ok uinput_setup_calls) as [success calls] eqn:E.
  destruct success; [|simpl in Hc; lia].
  apply run_calls_true in E; subst calls; simpl.
  split; [|apply run_engine_accepted; assumption].
  assert (Hax : forall a, In a axes -> device_accepts uinput_setup_calls (mkEv EV_ABS a AXIS_CENTER)).
  { intros a Ha; unfold device_accepts, uinput_setup_calls; cbn [ev_type ev_code ev_value].
    repeat split; try discriminate.
    - simpl; tauto.
    - rewrite !in_app_iff; right; right; left; apply in_map; exact Ha.
    - exists vdev_uidev, AXIS_FLAT; split; [rewrite !in_app_iff; right; right; right; simpl; tauto|].
      split; [apply in_map_iff; exists a; split; [reflexivity|exact Ha]|].
      unfold AXIS_MIN, AXIS_MAX, AXIS_CENTER; lia. }
  repeat apply Forall_cons; try apply Forall_nil; try (apply Hax; simpl; tauto).
  unfold device_accepts; repeat split; try discriminate; simpl; tauto.
Qed.

(** ** Screen clearing, centered text, taps within one poll *)

Lemma zrange_in (a n x : Z) : In x (zrange a n) -> a <= x < a + n.
Proof.
  unfold zrange; intros H; apply in_map_iff in H as [k [<- Hk]].
  apply in_seq in Hk; lia.
Qed.

Lemma zrange_NoDup (a n : Z) : NoDup (zrange a n).
Proof.
  unfold zrange; apply NoDup_map_NoDup_ForallPairs; [|apply seq_NoDup].
  intros i j _ _ H; lia.
Qed.

(** [fb_clear] on the back buffer of a 32-bit-per-pixel screen stores the
    color exactly once into each cell [0 <= i < stride * height] of the
    surface (the padding between [width] and [stride] included), so into
    every on-screen pixel, and nowhere outside the back buffer. *)
Theorem fb_clear_covers_once (xres yres line_length color : Z) :
  0 <= xres <= line_length / 4 -> 0 <= yres ->
  let fb := fb_of_screeninfo xres yres line_length 32 in
  Forall (in_backbuf fb) (fb_clear fb color)
  /\ NoDup (map fst (fb_clear fb color))
  /\ (forall i, 0 <= i < fb_stride_px fb * fb_height fb -> In (i, color) (fb_clear fb color))
  /\ (forall x y, 0 <= x < fb_width fb -> 0 <= y < fb_height fb ->
        In (y * fb_stride_px fb + x, color) (fb_clear fb color)).
Proof.
  intros Hx Hy fb.
  destruct (fb_of_screeninfo_geometry xres yres line_length Hx Hy) as (Hw & Hh & Hs).
  fold fb in Hw, Hh, Hs.
  unfold fb_clear; rewrite map_map; cbn [fst]; rewrite map_id.
  split; [|split; [apply zrange_NoDup|split]].
  2:{ intros i Hi; apply in_map_iff; exists i; split; [reflexivity|].
      apply in_zrange; lia. }
  - apply Forall_forall; intros w Hw'; apply in_map_iff in Hw' as [i [<- Hi]].
    apply zrange_in in Hi; unfold in_backbuf; cbn [fst]; lia.
  - intros x y Hx' Hy'; apply in_map_iff; exists (y * fb_stride_px fb + x); split; [reflexivity|].
    apply in_zrange.
    assert (Hm : (y + 1) * fb_stride_px fb <= fb_height fb * fb_stride_px fb)
      by (apply Z.mul_le_mono_nonneg_r; lia).
    assert (Hp : 0 <= y * fb_stride_px fb) by (apply Z.mul_nonneg_nonneg; lia).
    rewrite Z.mul_add_distr_r, Z.mul_1_l, (Z.mul_comm (fb_height fb)) in Hm; lia.
Qed.

Section TextBox.

Variable fb : Framebuffer.

Lemma pixel_in_box_weaken (x0 x1 y0 y1 x0' x1' y0' y1' : Z) (w : Z * Z) :
  x0' <= x0 -> x1 <= x1' -> y0' <= y0 -> y1 <= y1' ->
  pixel_in_box fb x0 x1 y0 y1 w -> pixel_in_box fb x0' x1' y0' y1' w.
Proof.
  intros H1 H2 H3 H4 (x & y & A & B & C & D & E); exists x, y; repeat split; lia.
Qed.

Lemma draw_pixel_box (x y c : Z) :
  Forall (pixel_in_box fb x (x + 1) y (y + 1)) (draw_pixel fb x y c).
Proof.
  unfold draw_pixel.
  destruct (Z.leb_spec 0 x), (Z.ltb_spec x (fb_width fb)),
           (Z.leb_spec 0 y), (Z.ltb_spec y (fb_height fb)); simpl;
    try solve [constructor].
  constructor; [|constructor].
  exists x, y; repeat split; lia.
Qed.

Lemma draw_rect_box (x y w h c : Z) :
  Forall (pixel_in_box fb x (x + w) y (y + h)) (draw_rect fb x y w h c).
Proof.
  apply Forall_flat_map_mem; intros row Hr; apply zrange_in in Hr.
  apply Forall_flat_map_mem; intros col Hc; apply zrange_in in Hc.
  eapply Forall_impl; [|apply draw_pixel_box].
  intros p; apply pixel_in_box_weaken; lia.
Qed.

Lemma draw_char_box (x y : Z) (ch : ascii) (c scale : Z) :
  1 <= scale ->
  Forall (pixel_in_box fb x (x + FONT_W * scale) y (y + FONT_H * scale))
         (draw_char fb x y ch c scale).
Proof.
  intros Hs; unfold draw_char.
  destruct (_ || _); [constructor|].
  apply Forall_flat_map_mem; intros row Hr; apply zrange_in in Hr.
  apply Forall_flat_map_mem; intros col Hc; apply zrange_in in Hc.
  unfold FONT_W, FONT_H in *.
  destruct (negb _); [|constructor].
  destruct (Z.eqb_spec scale 1).
  - eapply Forall_impl; [|apply draw_pixel_box].
    intros p; apply pixel_in_box_weaken; lia.
  - eapply Forall_impl; [|apply draw_rect_box].
    intros p; apply pixel_in_box_weaken; nia.
Qed.

Lemma draw_text_box (text : string) (c scale : Z) :
  1 <= scale -> forall x y,
  Forall (pixel_in_box fb x (x + text_width text scale) y (y + FONT_H * scale))
         (draw_text fb x y text c scale).
Proof.
  intros Hs; unfold text_width; induction text as [|ch text IH]; intros x y; cbn [draw_text String.length];
    [constructor|].
  assert (Hn : 0 <= Z.of_nat (String.length text) * FONT_W * scale)
    by (unfold FONT_W; apply Z.mul_nonneg_nonneg; lia).
  rewrite Nat2Z.inj_succ; unfold Z.succ; rewrite !Z.mul_add_distr_r, Z.mul_1_l.
  apply Forall_app; split.
  - eapply Forall_impl; [|apply draw_char_box, Hs].
    intros p; apply pixel_in_box_weaken; unfold FONT_W in *; lia.
  - eapply Forall_impl; [|apply IH].
    intros p; apply pixel_in_box_weaken; unfold FONT_W in *; lia.
Qed.

End TextBox.

(** [draw_text_centered] at [cx] with scale [>= 1] writes only on-screen
    pixels of the box centered on [cx]: [text_width / 2] to each side of
    [cx], and the 16-row-per-scale glyph height below [y]. *)
Theorem draw_text_centered_box (fb : Framebuffer) (cx y : Z) (text : string) (c scale : Z) :
  1 <= scale ->
  Forall (pixel_in_box fb (cx - text_width text scale / 2) (cx + text_width text scale / 2)
                          y (y + FONT_H * scale))
         (draw_text_centered fb cx y text c scale).
Proof.
  intros Hs; unfold draw_text_centered.
  assert (E : text_width text scale = 2 * (Z.of_nat (String.length text) * 4 * scale))
    by (unfold text_width, FONT_W; ring).
  rewrite E, !(Z.mul_comm 2), Z.quot_mul, Z.div_mul by lia.
  eapply Forall_impl; [|apply draw_text_box, Hs].
  intros p; apply pixel_in_box_weaken; rewrite ?E; lia.
Qed.

(** ** Device scanning *)

Lemma scan_keyboards_loop_spec (devs : string -> input_dev) (max_fds : Z) (names : list string) :
  forall count, 0 <= count ->
  let r := scan_keyboards_loop devs max_fds count names in
  count + Z.of_nat (length (fst r)) <= Z.max count max_fds
  /\ (forall n, In n (fst r) -> In n names /\ event_name_ok n = true
                /\ dev_opens (devs n) = true /\ is_keyboard (devs n) = true)
  /\ (forall n, In n (snd r) -> In n names /\ event_name_ok n = true
                /\ dev_opens (devs n) = true /\ is_keyboard (devs n) = false)
  /\ (count + Z.of_nat (length (fst r)) < max_fds ->
      forall n, In n names -> event_name_ok n = true -> dev_opens (devs n) = true ->
                is_keyboard (devs n) = true -> In n (fst r)).
Proof.
  induction names as [|a rest IH]; intros count Hc; cbn [scan_keyboards_loop].
  - cbn [fst snd length In]; repeat split; try tauto; lia.
  - destruct (Z.leb_spec max_fds count) as [Hm|Hm].
    { cbn [fst snd length In]; repeat split; try tauto; lia. }
    destruct (event_name_ok a) eqn:Ea; cbn [negb].
    2:{ destruct (IH count Hc) as (A & B & C & D); cbn zeta in *.
        refine (conj _ (conj _ (conj _ _))); try lia.
        - intros n Hn; destruct (B n Hn) as (? & ?); split; [right|]; tauto.
        - intros n Hn; destruct (C n Hn) as (? & ?); split; [right|]; tauto.
        - intros Hl n [<-|Hn] He; [congruence|]; apply D; auto. }
    destruct (dev_opens (devs a)) eqn:Eo; cbn [negb].
    2:{ destruct (IH count Hc) as (A & B & C & D); cbn zeta in *.
        refine (conj _ (conj _ (conj _ _))); try lia.
        - intros n Hn; destruct (B n Hn) as (? & ?); split; [right|]; tauto.
        - intros n Hn; destruct (C n Hn) as (? & ?); split; [right|]; tauto.
        - intros Hl n [<-|Hn] He Ho; [congruence|]; apply D; auto. }
    destruct (is_keyboard (devs a)) eqn:Ek.
    + destruct (IH (count + 1) ltac:(lia)) as (A & B & C & D); cbn zeta in *.
      destruct (scan_keyboards_loop devs max_fds (count + 1) rest) as [kept closed].
      cbn [fst snd length] in *; rewrite Nat2Z.inj_succ.
      refine (conj _ (conj _ (conj _ _))); try lia.
      * intros n [<-|Hn]; [split; [left; reflexivity|auto]|]; destruct (B n Hn) as (? & ?); split; [right|]; tauto.
      * intros n Hn; destruct (C n Hn) as (? & ?); split; [right|]; tauto.
      * intros Hl n [<-|Hn] He Ho Hk; [left; reflexivity|right; apply D; auto; lia].
    + destruct (IH count Hc) as (A & B & C & D); cbn zeta in *.
      destruct (scan_keyboards_loop devs max_fds count rest) as [kept closed].
      cbn [fst snd length] in *.
      refine (conj _ (conj _ (conj _ _))); try lia.
      * intros n Hn; destruct (B n Hn) as (? & ?); split; [right|]; tauto.
      * intros n [<-|Hn]; [split; [left; reflexivity|auto]|]; destruct (C n Hn) as (? & ?); split; [right|]; tauto.
      * intros Hl n [<-|Hn] He Ho Hk'; [congruence|]; apply D; auto.
Qed.

Lemma scan_keyboards_loop_prefix (devs : string -> input_dev) (max_fds : Z) (names : list string) :
  forall count,
  let r := scan_keyboards_loop devs max_fds count names in
  exists pre post, names = pre ++ post
    /\ fst r = filter (fun n => event_name_ok n && dev_opens (devs n) && is_keyboard (devs n)) pre
    /\ snd r = filter (fun n => event_name_ok n && dev_opens (devs n) && negb (is_keyboard (devs n))) pre
    /\ (post = [] \/ max_fds <= count + Z.of_nat (length (fst r))).
Proof.
  induction names as [|a rest IH]; intros count; cbn [scan_keyboards_loop].
  - exists [], []; cbn [fst snd filter app]; auto.
  - destruct (Z.leb_spec max_fds count) as [Hm|Hm].
    { exists [], (a :: rest); cbn [fst snd filter app length].
      refine (conj eq_refl (conj eq_refl (conj eq_refl (or_intror _)))); lia. }
    destruct (event_name_ok a) eqn:Ea; cbn [negb].
    2:{ destruct (IH count) as (pre & post & E & K & C & P); cbv zeta in *.
        exists (a :: pre), post; cbn [app filter]; rewrite Ea; cbn [andb].
        exact (conj (f_equal (cons a) E) (conj K (conj C P))). }
    destruct (dev_opens (devs a)) eqn:Eo; cbn [negb].
    2:{ destruct (IH count) as (pre & post & E & K & C & P); cbv zeta in *.
        exists (a :: pre), post; cbn [app filter]; rewrite Ea, Eo; cbn [andb].
        exact (conj (f_equal (cons a) E) (conj K (conj C P))). }
    destruct (is_keyboard (devs a)) eqn:Ek.
    + destruct (IH (count + 1)) as (pre & post & E & K & C & P); cbv zeta in *.
      destruct (scan_keyboards_loop devs max_fds (count + 1) rest) as [kept closed].
      cbn [fst snd] in *.
      exists (a :: pre), post; cbn [app filter fst snd length]; rewrite Ea, Eo, Ek; cbn [andb negb].
      refine (conj (f_equal (cons a) E) (conj (f_equal (cons a) K) (conj C _))).
      destruct P as [P|P]; [left; exact P|right; rewrite Nat2Z.inj_succ; lia].
    + destruct (IH count) as (pre & post & E & K & C & P); cbv zeta in *.
      destruct (scan_keyboards_loop devs max_fds count rest) as [kept closed].
      cbn [fst snd] in *.
      exists (a :: pre), post; cbn [app filter fst snd]; rewrite Ea, Eo, Ek; cbn [andb negb].
      exact (conj (f_equal (cons a) E) (conj K (conj (f_equal (cons a) C) P))).
Qed.

(** [scan_keyboards] keeps at most [max_fds] devices, each an [event*]
    node that opened and reports [EV_KEY] with [KEY_Q] and [KEY_A]; every
    other device it opened is closed again; and while it is under
    capacity it misses no keyboard of the listing.  Precisely: it reads a
    prefix of the listing, the whole listing unless [max_fds] keyboards
    were kept; of that prefix it keeps exactly the [event*] nodes that
    open and are keyboards, and closes exactly the [event*] nodes that
    open and are not. *)
Theorem scan_keyboards_keeps_keyboards (names : list string) (devs : string -> input_dev)
    (max_fds : Z) :
  let r := scan_keyboards (Some names) devs max_fds in
  Z.of_nat (length (fst r)) <= Z.max 0 max_fds
  /\ (forall n, In n (fst r) -> In n names /\ event_name_ok n = true
                /\ dev_opens (devs n) = true /\ is_keyboard (devs n) = true)
  /\ (forall n, In n (snd r) -> In n names /\ event_name_ok n = true
                /\ dev_opens (devs n) = true /\ is_keyboard (devs n) = false)
  /\ (Z.of_nat (length (fst r)) < max_fds ->
      forall n, In n names -> event_name_ok n = true -> dev_opens (devs n) = true ->
                is_keyboard (devs n) = true -> In n (fst r))
  /\ (exists pre post, names = pre ++ post
      /\ fst r = filter (fun n => event_name_ok n && dev_opens (devs n) && is_keyboard (devs n)) pre
      /\ snd r = filter (fun n => event_name_ok n && dev_opens (devs n)
                                  && negb (is_keyboard (devs n))) pre
      /\ (post = [] \/ max_fds <= Z.of_nat (length (fst r)))).
Proof.
  unfold scan_keyboards.
  destruct (scan_keyboards_loop_spec devs max_fds names 0 ltac:(lia)) as (A & B & C & D).
  destruct (scan_keyboards_loop_prefix devs max_fds names 0) as (pre & post & E & K & Cl & P).
  cbn zeta in *; refine (conj _ (conj B (conj C (conj _ _)))); [lia| |].
  - intros Hl; apply D; lia.
  - exists pre, post; refine (conj E (conj K (conj Cl _))).
    destruct P as [P|P]; [left; exact P|right; lia].
Qed.

Lemma scan_joystick_loop_spec (devs : string -> input_dev) (names : list string) :
  let r := scan_joystick_loop devs names in
  (forall n, fst r = Some n -> In n names /\ event_name_ok n = true
             /\ dev_opens (devs n) = true /\ joystick_candidate (devs n) = true)
  /\ (forall n, In n (snd r) -> In n names /\ dev_opens (devs n) = true
                /\ joystick_candidate (devs n) = false)
  /\ (fst r = None -> forall n, In n names -> event_name_ok n = true ->
        dev_opens (devs n) = true -> joystick_candidate (devs n) = false).
Proof.
  induction names as [|a rest IH]; cbn [scan_joystick_loop].
  - cbn; repeat split; intros; try discriminate; contradiction.
  - destruct IH as (A & B & C).
    destruct (event_name_ok a) eqn:Ea; cbn [negb].
    2:{ refine (conj _ (conj _ _)).
        - intros n Hn; destruct (A n Hn) as (? & ?); split; [right|]; tauto.
        - intros n Hn; destruct (B n Hn) as (? & ?); split; [right|]; tauto.
        - intros Hr n [<-|Hn] He; [congruence|]; apply C; auto. }
    destruct (dev_opens (devs a)) eqn:Eo; cbn [negb].
    2:{ refine (conj _ (conj _ _)).
        - intros n Hn; destruct (A n Hn) as (? & ?); split; [right|]; tauto.
        - intros n Hn; destruct (B n Hn) as (? & ?); split; [right|]; tauto.
        - intros Hr n [<-|Hn] He Ho; [congruence|]; apply C; auto. }
    destruct (joystick_candidate (devs a)) eqn:Ej.
    + cbn [fst snd In]; refine (conj _ (conj _ _)); try tauto; try discriminate.
      intros n Hn; injection Hn as <-; split; [left; reflexivity|auto].
    + destruct (scan_joystick_loop devs rest) as [r closed]; cbn [fst snd] in *.
      refine (conj _ (conj _ _)).
      * intros n Hn; destruct (A n Hn) as (? & ?); split; [right|]; tauto.
      * intros n [<-|Hn]; [split; [left; reflexivity|auto]|]; destruct (B n Hn) as (? & ?); split; [right|]; tauto.
      * intros Hr n [<-|Hn] He Ho; [exact Ej|]; apply C; auto.
Qed.

Lemma scan_joystick_loop_prefix (devs : string -> input_dev) (names : list string) :
  let r := scan_joystick_loop devs names in
  exists pre post, names = pre ++ post
    /\ snd r = filter (fun n => event_name_ok n && dev_opens (devs n)) pre
    /\ Forall (fun n => event_name_ok n && dev_opens (devs n) = true ->
                        joystick_candidate (devs n) = false) pre
    /\ match fst r with None => post = [] | Some n => exists post', post = n :: post' end.
Proof.
  induction names as [|a rest IH]; cbn [scan_joystick_loop].
  - exists [], []; cbn [fst snd filter app]; auto.
  - destruct IH as (pre & post & E & C & F & P).
    destruct (event_name_ok a) eqn:Ea; cbn [negb].
    2:{ exists (a :: pre), post; cbn [app filter]; rewrite Ea; cbn [andb].
        refine (conj (f_equal (cons a) E) (conj C (conj (Forall_cons _ _ F) P))).
        intros H; rewrite Ea in H; discriminate H. }
    destruct (dev_opens (devs a)) eqn:Eo; cbn [negb].
    2:{ exists (a :: pre), post; cbn [app filter]; rewrite Ea, Eo; cbn [andb].
        refine (conj (f_equal (cons a) E) (conj C (conj (Forall_cons _ _ F) P))).
        intros H; rewrite Ea, Eo in H; discriminate H. }
    destruct (joystick_candidate (devs a)) eqn:Ej.
    + exists [], (a :: rest); cbn [fst snd filter app].
      refine (conj eq_refl (conj eq_refl (conj (Forall_nil _) _))).
      exists rest; reflexivity.
    + destruct (scan_joystick_loop devs rest) as [r closed]; cbn [fst snd] in *.
      exists (a :: pre), post; cbn [app filter]; rewrite Ea, Eo; cbn [andb].
      refine (conj (f_equal (cons a) E) (conj (f_equal (cons a) C) (conj (Forall_cons _ _ F) P))).
      intros _; exact Ej.
Qed.

(** [scan_joystick] returns an [event*] node that opened and reports
    [EV_ABS], [EV_KEY], [ABS_X], [ABS_Y] and [BTN_TRIGGER], never one named
    like the program's own virtual joystick; every device it rejected was
    closed; it returns nothing only when no device of the listing
    qualifies.  Precisely: it reads the listing up to the device it
    returns (all of it when it returns nothing); the devices it closed are
    exactly the [event*] nodes of that part that opened, and none of them
    qualifies. *)
Theorem scan_joystick_skips_own_device (names : list string) (devs : string -> input_dev) :
  let r := scan_joystick (Some names) devs in
  (forall n, fst r = Some n ->
     In n names /\ event_name_ok n = true /\ dev_opens (devs n) = true
     /\ read_dev_name (devs n) <> VDEV_NAME
     /\ exists ev ab kb, dev_evbits (devs n) = Some ev
        /\ Z.testbit ev EV_ABS = true /\ Z.testbit ev EV_KEY = true
        /\ match dev_absbits (devs n) with Some a => a | None => 0 end = ab
        /\ Z.testbit ab ABS_X = true /\ Z.testbit ab ABS_Y = true
        /\ match dev_keybits (devs n) with Some k => k | None => 0 end = kb
        /\ Z.testbit kb BTN_TRIGGER = true)
  /\ (forall n, In n (snd r) -> In n names /\ dev_opens (devs n) = true)
  /\ (fst r = None -> forall n, In n names -> event_name_ok n = true ->
        dev_opens (devs n) = true -> joystick_candidate (devs n) = false)
  /\ (exists pre post, names = pre ++ post
      /\ snd r = filter (fun n => event_name_ok n && dev_opens (devs n)) pre
      /\ Forall (fun n => event_name_ok n && dev_opens (devs n) = true ->
                          joystick_candidate (devs n) = false) pre
      /\ match fst r with None => post = [] | Some n => exists post', post = n :: post' end).
Proof.
  unfold scan_joystick.
  destruct (scan_joystick_loop_spec devs names) as (A & B & C); cbn zeta in *.
  refine (conj _ (conj _ (conj C (scan_joystick_loop_prefix devs names)))).
  - intros n Hn; destruct (A n Hn) as (H1 & H2 & H3 & H4).
    refine (conj H1 (conj H2 (conj H3 (conj _ _)))).
    + unfold joystick_candidate in H4.
      destruct (dev_evbits (devs n)); [|discriminate].
      destruct (negb _ || negb _); [discriminate|].
      destruct (negb _ || negb _); [discriminate|].
      destruct (negb _); [discriminate|].
      intros E; rewrite E, String.eqb_refl in H4; discriminate.
    + unfold joystick_candidate in H4.
      destruct (dev_evbits (devs n)) as [ev|]; [|discriminate].
      set (ab := match dev_absbits (devs n) with Some a => a | None => 0 end) in H4.
      set (kb := match dev_keybits (devs n) with Some k => k | None => 0 end) in H4.
      exists ev, ab, kb.
      destruct (Z.testbit ev EV_ABS), (Z.testbit ev EV_KEY); cbn [negb orb] in H4; try discriminate.
      destruct (Z.testbit ab ABS_X), (Z.testbit ab ABS_Y); cbn [negb orb] in H4; try discriminate.
      destruct (Z.testbit kb BTN_TRIGGER); cbn [negb orb] in H4; try discriminate.
      repeat split; reflexivity.
  - intros n Hn; destruct (B n Hn); tauto.
Qed.

Lemma existsb_in_ext {A} (f g : A -> bool) (l : list A) :
  (forall x, In x l -> f x = g x) -> existsb f l = existsb g l.
Proof.
  induction l as [|a l IH]; intros H; simpl; [reflexivity|].
  rewrite (H a (or_introl eq_refl)), IH; [reflexivity|].
  intros x Hx; apply H; right; exact Hx.
Qed.

(** A direction key pressed and released within one poll iteration, on an
    active engine where its slots are released: both button reports are
    emitted, the held flags end as they were, and the one axis report of
    the iteration (raised by the press) carries the position from before
    the tap, so the tap never moves the stick. *)
Theorem direction_tap_within_poll (st : Engine) (k : Z) :
  g_suspended st = false -> is_ctrl_key k = false ->
  ((k =? KEY_S) || (k =? KEY_R)) && g_ctrl_held st = false ->
  length (g_dir_held st) = NUM_DIRECTIONS ->
  (forall d, (d < NUM_DIRECTIONS)%nat -> k = keycode (map_at (g_map st) d) ->
             nth d (g_dir_held st) false = false) ->
  poll_iteration st [press k; release k] =
  (st, button_events (g_map st) k true ++ button_events (g_map st) k false
       ++ (if existsb (fun d => k =? keycode (map_at (g_map st) d)) (seq 0 NUM_DIRECTIONS)
           then recalc_and_emit_axes (g_map st) (g_dir_held st) else []),
   false).
Proof.
  intros Hs Hc Hch Hl Hoff.
  unfold poll_iteration.
  rewrite (drain_translate_step st false (press k) [release k] Hs eq_refl ltac:(discriminate) Hc)
    by (cbn [ev_code ev_value press]; rewrite andb_true_r; exact Hch).
  cbn [ev_code ev_value press].
  change (1 =? 1) with true.
  destruct (dir_update (g_map st) k true (g_dir_held st) false) as [h1 d1] eqn:E1.
  rewrite (drain_translate_step (with_held st h1) d1 (release k) [] Hs eq_refl ltac:(discriminate) Hc)
    by (cbn [ev_code ev_value release]; rewrite andb_false_r; reflexivity).
  cbn [ev_code ev_value release g_map g_dir_held with_held].
  change (0 =? 1) with false.
  destruct (dir_update (g_map st) k false h1 d1) as [h2 d2] eqn:E2.
  cbn [drain_loop].
  destruct (dir_update_spec (g_map st) k true (g_dir_held st) false Hl) as [L1 N1].
  rewrite E1 in L1, N1; cbn [fst] in L1, N1.
  destruct (dir_update_spec (g_map st) k false h1 d1 L1) as [L2 N2].
  rewrite E2 in L2, N2; cbn [fst] in L2, N2.
  assert (Hh : h2 = g_dir_held st).
  { apply nth_ext with (d := false) (d' := false); [congruence|].
    intros n Hn; rewrite L2 in Hn; rewrite N2, N1 by exact Hn.
    destruct (Z.eqb_spec k (keycode (map_at (g_map st) n))) as [Ek|_]; [|reflexivity].
    symmetry; apply Hoff; assumption. }
  assert (Hd1 : d1 = existsb (fun d => k =? keycode (map_at (g_map st) d)) (seq 0 NUM_DIRECTIONS)).
  { pose proof (dir_update_dirty (g_map st) k true (seq 0 NUM_DIRECTIONS) (g_dir_held st) false) as D.
    unfold dir_update in E1; rewrite E1 in D; cbn [snd orb] in D; rewrite D.
    apply existsb_in_ext; intros d Hd; apply in_seq in Hd.
    destruct (Z.eqb_spec k (keycode (map_at (g_map st) d))) as [Ek|_]; [|reflexivity].
    rewrite (Hoff d) by (lia || assumption); reflexivity. }
  assert (Hd2 : d2 = d1).
  { pose proof (dir_update_dirty (g_map st) k false (seq 0 NUM_DIRECTIONS) h1 d1) as D.
    unfold dir_update in E2; rewrite E2 in D; cbn [snd] in D; rewrite D, Hd1.
    rewrite (existsb_in_ext (fun d => (k =? keycode (map_at (g_map st) d)) && negb (Bool.eqb (nth d h1 false) false))
              (fun d => k =? keycode (map_at (g_map st) d))).
    - apply orb_diag.
    - intros d Hd; apply in_seq in Hd.
      destruct (Z.eqb_spec k (keycode (map_at (g_map st) d))) as [Ek|_]; [|reflexivity].
      rewrite N1 by lia; rewrite Ek, Z.eqb_refl; reflexivity. }
  subst h2 d2; rewrite <- Hd1, app_nil_r.
  destruct st as [m h c s]; cbn [with_held g_map g_dir_held g_ctrl_held g_suspended].
  rewrite app_assoc; reflexivity.
Qed.

(** ** Directory browser *)

Lemma tolower_Z_zero (c : ascii) : tolower_Z c = 0 -> c = "000"%char.
Proof.
  unfold tolower_Z, tolower.
  destruct ((65 <=? nat_of_ascii c)%nat && (nat_of_ascii c <=? 90)%nat) eqn:E.
  - apply andb_prop in E as [_ E2]; apply Nat.leb_le in E2.
    rewrite nat_ascii_embedding by lia; lia.
  - intros H; rewrite <- (ascii_nat_embedding c).
    replace (nat_of_ascii c) with 0%nat by lia; reflexivity.
Qed.

Lemma strcasecmp_antisym (a b : string) : strcasecmp a b = - strcasecmp b a.
Proof.
  assert (Hn : tolower_Z "000"%char = 0) by reflexivity.
  revert b; induction a as [|ca a IH]; intros [|cb b]; cbn [strcasecmp]; try lia.
  destruct (Z.eqb_spec (tolower_Z ca - tolower_Z cb) 0) as [E|E],
           (Z.eqb_spec (tolower_Z cb - tolower_Z ca) 0) as [E'|E']; try lia.
  destruct (Ascii.eqb_spec ca "000"%char) as [->|Ha], (Ascii.eqb_spec cb "000"%char) as [->|Hb];
    try lia.
  - exfalso; apply Hb, tolower_Z_zero; lia.
  - exfalso; apply Ha, tolower_Z_zero; lia.
  - apply IH.
Qed.

Lemma strcasecmp_eq_zero (a b : string) : strcasecmp_eq a b = true -> strcasecmp a b = 0.
Proof.
  revert b; induction a as [|ca a IH]; intros [|cb b]; cbn [strcasecmp strcasecmp_eq];
    try discriminate; [reflexivity|].
  intros H; apply andb_prop in H as [H1 H2]; apply Ascii.eqb_eq in H1.
  unfold tolower_Z; rewrite H1, Z.sub_diag; cbn [Z.eqb].
  destruct (Ascii.eqb ca "000"%char); [reflexivity|apply IH, H2].
Qed.

(** [dir_entry_cmp] is antisymmetric, as [qsort] needs; it puts
    directories before other entries, and entries of one kind whose names
    are equal up to ASCII case compare equal. *)
Theorem dir_entry_cmp_order (a b : DirEntry) :
  dir_entry_cmp a b = - dir_entry_cmp b a
  /\ (de_is_dir a = true -> de_is_dir b = false -> dir_entry_cmp a b < 0)
  /\ (de_is_dir a = de_is_dir b -> strcasecmp_eq (de_name a) (de_name b) = true ->
      dir_entry_cmp a b = 0).
Proof.
  unfold dir_entry_cmp; split; [|split].
  - destruct (de_is_dir a), (de_is_dir b); cbn; try reflexivity; apply strcasecmp_antisym.
  - intros -> ->; cbn; lia.
  - intros E H; rewrite E, eqb_reflx; cbn [negb]; apply strcasecmp_eq_zero, H.
Qed.

(** Paths *)

Lemma strrchr_from_shift (c : ascii) (s : string) :
  forall i, strrchr_from c s i = option_map (fun j => (i + j)%nat) (strrchr_from c s 0).
Proof.
  induction s as [|a s IH]; intros i; cbn [strrchr_from]; [reflexivity|].
  rewrite (IH (S i)), (IH 1%nat).
  destruct (strrchr_from c s 0) as [j|]; cbn [option_map].
  - f_equal; lia.
  - destruct (Ascii.eqb a c); cbn; f_equal; lia.
Qed.

Lemma strrchr_from_app (c : ascii) (s1 s2 : string) :
  forall i, strrchr_from c (s1 ++ s2) i =
  match strrchr_from c s2 (i + String.length s1) with
  | Some j => Some j
  | None => strrchr_from c s1 i
  end.
Proof.
  induction s1 as [|a s1 IH]; intros i; cbn [String.append String.length strrchr_from].
  - rewrite Nat.add_0_r; destruct (strrchr_from c s2 i); reflexivity.
  - rewrite IH, Nat.add_succ_r; cbn [Nat.add].
    replace (S i + String.length s1)%nat with (S (i + String.length s1)) by lia.
    destruct (strrchr_from c s2 (S (i + String.length s1))); reflexivity.
Qed.

Lemma strrchr_from_substring (c : ascii) (s : string) (k : nat) :
  forall i, strrchr_from c s i = None -> strrchr_from c (substring 0 k s) i = None.
Proof.
  revert k; induction s as [|a s IH]; intros k i H; destruct k; cbn in *; try reflexivity.
  destruct (strrchr_from c s (S i)) eqn:E; [discriminate|].
  rewrite (IH k (S i) E); exact H.
Qed.

Lemma substring_0_app (s1 s2 : string) : substring 0 (String.length s1) (s1 ++ s2) = s1.
Proof. induction s1 as [|a s1 IH]; cbn; [destruct s2; reflexivity|rewrite IH; reflexivity]. Qed.

Lemma substring_0_full (s : string) (k : nat) : (String.length s <= k)%nat -> substring 0 k s = s.
Proof.
  revert k; induction s as [|a s IH]; intros [|k] H; cbn in *; try reflexivity; [lia|].
  rewrite IH by lia; reflexivity.
Qed.

(** Going up from a subdirectory opened by the browser's directory branch
    leads back: [parent_path] (the [strrchr] code of [".."] and
    [KEY_LEFT]) undoes [child_path] for a name without ['/'] in a
    non-empty directory path of at most 250 characters. *)
Theorem parent_of_child_path (p n : string) :
  p <> "" -> (String.length p <= 250)%nat -> strrchr "/"%char n = None ->
  parent_path (child_path p n) = p.
Proof.
  intros Hp Hl Hn; unfold parent_path, child_path, strrchr in *.
  assert (Ht : strrchr_from "/"%char (substring 0 250 n) 1 = None).
  { rewrite strrchr_from_shift, (strrchr_from_substring _ _ _ 0 Hn); reflexivity. }
  destruct (String.eqb_spec p "/") as [->|Hne].
  - cbn [String.append strrchr_from]; rewrite Ht; reflexivity.
  - rewrite substring_0_full by exact Hl.
    rewrite strrchr_from_app; cbn [String.append strrchr_from Nat.add].
    rewrite strrchr_from_shift, (strrchr_from_substring _ _ _ 0 Hn); cbn [option_map].
    rewrite Ascii.eqb_refl.
    destruct (Nat.eqb_spec (String.length p) 0) as [E|_].
    + destruct p; [contradiction|discriminate].
    + apply substring_0_app.
Qed.

(** Listings *)

Lemma browser_scan_spec (st : string -> option bool) (path : string) (names : list string) :
  forall ents, (length ents <= 256)%nat ->
  exists ds, browser_scan st path names ents = ents ++ ds
  /\ (length (ents ++ ds) <= 256)%nat
  /\ Forall (fun e => exists n, In n names /\ starts_with_dot n = false
               /\ st (substring 0 511 (path ++ "/" ++ n)) = Some true
               /\ e = mkDirEntry (substring 0 255 n) true) ds
  /\ ((length (ents ++ ds) < 256)%nat ->
      forall n, In n names -> starts_with_dot n = false ->
      st (substring 0 511 (path ++ "/" ++ n)) = Some true ->
      In (mkDirEntry (substring 0 255 n) true) ds).
Proof.
  induction names as [|a rest IH]; intros ents Hl; cbn [browser_scan].
  - exists []; rewrite app_nil_r; repeat split; auto; intros _ n [].
  - unfold MAX_DIR_ENTRIES; destruct (Z.ltb_spec (Z.of_nat (length ents)) 256) as [Hlt|Hge];
      cbn [negb].
    2:{ exists []; rewrite app_nil_r; refine (conj eq_refl (conj Hl (conj (Forall_nil _) _))).
        intros H; lia. }
    destruct (starts_with_dot a) eqn:Ed.
    { destruct (IH ents Hl) as (ds & E & L & F & C).
      exists ds; refine (conj E (conj L (conj _ _))).
      - eapply Forall_impl; [|exact F]; intros e (n & ? & ?); exists n; split; [right|]; tauto.
      - intros H n [<-|Hn] Hd; [congruence|]; apply C; auto. }
    destruct (st (substring 0 511 (path ++ "/" ++ a))) as [[|]|] eqn:Es.
    + destruct (IH (ents ++ [mkDirEntry (substring 0 255 a) true]))
        as (ds & E & L & F & C); [rewrite length_app; cbn; lia|].
      exists (mkDirEntry (substring 0 255 a) true :: ds).
      rewrite <- app_assoc in E, L; cbn [app] in E, L.
      refine (conj E (conj L (conj _ _))).
      * constructor; [exists a; split; [left|]; auto|].
        eapply Forall_impl; [|exact F]; intros e (n & ? & ?); exists n; split; [right|]; tauto.
      * intros H n [<-|Hn] Hd Hs; [left; reflexivity|right; apply C; auto].
        rewrite <- app_assoc; exact H.
    + destruct (IH ents Hl) as (ds & E & L & F & C).
      exists ds; refine (conj E (conj L (conj _ _))).
      * eapply Forall_impl; [|exact F]; intros e (n & ? & ?); exists n; split; [right|]; tauto.
      * intros H n [<-|Hn] Hd Hs; [congruence|]; apply C; auto.
    + destruct (IH ents Hl) as (ds & E & L & F & C).
      exists ds; refine (conj E (conj L (conj _ _))).
      * eapply Forall_impl; [|exact F]; intros e (n & ? & ?); exists n; split; [right|]; tauto.
      * intros H n [<-|Hn] Hd Hs; [congruence|]; apply C; auto.
Qed.

Lemma no_dot_not_parent (n : string) : starts_with_dot n = false -> substring 0 255 n <> "..".
Proof.
  destruct n as [|c n]; cbn; [discriminate|].
  intros H E; injection E as Ec _; subst c; discriminate.
Qed.

(** [browser_load] lists, after [".."] everywhere but at the root, the
    sub-directories of the listing (names not starting with ['.'],
    truncated to 255 characters, in the order [qsort] leaves them), then the export entry
    whenever there is room; no sub-directory is left out unless the 256
    entries are full, and the selection and scroll start at the top.  When
    [opendir] fails only the [".."] entry is there. *)
Theorem browser_load_listing (env : DirEnv) (path : string) :
  (forall l, Permutation (env_qsort env l) l) ->
  let b := browser_load env path in
  let pre := if String.eqb (substring 0 511 path) "/" then [] else [mkDirEntry ".." true] in
  b_path b = substring 0 511 path /\ b_selected b = 0 /\ b_scroll b = 0
  /\ b_count b <= MAX_DIR_ENTRIES
  /\ match env_opendir env path with
     | None => b_entries b = pre
     | Some names =>
       exists ds,
         b_entries b = pre ++ ds ++ (if (length (pre ++ ds) <? 256)%nat then [EXPORT_ENTRY] else [])
         /\ Forall (fun e => exists n, In n names /\ starts_with_dot n = false
                      /\ env_stat_isdir env (substring 0 511 (path ++ "/" ++ n)) = Some true
                      /\ e = mkDirEntry (substring 0 255 n) true) ds
         /\ ((length (pre ++ ds) < 256)%nat ->
             forall n, In n names -> starts_with_dot n = false ->
             env_stat_isdir env (substring 0 511 (path ++ "/" ++ n)) = Some true ->
             In (mkDirEntry (substring 0 255 n) true) ds)
     end.
Proof.
  intros Hq b pre; subst b; unfold browser_load; fold pre.
  destruct (env_opendir env path) as [names|].
  2:{ unfold b_count; cbn [b_path b_selected b_scroll b_entries].
      repeat split; try reflexivity; unfold pre, MAX_DIR_ENTRIES.
      destruct (String.eqb _ _); cbn; lia. }
  assert (Hpre : (length pre <= 1)%nat) by (unfold pre; destruct (String.eqb _ _); cbn; lia).
  destruct (browser_scan_spec (env_stat_isdir env) path names pre ltac:(lia))
    as (ds0 & E & L & F & C).
  rewrite E.
  (* the start index skips exactly [pre] *)
  assert (Hstart : match pre ++ ds0 with
                   | e :: _ => if String.eqb (de_name e) ".." then 1%nat else 0%nat
                   | [] => 0%nat
                   end = length pre).
  { unfold pre; destruct (String.eqb _ _); cbn [app length].
    - destruct ds0 as [|e ds0]; [reflexivity|].
      inversion F as [|? ? (n & _ & Hd & _ & ->) _]; subst; cbn [de_name].
      destruct (String.eqb_spec (substring 0 255 n) "..") as [Ee|_]; [|reflexivity].
      exfalso; exact (no_dot_not_parent n Hd Ee).
    - reflexivity. }
  rewrite Hstart.
  set (ds := if Z.of_nat (length (pre ++ ds0)) - Z.of_nat (length pre) >? 1
             then env_qsort env ds0 else ds0).
  assert (Hsort : (if Z.of_nat (length (pre ++ ds0)) - Z.of_nat (length pre) >? 1
                   then firstn (length pre) (pre ++ ds0) ++ env_qsort env (skipn (length pre) (pre ++ ds0))
                   else pre ++ ds0) = pre ++ ds).
  { unfold ds; rewrite firstn_app, skipn_app, Nat.sub_diag, firstn_all, skipn_all.
    cbn [firstn skipn]; rewrite app_nil_r, app_nil_l.
    destruct (_ >? 1); reflexivity. }
  rewrite Hsort.
  assert (Hp : Permutation ds ds0) by (unfold ds; destruct (_ >? 1); [apply Hq|reflexivity]).
  assert (Hlen : length (pre ++ ds) = length (pre ++ ds0))
    by (rewrite !length_app, (Permutation_length Hp); reflexivity).
  unfold b_count; cbn [b_path b_selected b_scroll b_entries].
  refine (conj eq_refl (conj eq_refl (conj eq_refl (conj _ _)))).
  - unfold MAX_DIR_ENTRIES; destruct (Z.ltb_spec (Z.of_nat (length (pre ++ ds0))) 256);
      rewrite ?length_app in *; cbn [length]; lia.
  - exists ds; split; [|split].
    + rewrite Hlen, app_assoc.
      unfold MAX_DIR_ENTRIES; destruct (Z.ltb_spec (Z.of_nat (length (pre ++ ds0))) 256),
        (Nat.ltb_spec (length (pre ++ ds0)) 256); rewrite ?app_nil_r; try reflexivity; lia.
    + apply Forall_forall; intros e He; rewrite Forall_forall in F; apply F.
      apply (Permutation_in _ Hp He).
    + intros Hl n Hn Hd Hs; rewrite Hlen in Hl.
      apply (Permutation_in _ (Permutation_sym Hp)), C; auto.
Qed.

(** ** guimap_run *)

Ltac gm_unfold :=
  unfold set_state, set_cur_map, set_redo_single, set_review_sel, set_browser,
         set_save_path, set_mapped, set_applied, set_joy_prev_y, set_map, set_fs,
         guimap_redo, set_selected in *;
  cbn [outcome_app ga_state ga_cur_map ga_redo_single ga_review_sel ga_browser ga_save_path
       ga_mapped ga_applied ga_joy ga_joy_prev_y ga_map ga_fs
       b_path b_entries b_selected b_scroll] in *.

Lemma browser_ok_top (b : DirBrowser) : b_selected b = 0 -> b_scroll b = 0 -> browser_ok b.
Proof.
  intros Hs Hc; unfold browser_ok, browser_sel_ok; rewrite Hs, Hc.
  split; [lia|]; unfold b_count.
  destruct (length (b_entries b)) eqn:E; [left|right]; lia.
Qed.

Lemma browser_load_top (env : DirEnv) (p : string) : browser_ok (browser_load env p).
Proof.
  apply browser_ok_top; unfold browser_load; destruct (env_opendir env p); reflexivity.
Qed.

Lemma browser_scroll_ok (b : DirBrowser) : browser_sel_ok b -> browser_ok (browser_scroll b).
Proof.
  unfold browser_ok, browser_sel_ok, browser_scroll, b_count; cbn [b_entries b_selected b_scroll].
  intros H.
  destruct (Z.ltb_spec (b_selected b) (b_scroll b));
    match goal with |- context [if ?c + 18 <=? ?s then _ else _] =>
      destruct (Z.leb_spec (c + 18) s) end; lia.
Qed.

Lemma browse_step_ok (env : DirEnv) (can_open : string -> bool) (g : GuimapApp) key jdy jc :
  browser_sel_ok (ga_browser g) ->
  let g' := guimap_browse_step env can_open g key jdy jc in
  browser_ok (ga_browser g') /\ ga_review_sel g' = ga_review_sel g
  /\ ga_redo_single g' = ga_redo_single g
  /\ (ga_state g' = ga_state g \/ ga_state g' = GUIMAP_REVIEW).
Proof.
  intros Hsel; unfold guimap_browse_step; cbv zeta.
  match goal with |- context [set_browser ?g1 (browser_scroll (ga_browser ?g1))] =>
    set (G := g1) end.
  assert (H1 : browser_sel_ok (ga_browser G) /\ ga_review_sel G = ga_review_sel g
               /\ ga_redo_single G = ga_redo_single g
               /\ (ga_state G = ga_state g \/ ga_state G = GUIMAP_REVIEW)).
  { subst G.
    assert (Hl : forall p, browser_sel_ok (browser_load env p))
      by (intros p; exact (proj2 (browser_load_top env p))).
    unfold browser_sel_ok, b_count in Hsel.
    destruct ((key =? KEY_UP) || (jdy <? 0)).
    { gm_unfold; refine (conj _ (conj eq_refl (conj eq_refl (or_introl eq_refl)))).
      unfold browser_sel_ok, b_count; cbn [b_entries b_selected b_scroll].
      destruct (Z.ltb_spec (b_selected (ga_browser g) - 1) 0); lia. }
    destruct ((key =? KEY_DOWN) || (0 <? jdy)).
    { gm_unfold; refine (conj _ (conj eq_refl (conj eq_refl (or_introl eq_refl)))).
      unfold browser_sel_ok, b_count; cbn [b_entries b_selected b_scroll].
      destruct (Z.leb_spec (Z.of_nat (length (b_entries (ga_browser g))))
                           (b_selected (ga_browser g) + 1)); lia. }
    destruct ((key =? KEY_ENTER) || jc).
    { destruct (0 <? b_count (ga_browser g)).
      - destruct (String.eqb _ "..").
        { gm_unfold; exact (conj (Hl _) (conj eq_refl (conj eq_refl (or_introl eq_refl)))). }
        destruct (de_is_dir _).
        { gm_unfold; exact (conj (Hl _) (conj eq_refl (conj eq_refl (or_introl eq_refl)))). }
        destruct (guimap_save_script can_open (ga_fs g) (b_path (ga_browser g)) (ga_map g))
          as [fs' [sp|]]; gm_unfold;
          exact (conj Hsel (conj eq_refl (conj eq_refl (or_intror eq_refl)))).
      - exact (conj Hsel (conj eq_refl (conj eq_refl (or_introl eq_refl)))). }
    destruct ((key =? KEY_LEFT) || (key =? KEY_BACKSPACE)).
    { gm_unfold; exact (conj (Hl _) (conj eq_refl (conj eq_refl (or_introl eq_refl)))). }
    destruct ((key =? KEY_Q) || (key =? KEY_ESC)).
    { gm_unfold; exact (conj Hsel (conj eq_refl (conj eq_refl (or_intror eq_refl)))). }
    exact (conj Hsel (conj eq_refl (conj eq_refl (or_introl eq_refl)))). }
  clearbody G; destruct H1 as (A & B & C & D); gm_unfold.
  exact (conj (browser_scroll_ok _ A) (conj B (conj C D))).
Qed.

Lemma review_step_ok (env : DirEnv) (g : GuimapApp) key jdy jc :
  guimap_inv g -> ga_state g = GUIMAP_REVIEW ->
  guimap_inv (outcome_app (guimap_review_step env g key jdy jc)).
Proof.
  intros (Hr & Hm & Hd & Hb) Hs.
  assert (Hd' : ga_redo_single g = -1) by (destruct Hd as [|[E _]]; [assumption|congruence]).
  unfold guimap_inv; unfold guimap_review_step; cbv zeta.
  unfold GUIMAP_REVIEW_TOTAL, GUIMAP_REVIEW_APPLY, GUIMAP_REVIEW_QUIT, GUIMAP_REVIEW_SAVE,
         NUM_MAPPINGS_Z in *; change (Z.of_nat NUM_MAPPINGS) with 16 in *.
  destruct ((key =? KEY_UP) || (jdy <? 0)).
  { gm_unfold; cbn [outcome_app]; refine (conj _ (conj Hm (conj Hd Hb))).
    destruct (Z.ltb_spec (ga_review_sel g - 1) 0); lia. }
  destruct ((key =? KEY_DOWN) || (0 <? jdy)).
  { gm_unfold; cbn [outcome_app]; refine (conj _ (conj Hm (conj Hd Hb))).
    destruct (Z.leb_spec 19 (ga_review_sel g + 1)); lia. }
  assert (Hredo : (0 <=? ga_review_sel g) && (ga_review_sel g <? 16) = true ->
                  guimap_inv (guimap_redo g)).
  { intros H; apply andb_prop in H as [H1 H2]; apply Z.leb_le in H1; apply Z.ltb_lt in H2.
    unfold guimap_inv; gm_unfold; unfold NUM_MAPPINGS_Z; change (Z.of_nat NUM_MAPPINGS) with 16.
    refine (conj Hr (conj (fun _ => conj H1 H2) (conj (or_intror (conj eq_refl eq_refl)) Hb))). }
  unfold guimap_inv, NUM_MAPPINGS_Z in Hredo; change (Z.of_nat NUM_MAPPINGS) with 16 in Hredo.
  destruct (key =? KEY_1).
  { destruct ((0 <=? ga_review_sel g) && (ga_review_sel g <? 16)) eqn:E; cbn [outcome_app].
    - exact (Hredo eq_refl).
    - exact (conj Hr (conj Hm (conj Hd Hb))). }
  destruct (key =? KEY_A).
  { gm_unfold; exact (conj Hr (conj Hm (conj Hd Hb))). }
  destruct ((key =? KEY_Q) || (key =? KEY_ESC)).
  { exact (conj Hr (conj Hm (conj Hd Hb))). }
  destruct (key =? KEY_S).
  { gm_unfold; cbn [outcome_app].
    refine (conj Hr (conj _ (conj (or_introl Hd') _)));
      [intros Ex; discriminate Ex|apply browser_load_top]. }
  destruct ((key =? KEY_ENTER) || (key =? KEY_SPACE) || jc); cbn [outcome_app];
    [|exact (conj Hr (conj Hm (conj Hd Hb)))].
  destruct ((0 <=? ga_review_sel g) && (ga_review_sel g <? 16)) eqn:E.
  { exact (Hredo eq_refl). }
  destruct (ga_review_sel g =? 16).
  { gm_unfold; exact (conj Hr (conj Hm (conj Hd Hb))). }
  destruct (ga_review_sel g =? 17).
  { exact (conj Hr (conj Hm (conj Hd Hb))). }
  destruct (ga_review_sel g =? 18); cbn [outcome_app].
  { gm_unfold.
    refine (conj Hr (conj _ (conj (or_introl Hd') _)));
      [intros Ex; discriminate Ex|apply browser_load_top]. }
  exact (conj Hr (conj Hm (conj Hd Hb))).
Qed.

Lemma map_step_ok (g : GuimapApp) key :
  guimap_inv g -> ga_state g = GUIMAP_MAP -> guimap_inv (guimap_map_step g key).
Proof.
  intros (Hr & Hm & Hd & Hb) Hs.
  specialize (Hm Hs).
  unfold guimap_map_step, NUM_MAPPINGS_Z in *; change (Z.of_nat NUM_MAPPINGS) with 16 in *.
  destruct (Z.ltb_spec 0 key); [|exact (conj Hr (conj (fun _ => Hm) (conj Hd Hb)))].
  gm_unfold.
  destruct (Z.leb_spec 0 (ga_redo_single g)).
  { unfold guimap_inv; gm_unfold.
    refine (conj Hr (conj _ (conj (or_introl eq_refl) Hb))); intros Ex; discriminate Ex. }
  assert (Hd' : ga_redo_single g = -1) by (destruct Hd as [|[_ E]]; lia).
  unfold guimap_inv; gm_unfold; unfold NUM_MAPPINGS_Z; change (Z.of_nat NUM_MAPPINGS) with 16.
  destruct (Z.leb_spec 16 (ga_cur_map g + 1)); gm_unfold.
  - refine (conj _ (conj _ (conj (or_introl Hd') Hb))); [unfold GUIMAP_REVIEW_TOTAL; lia|].
    intros Ex; discriminate Ex.
  - refine (conj Hr (conj _ (conj (or_introl Hd') Hb))); intros _; lia.
Qed.

Lemma iteration_ok (env : DirEnv) (can_open : string -> bool) (g : GuimapApp) (t : guimap_tick) :
  guimap_inv g -> guimap_inv (outcome_app (guimap_iteration env can_open g t)).
Proof.
  intros Hi; unfold guimap_iteration.
  destruct (ga_state g) eqn:Es.
  - exact (map_step_ok g _ Hi Es).
  - destruct (guimap_nav g (tk_joy t)) as [[py jdy] jc].
    apply review_step_ok; [|gm_unfold; exact Es].
    unfold guimap_inv in *; gm_unfold; exact Hi.
  - destruct (guimap_nav g (tk_joy t)) as [[py jdy] jc]; cbn [outcome_app].
    destruct Hi as (Hr & Hm & Hd & Hb).
    destruct (browse_step_ok env can_open (set_joy_prev_y g py) (fst (read_keyboard_press (tk_kbd t)))
                jdy jc ltac:(gm_unfold; exact (proj2 Hb))) as (A & B & C & D).
    gm_unfold; unfold guimap_inv; rewrite B, C.
    refine (conj Hr (conj _ (conj _ A))).
    + intros E; destruct D as [D|D]; congruence.
    + destruct Hd as [Hd|[E _]]; [left; exact Hd|congruence].
Qed.

(** The guimap loop keeps its state consistent, whatever it reads: the
    review row stays within the 19 rows, the slot being mapped is one of
    the 16 slots whenever the loop is mapping (so [g_map[cur_map]] is in
    bounds), a pending redo names that slot, and the browser selection is
    on an entry (or at [0] / [-1] in an empty listing) inside the 18-row
    scroll window, so [entries[selected]] is in bounds when [count > 0]. *)
Theorem guimap_loop_invariant (env : DirEnv) (can_open : string -> bool) (joy : bool)
    (tbl : list Mapping) (fs : FS) (ticks : list guimap_tick) :
  guimap_inv (guimap_loop env can_open (guimap_init joy tbl fs) ticks).
Proof.
  assert (H0 : guimap_inv (guimap_init joy tbl fs)).
  { unfold guimap_inv, guimap_init, browser_ok, browser_sel_ok, b_count, NUM_MAPPINGS_Z,
           GUIMAP_REVIEW_TOTAL; cbn.
    refine (conj _ (conj (fun _ => _) (conj (or_introl eq_refl) (conj _ (or_introl _))))); lia. }
  revert H0; generalize (guimap_init joy tbl fs).
  induction ticks as [|t rest IH]; intros g Hg; cbn [guimap_loop]; [exact Hg|].
  pose proof (iteration_ok env can_open g t Hg) as Hn.
  destruct (guimap_iteration env can_open g t); [apply IH|]; exact Hn.
Qed.

(** Tables *)

Lemma keycodes_set_positive_refl (t : list Mapping) : keycodes_set_positive t t.
Proof. split; [reflexivity|intros j; repeat split; left; reflexivity]. Qed.

Lemma keycodes_set_positive_trans (t0 t1 t2 : list Mapping) :
  keycodes_set_positive t0 t1 -> keycodes_set_positive t1 t2 -> keycodes_set_positive t0 t2.
Proof.
  intros [L1 H1] [L2 H2]; split; [congruence|intros j].
  destruct (H1 j) as (a1 & b1 & c1 & d1 & e1 & f1 & g1).
  destruct (H2 j) as (a2 & b2 & c2 & d2 & e2 & f2 & g2).
  repeat split; try congruence.
  destruct g2 as [g2|g2]; [rewrite g2; exact g1|right; exact g2].
Qed.

Lemma set_slot_keycode_positive (tbl : list Mapping) (m : nat) (kc : Z) :
  0 < kc -> keycodes_set_positive tbl (set_slot_keycode tbl m kc).
Proof.
  intros Hk; split; [apply length_set_slot_keycode|intros j].
  destruct (Nat.lt_ge_cases m (length tbl)) as [Hm|Hm].
  - rewrite map_at_set_slot_keycode by exact Hm.
    destruct (Nat.eqb j m); [|repeat split; left; reflexivity].
    unfold set_keycode; cbn; repeat split; right; exact Hk.
  - assert (E : set_slot_keycode tbl m kc = tbl).
    { revert m Hm; induction tbl as [|x tbl IH]; intros [|m] Hm; cbn in *;
        try reflexivity; [lia|rewrite IH by lia; reflexivity]. }
    rewrite E; repeat split; left; reflexivity.
Qed.

Ltac gm_cases :=
  repeat match goal with
  | |- context [if ?c then _ else _] => destruct c
  | |- context [let '(_, _) := ?x in _] => destruct x
  | |- context [match ?x with Some _ => _ | None => _ end] => destruct x
  end.

Lemma review_step_map (env : DirEnv) (g : GuimapApp) key jdy jc :
  ga_map (outcome_app (guimap_review_step env g key jdy jc)) = ga_map g.
Proof. unfold guimap_review_step; cbv zeta; gm_cases; gm_unfold; reflexivity. Qed.

Lemma browse_step_map (env : DirEnv) (can_open : string -> bool) (g : GuimapApp) key jdy jc :
  ga_map (guimap_browse_step env can_open g key jdy jc) = ga_map g.
Proof. unfold guimap_browse_step; cbv zeta; gm_cases; gm_unfold; reflexivity. Qed.

Lemma iteration_map (env : DirEnv) (can_open : string -> bool) (g : GuimapApp) (t : guimap_tick) :
  keycodes_set_positive (ga_map g) (ga_map (outcome_app (guimap_iteration env can_open g t))).
Proof.
  unfold guimap_iteration; destruct (ga_state g).
  - cbn [outcome_app]; unfold guimap_map_step; cbv zeta.
    destruct (Z.ltb_spec 0 (fst (read_keyboard_press (tk_kbd t)))) as [Hk|_];
      [|apply keycodes_set_positive_refl].
    gm_cases; gm_unfold; apply set_slot_keycode_positive, Hk.
  - destruct (guimap_nav g (tk_joy t)) as [[py jdy] jc].
    rewrite review_step_map; gm_unfold; apply keycodes_set_positive_refl.
  - destruct (guimap_nav g (tk_joy t)) as [[py jdy] jc]; cbn [outcome_app].
    rewrite browse_step_map; gm_unfold; apply keycodes_set_positive_refl.
Qed.

Lemma read_joystick_nav_loop_confirm (evs : list input_event) :
  forall prev dy conf,
  snd (read_joystick_nav_loop prev dy conf evs) = conf || existsb is_trigger_press evs.
Proof.
  induction evs as [|ev evs IH]; intros prev dy conf; cbn [read_joystick_nav_loop existsb].
  - rewrite orb_false_r; reflexivity.
  - unfold is_trigger_press at 1.
    destruct ((ev_type ev =? EV_ABS) && (ev_code ev =? ABS_Y)) eqn:Ea.
    + assert (Hx : (ev_type ev =? EV_KEY) = false).
      { apply andb_prop in Ea as [Ea _]; apply Z.eqb_eq in Ea; rewrite Ea; reflexivity. }
      rewrite Hx; cbn [andb orb].
      destruct (negb _); apply IH.
    + destruct ((ev_type ev =? EV_KEY) && (ev_code ev =? BTN_TRIGGER) && (ev_value ev =? 1)).
      * rewrite IH, orb_true_r; reflexivity.
      * apply IH.
Qed.

Lemma iteration_not_applied (env : DirEnv) (can_open : string -> bool) (g : GuimapApp)
    (t : guimap_tick) :
  let k := fst (read_keyboard_press (tk_kbd t)) in
  k <> KEY_A -> k <> KEY_ENTER -> k <> KEY_SPACE ->
  existsb is_trigger_press (tk_joy t) = false ->
  ga_applied g = false ->
  ga_applied (outcome_app (guimap_iteration env can_open g t)) = false.
Proof.
  intros k Ha He Hs Ht Hg; unfold guimap_iteration; fold k.
  assert (Hjc : snd (guimap_nav g (tk_joy t)) = false).
  { unfold guimap_nav; destruct (ga_joy g); [|reflexivity].
    unfold read_joystick_nav; rewrite read_joystick_nav_loop_confirm, Ht; reflexivity. }
  destruct (ga_state g).
  - cbn [outcome_app]; unfold guimap_map_step; cbv zeta; gm_cases; gm_unfold; exact Hg.
  - destruct (guimap_nav g (tk_joy t)) as [[py jdy] jc]; cbn [snd] in Hjc; subst jc.
    unfold guimap_review_step; cbv zeta.
    destruct ((k =? KEY_UP) || (jdy <? 0)); [gm_unfold; exact Hg|].
    destruct ((k =? KEY_DOWN) || (0 <? jdy)); [gm_unfold; exact Hg|].
    destruct (k =? KEY_1); [gm_cases; gm_unfold; exact Hg|].
    destruct (Z.eqb_spec k KEY_A); [contradiction|].
    destruct ((k =? KEY_Q) || (k =? KEY_ESC)); [gm_unfold; exact Hg|].
    destruct (k =? KEY_S); [gm_unfold; exact Hg|].
    destruct (Z.eqb_spec k KEY_ENTER); [contradiction|].
    destruct (Z.eqb_spec k KEY_SPACE); [contradiction|].
    cbn [orb]; gm_unfold; exact Hg.
  - destruct (guimap_nav g (tk_joy t)) as [[py jdy] jc]; cbn [outcome_app].
    unfold guimap_browse_step; cbv zeta; gm_cases; gm_unfold; exact Hg.
Qed.

(** [guimap_run] changes nothing in [g_map] but key codes, each set to a
    positive code read from a keyboard, so the button codes the virtual
    joystick registered stay valid; it exits with [1] and leaves the table
    and the files alone when the framebuffer or the keyboards are missing;
    and it never exits with [0] (apply) unless some iteration read [A],
    [Enter] or [Space] or a trigger press of the navigation joystick. *)
Theorem guimap_run_changes_only_keycodes (env : DirEnv) (can_open : string -> bool)
    (fb_ok : bool) (num_kbd : Z) (joy : bool) (ticks : list guimap_tick)
    (tbl : list Mapping) (fs : FS) :
  let '(r, t, fs') := guimap_run env can_open fb_ok num_kbd joy ticks tbl fs in
  (r = 0 \/ r = 1)
  /\ keycodes_set_positive tbl t
  /\ (buttons_registered tbl -> buttons_registered t)
  /\ (fb_ok = false \/ num_kbd = 0 -> r = 1 /\ t = tbl /\ fs' = fs)
  /\ (Forall (fun tk => let k := fst (read_keyboard_press (tk_kbd tk)) in
                        k <> KEY_A /\ k <> KEY_ENTER /\ k <> KEY_SPACE
                        /\ existsb is_trigger_press (tk_joy tk) = false) ticks -> r = 1).
Proof.
  assert (Hloop : forall g, keycodes_set_positive (ga_map g) (ga_map (guimap_loop env can_open g ticks))
                  /\ (ga_applied g = false ->
                      Forall (fun tk => let k := fst (read_keyboard_press (tk_kbd tk)) in
                        k <> KEY_A /\ k <> KEY_ENTER /\ k <> KEY_SPACE
                        /\ existsb is_trigger_press (tk_joy tk) = false) ticks ->
                      ga_applied (guimap_loop env can_open g ticks) = false)).
  { induction ticks as [|tk rest IH]; intros g; cbn [guimap_loop].
    - split; [apply keycodes_set_positive_refl|auto].
    - pose proof (iteration_map env can_open g tk) as Hm.
      destruct (guimap_iteration env can_open g tk) as [g'|g'] eqn:E; cbn [outcome_app] in Hm.
      + destruct (IH g') as [A B]; split.
        * exact (keycodes_set_positive_trans _ _ _ Hm A).
        * intros Ha Hf; inversion Hf as [|? ? (H1 & H2 & H3 & H4) Hr]; subst.
          apply B; [|exact Hr].
          pose proof (iteration_not_applied env can_open g tk H1 H2 H3 H4 Ha) as X.
          rewrite E in X; exact X.
      + split; [exact Hm|].
        intros Ha Hf; inversion Hf as [|? ? (H1 & H2 & H3 & H4) Hr]; subst.
        pose proof (iteration_not_applied env can_open g tk H1 H2 H3 H4 Ha) as X.
        rewrite E in X; exact X. }
  unfold guimap_run.
  destruct fb_ok; cbn [negb].
  2:{ refine (conj (or_intror eq_refl) (conj (keycodes_set_positive_refl _) (conj (fun H => H)
             (conj (fun _ => conj eq_refl (conj eq_refl eq_refl)) (fun _ => eq_refl))))). }
  destruct (Z.eqb_spec num_kbd 0) as [Hn|Hn].
  { refine (conj (or_intror eq_refl) (conj (keycodes_set_positive_refl _) (conj (fun H => H)
             (conj (fun _ => conj eq_refl (conj eq_refl eq_refl)) (fun _ => eq_refl))))). }
  destruct (Hloop (guimap_init joy tbl fs)) as [A B].
  cbn [ga_map ga_applied guimap_init] in A, B.
  refine (conj _ (conj A (conj _ (conj _ _)))).
  - destruct (ga_applied _); [left|right]; reflexivity.
  - intros Hb b Hr; destruct A as [_ A]; destruct (A b) as (_ & _ & _ & Hbt & _).
    rewrite Hbt; apply Hb, Hr.
  - intros [H|H]; [discriminate|contradiction].
  - intros Hf; rewrite (B eq_refl Hf); reflexivity.
Qed.

Lemma key_tick_key (k : Z) : fst (read_keyboard_press (tk_kbd (key_tick k))) = k.
Proof. reflexivity. Qed.

Lemma guimap_nav_nil (g : GuimapApp) : guimap_nav g [] = (ga_joy_prev_y g, 0, false).
Proof. unfold guimap_nav; destruct (ga_joy g); reflexivity. Qed.

Lemma assign_keycodes_nil (tbl : list Mapping) : assign_keycodes tbl [] = tbl.
Proof. destruct tbl; reflexivity. Qed.

Lemma assign_keycodes_snoc (done : list Z) :
  forall (tbl : list Mapping) (k : Z), (length done < length tbl)%nat ->
  set_slot_keycode (assign_keycodes tbl done) (length done) k = assign_keycodes tbl (done ++ [k]).
Proof.
  induction done as [|d done IH]; intros [|m tbl] k Hl; cbn in Hl; try lia.
  - cbn; rewrite assign_keycodes_nil; reflexivity.
  - cbn [length app assign_keycodes set_slot_keycode]; rewrite IH by lia; reflexivity.
Qed.

Lemma list_set_repeat (n m : nat) :
  list_set (repeat true n ++ repeat false (S m)) n true = repeat true (S n) ++ repeat false m.
Proof.
  induction n as [|n IH]; [reflexivity|cbn [repeat app list_set]; f_equal; exact IH].
Qed.

Lemma first_pass_gen (env : DirEnv) (can_open : string -> bool) (tbl : list Mapping) :
  forall (rest done : list Z) (g : GuimapApp),
  rest <> [] ->
  length tbl = NUM_MAPPINGS -> (length done + length rest = NUM_MAPPINGS)%nat ->
  Forall (fun k => 0 < k) rest ->
  ga_state g = GUIMAP_MAP -> ga_redo_single g = -1 -> ga_cur_map g = Z.of_nat (length done) ->
  ga_map g = assign_keycodes tbl done ->
  ga_mapped g = repeat true (length done) ++ repeat false (NUM_MAPPINGS - length done) ->
  let g' := guimap_loop env can_open g (map key_tick rest) in
  ga_state g' = GUIMAP_REVIEW /\ ga_review_sel g' = 0 /\ ga_cur_map g' = NUM_MAPPINGS_Z
  /\ ga_redo_single g' = -1 /\ ga_map g' = assign_keycodes tbl (done ++ rest)
  /\ ga_mapped g' = repeat true NUM_MAPPINGS /\ ga_applied g' = ga_applied g
  /\ ga_save_path g' = ga_save_path g /\ ga_fs g' = ga_fs g.
Proof.
  induction rest as [|k rest IH]; intros done g Hne Ht Hl Hf Hs Hr Hc Hm Hmd; [congruence|].
  inversion Hf as [|? ? Hk Hf']; subst.
  destruct g as [st cm rs sel br sp md ap jy py mp fs];
    cbn [ga_state ga_redo_single ga_cur_map ga_map ga_mapped] in Hs, Hr, Hc, Hm, Hmd; subst.
  cbn [length] in Hl.
  set (n := length done) in *.
  set (M := repeat true (S n) ++ repeat false (NUM_MAPPINGS - S n)).
  set (T := assign_keycodes tbl (done ++ [k])).
  assert (Estep : guimap_iteration env can_open
      (mkGuimapApp GUIMAP_MAP (Z.of_nat n) (-1) sel br sp
         (repeat true n ++ repeat false (NUM_MAPPINGS - n)) ap jy py (assign_keycodes tbl done) fs)
      (key_tick k)
    = GM_CONTINUE (if NUM_MAPPINGS_Z <=? Z.of_nat n + 1
                   then mkGuimapApp GUIMAP_REVIEW (Z.of_nat n + 1) (-1) 0 br sp M ap jy py T fs
                   else mkGuimapApp GUIMAP_MAP (Z.of_nat n + 1) (-1) sel br sp M ap jy py T fs)).
  { unfold guimap_iteration; cbn [ga_state]; rewrite key_tick_key.
    unfold guimap_map_step.
    destruct (Z.ltb_spec 0 k) as [_|]; [|lia].
    unfold set_state, set_cur_map, set_redo_single, set_review_sel, set_mapped, set_map.
    cbn [ga_state ga_cur_map ga_redo_single ga_review_sel ga_browser ga_save_path
         ga_mapped ga_applied ga_joy ga_joy_prev_y ga_map ga_fs].
    rewrite Nat2Z.id.
    unfold T, n; rewrite assign_keycodes_snoc by (unfold NUM_MAPPINGS in *; lia).
    unfold M; fold n.
    replace (NUM_MAPPINGS - n)%nat with (S (NUM_MAPPINGS - S n)) by (unfold NUM_MAPPINGS in *; lia).
    rewrite list_set_repeat.
    reflexivity. }
  cbn [map guimap_loop]; rewrite Estep.
  destruct (Z.leb_spec NUM_MAPPINGS_Z (Z.of_nat n + 1)) as [Hend|Hend];
    unfold NUM_MAPPINGS_Z, NUM_MAPPINGS in *.
  - destruct rest as [|k' rest]; [|cbn [length] in Hl; lia].
    cbn [map guimap_loop ga_state ga_review_sel ga_cur_map ga_redo_single ga_map ga_mapped
         ga_applied ga_save_path ga_fs].
    refine (conj eq_refl (conj eq_refl (conj _ (conj eq_refl (conj eq_refl (conj _
      (conj eq_refl (conj eq_refl eq_refl)))))))); [lia|].
    unfold M; replace (S n) with 16%nat by lia; reflexivity.
  - assert (Hr : rest <> []) by (intros ->; cbn [length] in Hl; lia).
    specialize (IH (done ++ [k])
      (mkGuimapApp GUIMAP_MAP (Z.of_nat n + 1) (-1) sel br sp M ap jy py T fs) Hr Ht).
    rewrite length_app in IH; cbn [length] in IH; fold n in IH.
    rewrite <- app_assoc in IH; cbn [app] in IH.
    refine (IH _ Hf' eq_refl eq_refl _ eq_refl _); [unfold NUM_MAPPINGS; lia| |].
    + cbn [ga_cur_map]; rewrite Nat2Z.inj_add; reflexivity.
    + cbn [ga_mapped]; unfold M; replace (n + 1)%nat with (S n) by lia; reflexivity.
Qed.

(** A first remap pass: from the start state, sixteen key presses, each a
    positive key code, fill the sixteen slots of the table in order (slot
    [i] gets the [i]-th key), mark every slot as mapped and open the review
    screen on its first row, nothing applied yet. *)
Theorem guimap_first_pass_assigns_in_order (env : DirEnv) (can_open : string -> bool)
    (joy : bool) (tbl : list Mapping) (fs : FS) (ks : list Z) :
  length tbl = NUM_MAPPINGS -> length ks = NUM_MAPPINGS -> Forall (fun k => 0 < k) ks ->
  let g := guimap_loop env can_open (guimap_init joy tbl fs) (map key_tick ks) in
  ga_state g = GUIMAP_REVIEW /\ ga_review_sel g = 0 /\ ga_redo_single g = -1
  /\ ga_map g = assign_keycodes tbl ks /\ ga_mapped g = repeat true NUM_MAPPINGS
  /\ ga_applied g = false /\ ga_fs g = fs.
Proof.
  intros Ht Hk Hf.
  assert (Hne : ks <> []) by (intros ->; discriminate Hk).
  destruct (first_pass_gen env can_open tbl ks [] (guimap_init joy tbl fs) Hne Ht Hk Hf
              eq_refl eq_refl eq_refl (eq_sym (assign_keycodes_nil tbl)) eq_refl)
    as (A & B & _ & D & E & F & G & _ & I).
  exact (conj A (conj B (conj D (conj E (conj F (conj G I)))))).
Qed.

(** Redoing one slot from the review screen: with the review cursor on a
    slot row [i] ([0 <= i < 16]), pressing [1], [Enter] or [Space] and then
    a key with a positive code sets slot [i]'s key code to that code, marks
    it mapped and returns to the review screen on the same row; nothing
    else of the state changes. *)
Theorem guimap_redo_single_slot (env : DirEnv) (can_open : string -> bool)
    (g : GuimapApp) (c k : Z) :
  ga_state g = GUIMAP_REVIEW -> 0 <= ga_review_sel g < NUM_MAPPINGS_Z ->
  (c = KEY_1 \/ c = KEY_ENTER \/ c = KEY_SPACE) -> 0 < k ->
  guimap_loop env can_open g [key_tick c; key_tick k]
  = mkGuimapApp GUIMAP_REVIEW (ga_review_sel g) (-1) (ga_review_sel g) (ga_browser g)
      (ga_save_path g) (list_set (ga_mapped g) (Z.to_nat (ga_review_sel g)) true)
      (ga_applied g) (ga_joy g) (ga_joy_prev_y g)
      (set_slot_keycode (ga_map g) (Z.to_nat (ga_review_sel g)) k) (ga_fs g).
Proof.
  intros Hs Hi Hc Hk.
  destruct g as [st cm rs sel br sp md ap jy py mp fs];
    cbn [ga_state ga_review_sel ga_browser ga_save_path ga_mapped ga_applied ga_joy
         ga_joy_prev_y ga_map ga_fs] in *; subst st.
  assert (Hsel : (0 <=? sel) && (sel <? NUM_MAPPINGS_Z) = true).
  { apply andb_true_intro; split; [apply Z.leb_le|apply Z.ltb_lt]; lia. }
  assert (Estep : guimap_iteration env can_open
      (mkGuimapApp GUIMAP_REVIEW cm rs sel br sp md ap jy py mp fs) (key_tick c)
      = GM_CONTINUE (mkGuimapApp GUIMAP_MAP sel sel sel br sp md ap jy py mp fs)).
  { unfold guimap_iteration; cbn [ga_state]; rewrite key_tick_key.
    unfold key_tick; cbn [tk_joy]; rewrite guimap_nav_nil; cbn [ga_joy_prev_y].
    unfold guimap_review_step.
    destruct Hc as [-> | [-> | ->]]; cbn [ga_review_sel set_joy_prev_y];
      rewrite Hsel; reflexivity. }
  cbn [guimap_loop]; rewrite Estep; cbn [guimap_loop].
  unfold guimap_iteration; cbn [ga_state]; rewrite key_tick_key.
  unfold guimap_map_step.
  destruct (Z.ltb_spec 0 k) as [_|]; [|lia].
  gm_unfold.
  destruct (Z.leb_spec 0 sel) as [_|]; [reflexivity|lia].
Qed.

(** ** Counterexamples *)

(** C2: with the left-fire slot bound to left control (a valid override,
    [--leftfire lctrl]), a press of that key only sets the control flag:
    no button report at all. *)
Lemma button_transition_ctrl_bound_cex :
  let '(r, tbl, _, _) := parse_args init_mappings ["--leftfire"; "lctrl"] in
  r = 0 /\ keycode (map_at tbl 8) = KEY_LEFTCTRL /\
  snd (fst (poll_iteration (with_map initial_engine tbl) [press KEY_LEFTCTRL])) = [].
Proof. vm_compute; auto. Qed.

(** C3: a direction change followed by Ctrl+R in the same iteration emits no
    axis report in that iteration; followed by Ctrl+S, two. *)
Lemma axis_report_chord_cex :
  changes_a_flag init_mappings KEY_W true all_released = true /\
  count_x_reports
    (snd (fst (poll_iteration initial_engine [press KEY_W; press KEY_LEFTCTRL; press KEY_R])))
    = 0%nat /\
  count_x_reports
    (snd (fst (poll_iteration initial_engine [press KEY_W; press KEY_LEFTCTRL; press KEY_S])))
    = 2%nat.
Proof. vm_compute; auto. Qed.

(** C4: paused, Ctrl+R opens a remap session (here one quit without
    applying) after which a press of the up key is translated again, with no
    second Ctrl+S. *)
Lemma pause_left_by_remap_cex :
  let paused := mkEngine init_mappings all_released false true in
  In (mkEv EV_ABS ABS_Y 0)
     (snd (run_engine (fun m => (1, m)) paused
             [[press KEY_LEFTCTRL; press KEY_R]; [release KEY_LEFTCTRL; press KEY_W]])).
Proof. vm_compute; intuition. Qed.

(** C7: left alt is not treated as a modifier: with the default mapping
    (left alt is the right-fire key) its press emits a button report. *)
Lemma alt_key_is_mapped_cex :
  In (mkEv EV_KEY BTN_THUMB 1)
     (snd (fst (poll_iteration initial_engine [press KEY_LEFTALT]))).
Proof. vm_compute; intuition. Qed.

(** ** Instances of the theorems at concrete inputs *)

Lemma recalc_axes_by_held_set_witness :
  recalc_and_emit_axes init_mappings (held_of [0; 3]%nat) =
    [mkEv EV_ABS ABS_X (spec_axis [0; 3]%nat (fun d => dx (map_at init_mappings d)));
     mkEv EV_ABS ABS_Y (spec_axis [0; 3]%nat (fun d => dy (map_at init_mappings d)));
     emit_syn]
  /\ (let s1 := eng_of (drain_loop initial_engine false [press KEY_W; press KEY_D]) in
      let s2 := eng_of (drain_loop initial_engine false [press KEY_D; press KEY_W]) in
      g_dir_held s1 = g_dir_held s2 /\
      recalc_and_emit_axes (g_map s1) (g_dir_held s1) =
      recalc_and_emit_axes (g_map s2) (g_dir_held s2)).
Proof.
  apply (recalc_axes_by_held_set init_mappings [0; 3]%nat initial_engine
           [press KEY_W; press KEY_D] [press KEY_D; press KEY_W]).
  - repeat constructor; simpl; intuition discriminate.
  - repeat constructor.
  - repeat constructor.
  - apply perm_swap.
  - reflexivity.
  - reflexivity.
  - reflexivity.
Defined.

Lemma button_transition_reports_witness :
  exists out_rest,
    snd (fst (fst (drain_loop initial_engine false (press KEY_SPACE :: [])))) =
    flat_map (fun m => if ev_code (press KEY_SPACE) =? keycode m
                       then button_report m (ev_value (press KEY_SPACE) =? 1) else [])
             (skipn NUM_DIRECTIONS (g_map initial_engine))
    ++ out_rest.
Proof.
  apply (button_transition_reports initial_engine false (press KEY_SPACE) []);
    try reflexivity; discriminate.
Defined.

Lemma axis_report_once_per_iteration_witness :
  let '(st', out, remap) := poll_iteration initial_engine [press KEY_W; press KEY_D] in
  remap = false /\
  (exists pre, no_abs pre /\
     out = pre ++ (if some_flag_changes initial_engine [press KEY_W; press KEY_D]
                   then recalc_and_emit_axes (g_map st') (g_dir_held st') else [])) /\
  count_x_reports out =
    (if some_flag_changes initial_engine [press KEY_W; press KEY_D] then 1 else 0)%nat.
Proof.
  apply (axis_report_once_per_iteration initial_engine [press KEY_W; press KEY_D]);
    reflexivity.
Defined.

Lemma pause_chord_behaviour_witness :
  let st := mkEngine init_mappings all_released true false in
  drain_loop st false (press KEY_S :: []) =
    (let '(st', out, d, brk) :=
       drain_loop (mkEngine (g_map st) all_released true true) false [] in
     (st', release_and_center (g_map st) ++ out, d, brk))
  /\ release_and_center (g_map st) =
       map (fun b => mkEv EV_KEY (btn_code (map_at (g_map st) b)) 0) (seq 8 8)
       ++ [mkEv EV_ABS ABS_X 127; mkEv EV_ABS ABS_Y 127; emit_syn]
  /\ all_released = [false; false; false; false; false; false; false; false]
  /\ (forall (ps : Engine) (evs : list input_event),
        g_suspended ps = true -> no_chord (g_ctrl_held ps) evs = true ->
        exists c, poll_iteration ps evs = (with_ctrl ps c, [], false))
  /\ (forall ps : Engine, g_suspended ps = true -> g_ctrl_held ps = true ->
        drain_loop ps false (press KEY_S :: []) =
          (mkEngine (g_map ps) (g_dir_held ps) false false, [], false, false) /\
        drain_loop ps false (press KEY_R :: []) =
          (mkEngine (g_map ps) (g_dir_held ps) true false, [], false, true)).
Proof.
  apply (pause_chord_behaviour (mkEngine init_mappings all_released true false) false []);
    reflexivity.
Defined.

Lemma remap_failure_restores_snapshot_witness :
  let wiz : Wizard := fun m => (1, set_slot_keycode m 0 KEY_S) in
  g_map (fst (remap_session wiz initial_engine)) = g_map initial_engine /\
  forall i, keycode (map_at (g_map (fst (remap_session wiz initial_engine))) i)
            = keycode (map_at (g_map initial_engine) i).
Proof.
  apply (remap_failure_restores_snapshot (fun m => (1, set_slot_keycode m 0 KEY_S)) initial_engine).
  discriminate.
Defined.

Lemma parse_args_override_only_keycode_witness :
  let '(r, tbl', help, guimap) := parse_args init_mappings [cli_name (map_at init_mappings 0); "s"] in
  r = 0 /\ help = false /\ guimap = false /\ length tbl' = length init_mappings /\
  forall j,
    cli_name (map_at tbl' j) = cli_name (map_at init_mappings j) /\
    label (map_at tbl' j) = label (map_at init_mappings j) /\
    default_key (map_at tbl' j) = default_key (map_at init_mappings j) /\
    btn_code (map_at tbl' j) = btn_code (map_at init_mappings j) /\
    dx (map_at tbl' j) = dx (map_at init_mappings j) /\
    dy (map_at tbl' j) = dy (map_at init_mappings j) /\
    keycode (map_at tbl' j) =
      if Nat.eqb j 0 then parse_keyname "s" else keycode (map_at init_mappings j).
Proof.
  apply (parse_args_override_only_keycode init_mappings 0 "s").
  - simpl; lia.
  - repeat constructor; simpl; intuition discriminate.
  - simpl; intuition discriminate.
  - vm_compute; discriminate.
Defined.

Lemma ctrl_transition_only_sets_flag_witness :
  drain_loop initial_engine false (press KEY_LEFTCTRL :: [press KEY_W]) =
  drain_loop (with_ctrl initial_engine (ev_value (press KEY_LEFTCTRL) =? 1)) false [press KEY_W]
  /\ drain_loop initial_engine false (press KEY_LEFTALT :: []) =
     (let '(h', d') := dir_update (g_map initial_engine) KEY_LEFTALT true
                                  (g_dir_held initial_engine) false in
      let '(st', out, d, brk) := drain_loop (with_held initial_engine h') d' [] in
      (st', button_events (g_map initial_engine) KEY_LEFTALT true ++ out, d, brk)).
Proof.
  destruct ctrl_transition_only_sets_flag as (A & _ & C & _).
  split.
  - apply (A initial_engine false (press KEY_LEFTCTRL) [press KEY_W]); try reflexivity; discriminate.
  - apply (C initial_engine false (press KEY_LEFTALT) []); try reflexivity; [discriminate|].
    right; right; left; reflexivity.
Defined.

Lemma export_script_layout_witness :
  let '(fs', saved) :=
    guimap_save_script (fun _ => true) (fun _ => None) "/mnt" init_mappings in
  saved = Some (script_path "/mnt")
  /\ fs' (script_path "/mnt") = Some (script_text init_mappings, 493)
  /\ length (lines (script_text init_mappings)) = 18%nat
  /\ nth 0 (lines (script_text init_mappings)) "" = "#!/bin/sh"
  /\ nth 1 (lines (script_text init_mappings)) "" = "exec ./keyboard2thejoystick \"
  /\ (forall i, (i < NUM_MAPPINGS)%nat ->
        nth (i + 2) (lines (script_text init_mappings)) ""
        = ("  " ++ cli_name (map_at init_mappings i) ++ " "
           ++ keycode_to_name (keycode (map_at init_mappings i))
           ++ (if (i <? 15)%nat then " \" else ""))%string).
Proof.
  apply (export_script_layout (fun _ => true) (fun _ => None) "/mnt" init_mappings).
  - reflexivity.
  - repeat constructor.
  - reflexivity.
Defined.

Lemma keycode_to_name_placeholder_witness :
  (forall c, keycode_to_name c = "?" \/ In (c, keycode_to_name c) key_names)
  /\ keycode_to_name 69 = "?"
  /\ parse_keyname "?" = -1
  /\ nth (0 + 2) (lines (script_text (set_slot_keycode init_mappings 0 69))) ""
     = ("  " ++ cli_name (map_at (set_slot_keycode init_mappings 0 69) 0) ++ " ?"
        ++ (if (0 <? 15)%nat then " \" else ""))%string.
Proof.
  apply (keycode_to_name_placeholder 69 (set_slot_keycode init_mappings 0 69) 0).
  - intros H; vm_compute in H; repeat (destruct H as [H|H]; [discriminate|]); exact H.
  - reflexivity.
  - repeat constructor.
  - unfold NUM_MAPPINGS; lia.
  - reflexivity.
Defined.

Lemma drawing_primitives_in_bounds_witness :
  (0 <= 1280 <= 5120 / 4 /\ 0 <= 720)
  /\ let fb := fb_of_screeninfo 1280 720 5120 32 in
  (forall x y c, ~ (0 <= x < fb_width fb /\ 0 <= y < fb_height fb) ->
                 draw_pixel fb x y c = [])
  /\ (forall x y c, Forall (in_backbuf fb) (draw_pixel fb x y c))
  /\ (forall x y w h c, Forall (in_backbuf fb) (draw_rect fb x y w h c))
  /\ (forall cx cy r c, Forall (in_backbuf fb) (draw_circle fb cx cy r c))
  /\ (forall x y w h r c, Forall (in_backbuf fb) (draw_rounded_rect fb x y w h r c))
  /\ (forall x0 y0 x1 y1 x2 y2 c,
        Forall (in_backbuf fb) (draw_triangle_filled fb x0 y0 x1 y1 x2 y2 c))
  /\ (forall x y ch c scale, Forall (in_backbuf fb) (draw_char fb x y ch c scale))
  /\ (forall x y text c scale, Forall (in_backbuf fb) (draw_text fb x y text c scale)).
Proof.
  split; [vm_compute; split; [split; discriminate|discriminate]|].
  apply (drawing_primitives_in_bounds 1280 720 5120).
  - vm_compute; split; discriminate.
  - vm_compute; discriminate.
Defined.

(** ** Instances of the further properties at concrete inputs *)

Lemma insert_entry_perm (e : DirEntry) (l : list DirEntry) : Permutation (insert_entry e l) (e :: l).
Proof.
  induction l as [|x l IH]; cbn [insert_entry]; [reflexivity|].
  destruct (dir_entry_cmp e x <=? 0); [reflexivity|].
  rewrite IH; apply perm_swap.
Qed.

Lemma isort_entries_perm (l : list DirEntry) : Permutation (isort_entries l) l.
Proof.
  induction l as [|x l IH]; cbn [isort_entries fold_right]; [reflexivity|].
  fold (isort_entries l); rewrite insert_entry_perm, IH; reflexivity.
Qed.



Lemma parse_args_rejects_witness :
  parse_args init_mappings [] = (0, init_mappings, false, false)
  /\ (forall o m, find_slot init_mappings o = Some m -> special_arg o = false ->
        pa_code (parse_args init_mappings ([] ++ [o])) = -1)
  /\ (forall o m k rest, find_slot init_mappings o = Some m -> special_arg o = false ->
        parse_keyname k < 0 -> pa_code (parse_args init_mappings ([] ++ o :: k :: rest)) = -1)
  /\ (forall a rest, find_slot init_mappings a = None -> special_arg a = false ->
        pa_code (parse_args init_mappings ([] ++ a :: rest)) = -1).
Proof.
  split; [reflexivity|].
  apply (parse_args_rejects init_mappings [] init_mappings false false); reflexivity.
Defined.

Lemma parse_args_last_override_wins_witness :
  parse_args init_mappings ["--up"; "1"] = (0, set_slot_keycode init_mappings 0 KEY_1, false, false)
  /\ parse_args init_mappings (["--up"; "1"] ++ ["--up"; "esc"])
     = (0, set_slot_keycode (set_slot_keycode init_mappings 0 KEY_1) 0 (parse_keyname "esc"),
        false, false)
  /\ keycode (map_at (pa_table (parse_args init_mappings (["--up"; "1"] ++ ["--up"; "esc"]))) 0)
     = parse_keyname "esc".
Proof.
  split; [reflexivity|].
  apply (parse_args_last_override_wins init_mappings ["--up"; "1"]
           (set_slot_keycode init_mappings 0 KEY_1) false false "--up" "esc" 0).
  - reflexivity.
  - reflexivity.
  - reflexivity.
  - apply Z.leb_le; reflexivity.
Defined.

Lemma read_joystick_nav_edge_witness :
  nav_range 0 /\
  let '(p', nav_dy, nav_confirm) := read_joystick_nav 0 [mkEv EV_ABS ABS_Y 255] in
  nav_range p' /\ (nav_dy = 0 \/ nav_dy = p') /\ p' = last_nav_class 0 [mkEv EV_ABS ABS_Y 255]
  /\ nav_confirm = existsb is_trigger_press [mkEv EV_ABS ABS_Y 255]
  /\ (Forall (fun ev => (ev_type ev =? EV_ABS) && (ev_code ev =? ABS_Y) = true ->
                        nav_class (ev_value ev) = 0) [mkEv EV_ABS ABS_Y 255] -> nav_dy = 0).
Proof.
  split; [right; left; reflexivity|].
  apply (read_joystick_nav_edge 0 [mkEv EV_ABS ABS_Y 255]); right; left; reflexivity.
Defined.

Lemma virtual_joystick_declares_engine_events_witness :
  Forall (device_accepts (snd (fst (create_virtual_joystick 3 (fun _ => true)))))
         (snd (create_virtual_joystick 3 (fun _ => true)))
  /\ Forall (device_accepts (snd (fst (create_virtual_joystick 3 (fun _ => true)))))
            (snd (run_engine (fun m => (0, m)) initial_engine [[press KEY_SPACE]; [release KEY_SPACE]])).
Proof.
  apply (virtual_joystick_declares_engine_events 3 (fun _ => true) (fun m => (0, m))
           initial_engine [[press KEY_SPACE]; [release KEY_SPACE]]).
  - apply Z.leb_le; reflexivity.
  - intros b Hb.
    assert (Hin : In b (seq 8 8)) by (apply in_seq; unfold NUM_DIRECTIONS, NUM_MAPPINGS in Hb; lia).
    cbn [seq In] in Hin.
    repeat destruct Hin as [<- | Hin]; try contradiction;
      split; apply Z.leb_le; reflexivity.
  - intros m Hm; exact Hm.
Defined.

Lemma fb_clear_covers_once_witness :
  let fb := fb_of_screeninfo 1280 720 5120 32 in
  Forall (in_backbuf fb) (fb_clear fb 0)
  /\ NoDup (map fst (fb_clear fb 0))
  /\ (forall i, 0 <= i < fb_stride_px fb * fb_height fb -> In (i, 0) (fb_clear fb 0))
  /\ (forall x y, 0 <= x < fb_width fb -> 0 <= y < fb_height fb ->
        In (y * fb_stride_px fb + x, 0) (fb_clear fb 0)).
Proof.
  apply (fb_clear_covers_once 1280 720 5120 0).
  - split; [lia|]; apply Z.leb_le; reflexivity.
  - lia.
Defined.

Lemma draw_text_centered_box_witness :
  let fb := fb_of_screeninfo 1280 720 5120 32 in
  Forall (pixel_in_box fb (640 - text_width "PRESS A" 2 / 2) (640 + text_width "PRESS A" 2 / 2)
                          100 (100 + FONT_H * 2))
         (draw_text_centered fb 640 100 "PRESS A" 16777215 2).
Proof.
  apply (draw_text_centered_box (fb_of_screeninfo 1280 720 5120 32) 640 100 "PRESS A" 16777215 2).
  lia.
Defined.

Lemma direction_tap_within_poll_witness :
  poll_iteration initial_engine [press KEY_W; release KEY_W] =
  (initial_engine,
   button_events (g_map initial_engine) KEY_W true ++ button_events (g_map initial_engine) KEY_W false
   ++ (if existsb (fun d => KEY_W =? keycode (map_at (g_map initial_engine) d)) (seq 0 NUM_DIRECTIONS)
       then recalc_and_emit_axes (g_map initial_engine) (g_dir_held initial_engine) else []),
   false).
Proof.
  apply (direction_tap_within_poll initial_engine KEY_W).
  - reflexivity.
  - reflexivity.
  - reflexivity.
  - reflexivity.
  - intros d _ _; cbn [g_dir_held initial_engine]; unfold all_released; apply nth_repeat.
Defined.

Lemma parent_of_child_path_witness :
  child_path "/mnt" "usb" = "/mnt/usb" /\ parent_path (child_path "/mnt" "usb") = "/mnt".
Proof.
  split; [reflexivity|].
  apply (parent_of_child_path "/mnt" "usb").
  - discriminate.
  - apply Nat.leb_le; reflexivity.
  - reflexivity.
Defined.

Lemma browser_load_listing_witness :
  let b := browser_load demo_env "/mnt" in
  let pre := if String.eqb (substring 0 511 "/mnt") "/" then [] else [mkDirEntry ".." true] in
  b_path b = substring 0 511 "/mnt" /\ b_selected b = 0 /\ b_scroll b = 0
  /\ b_count b <= MAX_DIR_ENTRIES
  /\ match env_opendir demo_env "/mnt" with
     | None => b_entries b = pre
     | Some names =>
       exists ds,
         b_entries b = pre ++ ds ++ (if (length (pre ++ ds) <? 256)%nat then [EXPORT_ENTRY] else [])
         /\ Forall (fun e => exists n, In n names /\ starts_with_dot n = false
                      /\ env_stat_isdir demo_env (substring 0 511 ("/mnt" ++ "/" ++ n)) = Some true
                      /\ e = mkDirEntry (substring 0 255 n) true) ds
         /\ ((length (pre ++ ds) < 256)%nat ->
             forall n, In n names -> starts_with_dot n = false ->
             env_stat_isdir demo_env (substring 0 511 ("/mnt" ++ "/" ++ n)) = Some true ->
             In (mkDirEntry (substring 0 255 n) true) ds)
     end.
Proof.
  apply (browser_load_listing demo_env "/mnt").
  exact isort_entries_perm.
Defined.


Lemma guimap_first_pass_assigns_in_order_witness :
  let g := guimap_loop demo_env (fun _ => true) (guimap_init true init_mappings no_files)
             (map key_tick demo_keys) in
  ga_state g = GUIMAP_REVIEW /\ ga_review_sel g = 0 /\ ga_redo_single g = -1
  /\ ga_map g = assign_keycodes init_mappings demo_keys /\ ga_mapped g = repeat true NUM_MAPPINGS
  /\ ga_applied g = false /\ ga_fs g = no_files.
Proof.
  apply (guimap_first_pass_assigns_in_order demo_env (fun _ => true) true init_mappings
           no_files demo_keys).
  - reflexivity.
  - reflexivity.
  - repeat apply Forall_cons; try apply Forall_nil; apply Z.ltb_lt; reflexivity.
Defined.


Lemma guimap_redo_single_slot_witness :
  guimap_loop demo_env (fun _ => true) demo_review [key_tick KEY_ENTER; key_tick KEY_F]
  = mkGuimapApp GUIMAP_REVIEW 3 (-1) 3 (mkDirBrowser "" [] 0 0) ""
      (list_set (repeat true NUM_MAPPINGS) 3 true) false false 0
      (set_slot_keycode init_mappings 3 KEY_F) no_files.
Proof.
  apply (guimap_redo_single_slot demo_env (fun _ => true) demo_review KEY_ENTER KEY_F).
  - reflexivity.
  - cbn [ga_review_sel demo_review]; unfold NUM_MAPPINGS_Z, NUM_MAPPINGS; lia.
  - right; left; reflexivity.
  - apply Z.ltb_lt; reflexivity.
Defined.
